(** * SpineToVideo: the export scheduler and the offscreen render pipeline

    A shallow embedding of
    - [services/spineRenderer.ts]    (class [SpineRenderer]),
    - [services/offscreenRenderer.ts] (classes [OffscreenRenderer] and
      [ExportManager]),
    - [services/exportProcessor.ts]  (function [processExportWithOffscreen]),
    - [services/spineLoader.ts]      (the import of a folder, the object URLs),
    - [App.tsx]                      (the handlers of the item list),
    followed by the properties of the export core and of what surrounds it.

    Conventions of the embedding.
    - A JavaScript [number] is a [jsnum]: [NaN] or a rational, the value of
      the double.  [JS.mul] and [JS.div] round their result to the nearest
      double as IEEE 754 does, so that the frame count, the frame step and
      the timestamps of an export are those of the code.  The negative zero
      is outside the model, and so are the infinities, but for the quotients
      of the view ([Framing.Ext]) and the frame interval of the preview
      ([PreviewLoop.Interval]).  The simulated time of an animation, the
      boxes of the framing and the clock of the preview are kept exact, as
      the spec has them.
    - A JavaScript string is a [string]; one character stands for one UTF-16
      code unit (code units 0..255).
    - An object with identity (a renderer, a promise, an [AbortSignal]) is a
      natural number, allocated from a counter.
    - An [async] function is cut at its [await]s.  What the environment decides
      (whether a signal is set at a poll, whether the host has WebCodecs,
      whether a capture backend throws) is an explicit oracle argument, and
      every call a function issues is returned as an event list. *)

From Stdlib Require Import QArith Qround Qminmax Qabs Qpower ZArith Lia Lqa Ascii String.
From Stdlib Require Import Floats.SpecFloat.
From stdpp Require Import gmap strings list sorting.

Local Open Scope nat_scope.

(** ** JavaScript numbers *)

Module JS.

Inductive jsnum : Type :=
| NaN
| Num (q : Q).

Definition ofZ (z : Z) : jsnum := Num (inject_Z z).
Definition ofNat (n : nat) : jsnum := ofZ (Z.of_nat n).

Definition isNaN (x : jsnum) : bool :=
  match x with NaN => true | Num _ => false end.

(** [ToBoolean]: [NaN] and [0] are falsy. *)
Definition truthy (x : jsnum) : bool :=
  match x with
  | NaN => false
  | Num q => negb (Qeq_bool q 0)
  end.

(** [x || y] on numbers. *)
Definition or (x y : jsnum) : jsnum := if truthy x then x else y.

(** [x < y] and [x > y]; a comparison with [NaN] is false. *)
Definition lt (x y : jsnum) : bool :=
  match x, y with
  | Num a, Num b => negb (Qle_bool b a)
  | _, _ => false
  end.
Definition gt (x y : jsnum) : bool := lt y x.

(** *** Rounding

    A finite double is a rational [m * 2^e] with [|m| < 2^53] and
    [-1074 <= e].  [double q] is the double nearest to [q], the tie going to
    the even [m]: the rounding of IEEE 754 that JavaScript applies to the
    result of every arithmetic operation.  A result beyond the largest
    double would be an infinity; the model has none and keeps the rounded
    rational. *)

(** The integer nearest to [q]; of two that are equally near, the even one. *)
Definition nearestEven (q : Q) : Z :=
  let f := Qfloor q in
  match Qcompare (q - inject_Z f) (1 # 2) with
  | Lt => f
  | Gt => (f + 1)%Z
  | Eq => if Z.even f then f else (f + 1)%Z
  end.

(** The binary exponent of a positive rational: [2^e <= q < 2^(e+1)]. *)
Definition exponent (q : Q) : Z :=
  let e := (Z.log2 (Qnum q) - Z.log2 (Zpos (Qden q)))%Z in
  if Qle_bool (2 ^ e) q then e else (e - 1)%Z.

(** The exponent of the last place of the doubles near [q]: 52 places below
    the exponent of [q], and not below that of the subnormal numbers. *)
Definition quantum (q : Q) : Z := Z.max (exponent (Qabs q) - 52) (-1074).

Definition double (q : Q) : Q :=
  if Qeq_bool q 0 then 0%Q
  else Qred (inject_Z (nearestEven (q / 2 ^ quantum q)) * 2 ^ quantum q).

(** [x * y]. *)
Definition mul (x y : jsnum) : jsnum :=
  match x, y with
  | Num a, Num b => Num (double (a * b))
  | _, _ => NaN
  end.

(** [x / y].  JavaScript gives an infinity for a non-zero numerator over
    zero; the model has no infinities and gives [NaN] for every division by
    zero.  The code divides by [fps], by 255, by 1000 and by a number of
    samples; a quotient by [fps] is used in the frame loop only, which is
    empty when [fps] is 0. *)
Definition div (x y : jsnum) : jsnum :=
  match x, y with
  | Num a, Num b => if Qeq_bool b 0 then NaN else Num (double (a / b))
  | _, _ => NaN
  end.

(** [Math.ceil]. *)
Definition ceil (x : jsnum) : jsnum :=
  match x with
  | NaN => NaN
  | Num q => ofZ (Qceiling q)
  end.

(** The number of iterations of [for (let i = 0; i < n; i++)]. *)
Definition iterations (n : jsnum) : nat :=
  match n with
  | NaN => 0
  | Num q => Z.to_nat (Qceiling q)
  end.

(** *** Strings *)

(** [s.slice(from, to)] for non-negative indices. *)
Definition slice (from to : nat) (s : string) : string :=
  String.substring from (to - from) s.

(** The white space that [parseInt] skips, among the code units 0..255. *)
Definition isWhiteSpace (c : ascii) : bool :=
  let n := nat_of_ascii c in
  (n =? 9) || (n =? 10) || (n =? 11) || (n =? 12) || (n =? 13)
  || (n =? 32) || (n =? 160).

Fixpoint trimStart (s : string) : string :=
  match s with
  | String c s' => if isWhiteSpace c then trimStart s' else s
  | EmptyString => s
  end.

Definition digit16 (c : ascii) : option Z :=
  let n := Z.of_nat (nat_of_ascii c) in
  if ((48 <=? n) && (n <=? 57))%Z then Some (n - 48)%Z
  else if ((97 <=? n) && (n <=? 102))%Z then Some (n - 87)%Z
  else if ((65 <=? n) && (n <=? 70))%Z then Some (n - 55)%Z
  else None.

(** The longest prefix of radix-16 digits. *)
Fixpoint digitPrefix (s : string) : list Z :=
  match s with
  | String c s' =>
      match digit16 c with
      | Some d => d :: digitPrefix s'
      | None => []
      end
  | EmptyString => []
  end.

Definition stripSign (s : string) : Z * string :=
  match s with
  | String "-"%char s' => ((-1)%Z, s')
  | String "+"%char s' => (1%Z, s')
  | _ => (1%Z, s)
  end.

Definition stripPrefix (s : string) : string :=
  match s with
  | String "0"%char (String "x"%char s') => s'
  | String "0"%char (String "X"%char s') => s'
  | _ => s
  end.

Definition mathInt (ds : list Z) : Z :=
  fold_left (fun acc d => (acc * 16 + d)%Z) ds 0%Z.

(** [parseInt(s, 16)]: skip white space, take a sign, drop a [0x] prefix,
    read the longest run of hexadecimal digits; [NaN] when that run is
    empty. *)
Definition parseInt16 (s : string) : jsnum :=
  let (sign, s1) := stripSign (trimStart s) in
  match digitPrefix (stripPrefix s1) with
  | [] => NaN
  | ds => ofZ (sign * mathInt ds)
  end.

End JS.

Import JS.

(** ** Data of the export core *)

(** An RGBA colour, the four-element [bgColor] array. *)
Record Color : Type := RGBA { red : jsnum; green : jsnum; blue : jsnum; alpha : jsnum }.

(** An animation of a skeleton, as the Spine runtime reports it. *)
Record Animation : Type := { anim_name : string; anim_duration : jsnum }.

(** [SpineFiles]: the skeleton and atlas files of an asset (by name), and
    [content], what the Spine runtime decodes from the bundle: [None] when
    fetching or parsing it throws. *)
Record SpineFiles : Type := {
  skeleton : option string;
  atlas : option string;
  content : option (list Animation)
}.

Inductive ExportFormat : Type :=
| webm_vp9 | webm_vp8 | mp4_video        (* the [VideoFormat]s of the stream recorder *)
| png_sequence | jpg_sequence | mp4_h264.

Inductive Error : Type :=
| AbortError                              (* [new Error('AbortError')] *)
| MissingFiles                            (* skeleton or atlas file absent *)
| LoadFailed                              (* the runtime threw while loading *)
| AnimationNotFound (animation assetName : string)
| WebCodecsUnsupported                    (* the browser lacks the WebCodecs API *)
| BackendFailure.                         (* a capture backend threw *)

(** What the drawing buffer of a canvas holds after a render: the clear colour
    and the track time of the pose drawn over it, if a skeleton was drawn. *)
Record Picture : Type := { cleared : Color; posedAt : option jsnum }.

(** The entry on track 0 of the animation state. *)
Record Track : Type := { track_animation : Animation; trackTime : jsnum; track_loop : bool }.

(** ** [SpineRenderer] *)

Module SpineRenderer.

Record t : Type := mk {
  canvas_width : jsnum;
  canvas_height : jsnum;
  picture : option Picture;
  data : option (list Animation);    (* [skeleton] and [state], set by [load] *)
  bounds : bool;                     (* [bounds] is non-null *)
  track : option Track;              (* [state.getCurrent(0)] *)
  bgColor : Color;
  isPlaying : bool;
  timeScale : jsnum;
  isRunning : bool;
  targetFPS : jsnum;
  totalTime : jsnum
}.

(** [new SpineRenderer(canvas)] on a canvas of the given size. *)
Definition create (w h : jsnum) : t :=
  {| canvas_width := w; canvas_height := h; picture := None;
     data := None; bounds := false; track := None;
     bgColor := RGBA (ofZ 0) (ofZ 1) (ofZ 0) (ofZ 1);
     isPlaying := true; timeScale := ofZ 1; isRunning := false;
     targetFPS := ofZ 60; totalTime := ofZ 0 |}.

(** [load(files)]: the previous skeleton is dropped first; the call throws
    when a file is missing or the runtime fails, and otherwise binds the
    skeleton, computes the global bounds (none for an asset without
    animations) and returns the animation names.  What the runtime makes of
    a bundle is the [content] of the files: the model has every load of a
    bundle decode it the same way, where in a browser a later load can fail
    when an earlier one did not. *)
Definition load (files : SpineFiles) (r : t) : t * (Error + list string) :=
  let r0 := mk (canvas_width r) (canvas_height r) (picture r) None false None
               (bgColor r) (isPlaying r) (timeScale r) (isRunning r)
               (targetFPS r) (totalTime r) in
  match skeleton files, atlas files with
  | Some _, Some _ =>
      match content files with
      | Some anims =>
          (mk (canvas_width r) (canvas_height r) (picture r) (Some anims)
              (negb (bool_decide (anims = []))) None
              (bgColor r) (isPlaying r) (timeScale r) (isRunning r)
              (targetFPS r) (totalTime r),
           inr (map anim_name anims))
      | None => (r0, inl LoadFailed)
      end
  | _, _ => (r0, inl MissingFiles)
  end.

Definition findAnimation (name : string) (anims : list Animation) : option Animation :=
  List.find (fun a => String.eqb (anim_name a) name) anims.

(** [setAnimation(animName, loop)]: [state.setAnimation] throws for an
    unknown name, which the method catches and only reports. *)
Definition setAnimation (animName : string) (loop : bool) (r : t) : t :=
  match data r with
  | Some anims =>
      match findAnimation animName anims with
      | Some a =>
          mk (canvas_width r) (canvas_height r) (picture r) (data r) true
             (Some {| track_animation := a; trackTime := ofZ 0; track_loop := loop |})
             (bgColor r) (isPlaying r) (timeScale r) (isRunning r)
             (targetFPS r) (anim_duration a)
      | None => r
      end
  | None => r
  end.

Definition resetAnimation (r : t) : t :=
  match data r, track r with
  | Some _, Some tr =>
      mk (canvas_width r) (canvas_height r) (picture r) (data r) (bounds r)
         (Some {| track_animation := track_animation tr; trackTime := ofZ 0;
                  track_loop := track_loop tr |})
         (bgColor r) (isPlaying r) (timeScale r) (isRunning r)
         (targetFPS r) (totalTime r)
  | _, _ => r
  end.

Definition resize (width height : jsnum) (r : t) : t :=
  mk width height (picture r) (data r) (bounds r) (track r)
     (bgColor r) (isPlaying r) (timeScale r) (isRunning r)
     (targetFPS r) (totalTime r).

Definition setBackgroundColor (hex : string) (r : t) : t :=
  let c :=
    if String.eqb hex "transparent" then RGBA (ofZ 0) (ofZ 0) (ofZ 0) (ofZ 0)
    else
      let r_ := div (parseInt16 (slice 1 3 hex)) (ofZ 255) in
      let g_ := div (parseInt16 (slice 3 5 hex)) (ofZ 255) in
      let b_ := div (parseInt16 (slice 5 7 hex)) (ofZ 255) in
      let a_ := if String.length hex =? 9
                then div (parseInt16 (slice 7 9 hex)) (ofZ 255)
                else ofZ 1 in
      RGBA r_ g_ b_ a_ in
  mk (canvas_width r) (canvas_height r) (picture r) (data r) (bounds r) (track r)
     c (isPlaying r) (timeScale r) (isRunning r) (targetFPS r) (totalTime r).

Definition setPaused (paused : bool) (r : t) : t :=
  mk (canvas_width r) (canvas_height r) (picture r) (data r) (bounds r) (track r)
     (bgColor r) (negb paused) (timeScale r) (isRunning r)
     (targetFPS r) (totalTime r).

Definition setTargetFPS (fps : jsnum) (r : t) : t :=
  mk (canvas_width r) (canvas_height r) (picture r) (data r) (bounds r) (track r)
     (bgColor r) (isPlaying r) (timeScale r) (isRunning r)
     fps (totalTime r).

Definition stop (r : t) : t :=
  mk (canvas_width r) (canvas_height r) (picture r) (data r) (bounds r) (track r)
     (bgColor r) (isPlaying r) (timeScale r) false
     (targetFPS r) (totalTime r).

(** Modelled from the spec: the animation runtime's [state.update(dt)] is not
    part of the sources; the spec has it advance the animation time of the
    current track by exactly [dt].  The sum is the exact one. *)
Definition stateUpdate (dt : jsnum) (tr : option Track) : option Track :=
  match tr with
  | Some e => Some {| track_animation := track_animation e;
                      trackTime := match trackTime e, dt with
                                   | Num t, Num d => Num (t + d)
                                   | _, _ => NaN
                                   end;
                      track_loop := track_loop e |}
  | None => None
  end.

(** Line 417: [delta * this.timeScale], the time handed to [state.update].
    It belongs to the simulated time and is exact like it; in an export
    [timeScale] is 1 and the product is [delta] itself. *)
Definition scaled (delta timeScale : jsnum) : jsnum :=
  match delta, timeScale with
  | Num d, Num s => Num (d * s)
  | _, _ => NaN
  end.

(** [updateAndRender(delta)]: clear with [bgColor]; with a skeleton, a state
    and bounds, advance the state when playing, refresh [totalTime] from the
    current track and draw the skeleton. *)
Definition updateAndRender (delta : jsnum) (r : t) : t :=
  match data r, bounds r with
  | Some _, true =>
      let tr := if isPlaying r then stateUpdate (scaled delta (timeScale r)) (track r)
                else track r in
      let tot := match tr with
                 | Some e => anim_duration (track_animation e)
                 | None => totalTime r
                 end in
      mk (canvas_width r) (canvas_height r)
         (Some {| cleared := bgColor r; posedAt := option_map trackTime tr |})
         (data r) (bounds r) tr
         (bgColor r) (isPlaying r) (timeScale r) (isRunning r)
         (targetFPS r) tot
  | _, _ =>
      mk (canvas_width r) (canvas_height r)
         (Some {| cleared := bgColor r; posedAt := None |})
         (data r) (bounds r) (track r)
         (bgColor r) (isPlaying r) (timeScale r) (isRunning r)
         (targetFPS r) (totalTime r)
  end.

End SpineRenderer.

(** ** [OffscreenRenderer] *)

Record OffscreenRenderTask : Type := {
  assetName : string;
  animation : string;
  files : SpineFiles;
  width : jsnum;
  height : jsnum;
  fps : jsnum;
  format : ExportFormat;
  duration : option jsnum;           (* [duration?: number] *)
  backgroundColor : option string;   (* [backgroundColor?: string] *)
  abortSignal : option nat           (* [abortSignal?: AbortSignal], by identity *)
}.

(** The three capture backends ([recorder.ts], [imageSequenceExporter.ts] and
    [mp4Encoder.ts] are not part of the sources; only their calls are). *)
Inductive Backend : Type :=
| ImageSequenceExporter (png : bool)
| MP4Recorder
| CanvasRecorder (f : ExportFormat).

(** The calls a render job issues, in program order. *)
Inductive Call : Type :=
| Load (f : SpineFiles)
| Resize (w h : jsnum)
| SetAnimation (name : string) (loop : bool)
| SetPaused (paused : bool)
| SetTargetFPS (fps : jsnum)
| ResetAnimation
| SetBackgroundColor (hex : string)
| UpdateAndRender (delta : jsnum)
| RendererStop                                      (* [this.renderer.stop()] *)
| BackendStart (b : Backend)
| Capture (seen : option Picture)                   (* [exporter.capture()] *)
| EncodeFrame (seen : option Picture) (timestamp : jsnum)
| Sleep (ms : nat)                                  (* [setTimeout(resolve, 10)] *)
| BackendStop (b : Backend).

(** Modelled from the spec: the payloads of the three backends, whose classes
    are missing.  The image-sequence capturer appends a still of the surface
    on each capture and bundles the sequence on stop; the hardware encoder
    muxes each frame with its timestamp; the stream recorder returns a stream
    container. *)
Inductive Blob : Type :=
| ImageArchive (png : bool) (stills : list (option Picture))
| Mp4File (frames : list (option Picture * jsnum))
| StreamFile (f : ExportFormat).

(** What the environment decides during one job. *)
Record Host : Type := {
  signalAt : nat -> bool;       (* the job's signal at its k-th poll *)
  webCodecs : bool;             (* [isWebCodecsSupported()] *)
  startThrows : bool;           (* the backend's [start] throws *)
  captureThrows : nat -> bool;  (* the i-th [capture]/[encodeFrame] throws *)
  stopThrows : bool             (* the backend's [stop] throws *)
}.

Module OffscreenRenderer.

Import SpineRenderer.

(** [new OffscreenRenderer()]: a canvas of 1920 by 1080 that is never
    attached, and a renderer on it.  (The constructor of [SpineRenderer]
    throws on a host without WebGL or without the Spine runtime; the model
    is of a host that has both.) *)
Definition create : SpineRenderer.t := SpineRenderer.create (ofZ 1920) (ofZ 1080).

(** [abortSignal?.aborted] at poll [k] of the job. *)
Definition aborted (env : Host) (task : OffscreenRenderTask) (k : nat) : bool :=
  match abortSignal task with
  | Some _ => signalAt env k
  | None => false
  end.

Definition includes (x : string) (l : list string) : bool :=
  existsb (String.eqb x) l.

(** Lines 63-72: the render parameters. *)
Definition configure (task : OffscreenRenderTask) (r : t) : t * list Call :=
  let r1 := resize (width task) (height task) r in
  let r2 := setAnimation (animation task) false r1 in
  let r3 := setPaused false r2 in
  let r4 := setTargetFPS (fps task) r3 in
  let r5 := resetAnimation r4 in
  let calls := [Resize (width task) (height task); SetAnimation (animation task) false;
                SetPaused false; SetTargetFPS (fps task); ResetAnimation] in
  match backgroundColor task with
  | Some hex =>
      if negb (String.eqb hex "")
      then (setBackgroundColor hex r5, calls ++ [SetBackgroundColor hex])
      else (r5, calls)
  | None => (r5, calls)
  end.

(** Lines 75-76. *)
Definition animDuration (r : t) : jsnum := JS.or (totalTime r) (Num (2 # 1)).

Definition recordDuration (duration : option jsnum) (animDuration : jsnum) : jsnum :=
  match duration with
  | Some d => if truthy d && gt d (ofZ 0) then d else animDuration
  | None => animDuration
  end.

(** Lines 81-82. *)
Definition totalFrames (recordDuration fps : jsnum) : jsnum := ceil (mul recordDuration fps).
Definition frameDelta (fps : jsnum) : jsnum := div (ofZ 1) fps.

(** Lines 86-87, 90, 119: the backend of a format. *)
Definition backendOf (f : ExportFormat) : Backend :=
  match f with
  | png_sequence => ImageSequenceExporter true
  | jpg_sequence => ImageSequenceExporter false
  | mp4_h264 => MP4Recorder
  | _ => CanvasRecorder f
  end.

(** The awaited call that ends iteration [i] of the frame loop. *)
Definition captureCall (b : Backend) (fps : jsnum) (i : nat) (r : t) : Call :=
  match b with
  | ImageSequenceExporter _ => Capture (picture r)
  | MP4Recorder => EncodeFrame (picture r) (div (mul (ofNat i) (ofZ 1000000)) fps)
  | CanvasRecorder _ => Sleep 10
  end.

Definition captureFails (env : Host) (b : Backend) (i : nat) : bool :=
  match b with
  | CanvasRecorder _ => false
  | _ => captureThrows env i
  end.

(** The frame loop [for (let i = 0; i < totalFrames; i++)], with [n] the
    iterations left: poll the signal, render one frame, await the capture. *)
Fixpoint frameLoop (env : Host) (task : OffscreenRenderTask) (b : Backend)
    (n i : nat) (r : t) : t * list Call * option Error :=
  match n with
  | 0 => (r, [], None)
  | S n' =>
      if aborted env task (2 + i) then (r, [], Some AbortError)
      else
        let r1 := updateAndRender (frameDelta (fps task)) r in
        let calls := [UpdateAndRender (frameDelta (fps task)); captureCall b (fps task) i r1] in
        if captureFails env b i then (r1, calls, Some BackendFailure)
        else
          let '(r2, rest, e) := frameLoop env task b n' (S i) r1 in
          (r2, calls ++ rest, e)
  end.

Definition stills (calls : list Call) : list (option Picture) :=
  flat_map (fun c => match c with Capture p => [p] | _ => [] end) calls.

Definition encoded (calls : list Call) : list (option Picture * jsnum) :=
  flat_map (fun c => match c with EncodeFrame p ts => [(p, ts)] | _ => [] end) calls.

(** The payload that the backend's [stop] returns after the given calls. *)
Definition payload (b : Backend) (calls : list Call) : Blob :=
  match b with
  | ImageSequenceExporter png => ImageArchive png (stills calls)
  | MP4Recorder => Mp4File (encoded calls)
  | CanvasRecorder f => StreamFile f
  end.

(** The [catch] block of [renderToVideo]: stop the renderer, rethrow. *)
Definition catch (r : t) (calls : list Call) (e : Error) : t * list Call * (Error + Blob) :=
  (stop r, calls ++ [RendererStop], inl e).

(** One branch of lines 89-129: start the backend, run the frame loop, stop
    the backend, stop the renderer. *)
Definition capture (env : Host) (task : OffscreenRenderTask) (b : Backend) (r : t)
    : t * list Call * (Error + Blob) :=
  let n := iterations (totalFrames (recordDuration (duration task) (animDuration r)) (fps task)) in
  if startThrows env then catch r [BackendStart b] BackendFailure
  else
    let '(r1, loop, e) := frameLoop env task b n 0 r in
    match e with
    | Some err => catch r1 (BackendStart b :: loop) err
    | None =>
        if stopThrows env then catch r1 (BackendStart b :: loop ++ [BackendStop b]) BackendFailure
        else (stop r1, BackendStart b :: loop ++ [BackendStop b; RendererStop],
              inr (payload b loop))
    end.

(** Lines 84-129: the exporter is chosen by the format; the MP4 branch first
    asks the host for WebCodecs. *)
Definition record (env : Host) (task : OffscreenRenderTask) (r : t)
    : t * list Call * (Error + Blob) :=
  match format task with
  | png_sequence | jpg_sequence => capture env task (backendOf (format task)) r
  | mp4_h264 =>
      if negb (webCodecs env) then catch r [] WebCodecsUnsupported
      else capture env task MP4Recorder r
  | f => capture env task (CanvasRecorder f) r
  end.

Definition prepend (cs : list Call) (x : t * list Call * (Error + Blob))
    : t * list Call * (Error + Blob) :=
  let '(r, calls, res) := x in (r, cs ++ calls, res).

(** [renderToVideo(task)]. *)
Definition renderToVideo (env : Host) (task : OffscreenRenderTask) (r : t)
    : t * list Call * (Error + Blob) :=
  if aborted env task 0 then (r, [], inl AbortError)
  else
    let (r1, loaded) := load (files task) r in
    match loaded with
    | inl e => catch r1 [Load (files task)] e
    | inr animations =>
        if negb (includes (animation task) animations)
        then catch r1 [Load (files task)]
                   (AnimationNotFound (animation task) (assetName task))
        else if aborted env task 1 then catch r1 [Load (files task)] AbortError
        else
          let (r2, calls) := configure task r1 in
          prepend (Load (files task) :: calls) (record env task r2)
    end.

End OffscreenRenderer.

(** ** [ExportManager] *)

(** Everything observable that the scheduler and the batch export do. *)
Inductive Status : Type := waiting | exporting | completed | failed.

Inductive Event : Type :=
| EvStatus (itemId : string) (s : Status)        (* [onItemStatusChange] *)
| EvProgress (current total : nat) (name : string) (* [onProgress] *)
| EvQueued (ticket : nat)                         (* [queue.push] of a promise *)
| EvCreate (ticket renderer : nat)                (* [new OffscreenRenderer()], [renderToVideo] begun *)
| EvCall (renderer : nat) (c : Call)              (* a call of the job on that renderer *)
| EvResolve (ticket : nat) (b : Blob)             (* [item.resolve(blob)] *)
| EvReject (ticket : nat) (e : Error)             (* [item.reject(error)] *)
| EvDispose (renderer : nat)                      (* [renderer.dispose()] *)
| EvZipFile (filename : string) (b : Blob)        (* [zip.file(filename, blob)] *)
| EvDownload (zipEntries : nat).                  (* [CanvasRecorder.download] of the archive *)

Module ExportManager.

(** A queue item: the task and its [resolve]/[reject] pair, named by the
    ticket of the promise that [exportTask] returned. *)
Record Item : Type := { task : OffscreenRenderTask; ticket : nat }.

(** The manager with the part of the heap it works on.  [activeRenderers] is
    a JavaScript [Set], kept in insertion order; [running] holds the calls
    of [processQueue] suspended at [await renderer.renderToVideo]. *)
Record t : Type := mk {
  maxConcurrent : nat;
  activeRenderers : list nat;
  queue : list Item;
  running : list (nat * Item);
  nextRenderer : nat;
  nextTicket : nat;
  abortedSignals : list nat
}.

(** [new ExportManager()], in a heap where the signals [set] are aborted. *)
Definition create (set : list nat) : t :=
  {| maxConcurrent := 2; activeRenderers := []; queue := []; running := [];
     nextRenderer := 0; nextTicket := 0; abortedSignals := set |}.

(** [Set.prototype.add], [delete] and [size]. *)
Definition setAdd (x : nat) (s : list nat) : list nat :=
  if bool_decide (x ∈ s) then s else s ++ [x].
Definition setDelete (x : nat) (s : list nat) : list nat :=
  filter (fun y => y ≠ x) s.

(** [item.task.abortSignal?.aborted] *)
Definition isAborted (m : t) (it : Item) : bool :=
  match abortSignal (task it) with
  | Some sg => bool_decide (sg ∈ abortedSignals m)
  | None => false
  end.

(** [processQueue()], up to its [await], on the queue [q] of [m]: leave when
    the active set is full or the queue is empty; reject an item whose
    signal is aborted and go on with the next; otherwise construct a
    renderer for the head item, add it to the active set and begin
    [renderToVideo]. *)
Fixpoint processFrom (m : t) (q : list Item) : t * list Event :=
  if bool_decide (maxConcurrent m ≤ length (activeRenderers m))
  then (mk (maxConcurrent m) (activeRenderers m) q (running m)
           (nextRenderer m) (nextTicket m) (abortedSignals m), [])
  else
    match q with
    | [] => (mk (maxConcurrent m) (activeRenderers m) [] (running m)
                (nextRenderer m) (nextTicket m) (abortedSignals m), [])
    | it :: rest =>
        if isAborted m it
        then let (m', evs) := processFrom m rest in
             (m', EvReject (ticket it) AbortError :: evs)
        else
          let r := nextRenderer m in
          (mk (maxConcurrent m) (setAdd r (activeRenderers m)) rest
              (running m ++ [(r, it)]) (S r) (nextTicket m) (abortedSignals m),
           [EvCreate (ticket it) r])
    end.

Definition processQueue (m : t) : t * list Event := processFrom m (queue m).

(** [exportTask(task)]: push the item, call [processQueue]; the promise is
    the ticket [nextTicket m]. *)
Definition exportTask (tk : OffscreenRenderTask) (m : t) : t * list Event :=
  let it := {| task := tk; ticket := nextTicket m |} in
  let m1 := mk (maxConcurrent m) (activeRenderers m) (queue m ++ [it]) (running m)
               (nextRenderer m) (S (nextTicket m)) (abortedSignals m) in
  let (m2, evs) := processQueue m1 in
  (m2, EvQueued (ticket it) :: evs).

Definition lookupRunning (r : nat) (m : t) : option Item :=
  snd <$> List.find (fun p => fst p =? r) (running m).

(** The rest of [processQueue] for the renderer [r], once its
    [renderToVideo] has settled in the environment [env]: resolve or reject
    the item, then (finally) dispose the renderer, delete it from the
    active set and call [processQueue].  The calls of the job are reported
    here in one block: a job works on its own renderer and backend only.
    [env] is not tied to [abortedSignals], so that every course the job can
    take is covered.  A [cancelAll] in the meantime has disposed the
    renderer under the job (its loop stopped, its object URLs revoked); the
    model follows the job as on a renderer nobody touched, and a job that
    [cancelAll] has removed from the active set settles here all the same. *)
Definition settle (r : nat) (env : Host) (m : t) : t * list Event :=
  match lookupRunning r m with
  | None => (m, [])
  | Some it =>
      let '(_, calls, res) := OffscreenRenderer.renderToVideo env (task it) OffscreenRenderer.create in
      let outcome := match res with
                     | inr blob => EvResolve (ticket it) blob
                     | inl e => EvReject (ticket it) e
                     end in
      let m1 := mk (maxConcurrent m) (setDelete r (activeRenderers m)) (queue m)
                   (filter (fun p => fst p ≠ r) (running m))
                   (nextRenderer m) (nextTicket m) (abortedSignals m) in
      let (m2, evs) := processQueue m1 in
      (m2, map (EvCall r) calls ++ [outcome; EvDispose r] ++ evs)
  end.

(** [cancelAll()]. *)
Definition cancelAll (m : t) : t * list Event :=
  (mk (maxConcurrent m) [] [] (running m)
      (nextRenderer m) (nextTicket m) (abortedSignals m),
   map (fun it => EvReject (ticket it) AbortError) (queue m)
   ++ map EvDispose (activeRenderers m)).

(** [getQueueLength()]. *)
Definition getQueueLength (m : t) : nat :=
  length (queue m) + length (activeRenderers m).

(** [controller.abort()] on the signal [sg], somewhere in the heap. *)
Definition abort (sg : nat) (m : t) : t :=
  mk (maxConcurrent m) (activeRenderers m) (queue m) (running m)
     (nextRenderer m) (nextTicket m) (setAdd sg (abortedSignals m)).

(** What can happen to a manager, and the runs of a manager. *)
Inductive Command : Type :=
| Submit (tk : OffscreenRenderTask)
| Settle (r : nat) (env : Host)
| CancelAll
| Abort (sg : nat).

Definition step (m : t) (c : Command) : t * list Event :=
  match c with
  | Submit tk => exportTask tk m
  | Settle r env => settle r env m
  | CancelAll => cancelAll m
  | Abort sg => (abort sg m, [])
  end.

Fixpoint run (m : t) (cs : list Command) : t * list Event :=
  match cs with
  | [] => (m, [])
  | c :: cs' =>
      let (m1, evs1) := step m c in
      let (m2, evs2) := run m1 cs' in
      (m2, evs1 ++ evs2)
  end.

End ExportManager.

(** ** [processExportWithOffscreen] *)

Record AnimationItem : Type := { id : string; name : string; item_files : SpineFiles }.

Record ExportConfig : Type := {
  cfg_width : jsnum;
  cfg_height : jsnum;
  cfg_fps : jsnum;
  cfg_format : ExportFormat;
  cfg_duration : option jsnum;
  cfg_backgroundColor : option string
}.

Module ExportProcessor.

(** An element of [tasks]. *)
Record Job : Type := { item : AnimationItem; anim : string; job_task : OffscreenRenderTask }.

(** The state of one run: the manager it created, the counter [completed],
    the entries of [zip], and the callbacks of [tasks.map] suspended at
    [await exportManager.exportTask(task)], by ticket. *)
Record t : Type := mk {
  manager : ExportManager.t;
  completedJobs : nat;
  zip : gmap string Blob;
  awaiting : list (nat * Job)
}.

(** What the environment does while the jobs run: it aborts the signal of
    the run, or lets the job on a renderer settle. *)
Inductive Action : Type :=
| UserAborts
| JobSettles (r : nat) (env : Host).

Inductive Outcome : Type :=
| Returned (completedJobs : nat)   (* the promise of the run resolved *)
| Suspended.                       (* some job has not settled yet *)

(** Lines 48-63. *)
Definition jobOf (config : ExportConfig) (signal : option nat)
    (it : AnimationItem) (a : string) : Job :=
  {| item := it; anim := a;
     job_task := {| assetName := name it; animation := a; files := item_files it;
                    width := cfg_width config; height := cfg_height config;
                    fps := cfg_fps config; format := cfg_format config;
                    duration := cfg_duration config;
                    backgroundColor := cfg_backgroundColor config;
                    abortSignal := signal |} |}.

(** [abortSignal?.aborted] during the scan, before item [k]: the signal, if
    there is one, is set from the [n]-th check on when [scanAbort = Some n]. *)
Definition abortedInScan (signal scanAbort : option nat) (k : nat) : bool :=
  match signal, scanAbort with
  | Some _, Some n => bool_decide (n ≤ k)
  | _, _ => false
  end.

(** Lines 40-69: the scan of the selected items with the temporary
    renderer. *)
Fixpoint scan (config : ExportConfig) (signal scanAbort : option nat)
    (k : nat) (items : list AnimationItem) (temp : SpineRenderer.t)
    : list Job * list Event :=
  match items with
  | [] => ([], [])
  | it :: rest =>
      if abortedInScan signal scanAbort k then ([], [])
      else
        let (temp', loaded) := SpineRenderer.load (item_files it) temp in
        let (jobs, evs) := scan config signal scanAbort (S k) rest temp' in
        match loaded with
        | inr animations => (map (jobOf config signal it) animations ++ jobs, evs)
        | inl _ => (jobs, EvStatus (id it) failed :: evs)
        end
  end.

(** [abortSignal?.aborted] after the scan. *)
Definition isAborted (signal : option nat) (st : t) : bool :=
  match signal with
  | Some sg => bool_decide (sg ∈ ExportManager.abortedSignals (manager st))
  | None => false
  end.

Definition taskName (j : Job) : string := name (item j) +:+ " - " +:+ anim j.

(** Lines 99-106. *)
Definition ext (f : ExportFormat) : string :=
  match f with
  | png_sequence | jpg_sequence => "zip"
  | mp4_h264 => "mp4"
  | webm_vp9 | webm_vp8 => "webm"
  | mp4_video => "mp4"
  end.

Definition filename (config : ExportConfig) (j : Job) : string :=
  name (item j) +:+ "_" +:+ anim j +:+ "." +:+ ext (cfg_format config).

(** Lines 84-94: the callback of [tasks.map] up to its [await], for each
    job in turn. *)
Fixpoint submitAll (signal : option nat) (totalTasks : nat) (jobs : list Job) (st : t)
    : t * list Event :=
  match jobs with
  | [] => (st, [])
  | j :: rest =>
      if isAborted signal st then submitAll signal totalTasks rest st
      else
        let evs := [EvProgress (completedJobs st + 1) totalTasks (taskName j);
                    EvStatus (id (item j)) exporting] in
        let tk := ExportManager.nextTicket (manager st) in
        let (m, mevs) := ExportManager.exportTask (job_task j) (manager st) in
        let st1 := mk m (completedJobs st) (zip st) (awaiting st ++ [(tk, j)]) in
        let (st2, evs2) := submitAll signal totalTasks rest st1 in
        (st2, evs ++ mevs ++ evs2)
  end.

Definition lookupAwaiting (tk : nat) (st : t) : option Job :=
  snd <$> List.find (fun p => fst p =? tk) (awaiting st).

Definition dropAwaiting (tk : nat) (st : t) : list (nat * Job) :=
  filter (fun p => fst p ≠ tk) (awaiting st).

(** Lines 96-120: the rest of the callback, run when the promise of its
    ticket has been resolved or rejected. *)
Definition resume (config : ExportConfig) (signal : option nat) (totalTasks : nat)
    (st : t) (ev : Event) : t * list Event :=
  match ev with
  | EvResolve tk blob =>
      match lookupAwaiting tk st with
      | Some j =>
          if isAborted signal st
          then (mk (manager st) (completedJobs st) (zip st) (dropAwaiting tk st), [])
          else
            (mk (manager st) (S (completedJobs st))
                (<[filename config j := blob]> (zip st)) (dropAwaiting tk st),
             [EvZipFile (filename config j) blob;
              EvProgress (S (completedJobs st)) totalTasks (taskName j)])
      | None => (st, [])
      end
  | EvReject tk _ =>
      match lookupAwaiting tk st with
      | Some j =>
          (mk (manager st) (completedJobs st) (zip st) (dropAwaiting tk st),
           [EvStatus (id (item j)) failed])
      | None => (st, [])
      end
  | _ => (st, [])
  end.

(** The callbacks woken by the settlements among [evs], in that order. *)
Fixpoint resumeAll (config : ExportConfig) (signal : option nat) (totalTasks : nat)
    (evs : list Event) (st : t) : t * list Event :=
  match evs with
  | [] => (st, [])
  | ev :: rest =>
      let (st1, evs1) := resume config signal totalTasks st ev in
      let (st2, evs2) := resumeAll config signal totalTasks rest st1 in
      (st2, evs1 ++ evs2)
  end.

Definition act (config : ExportConfig) (signal : option nat) (totalTasks : nat)
    (a : Action) (st : t) : t * list Event :=
  match a with
  | UserAborts =>
      match signal with
      | Some sg => (mk (ExportManager.abort sg (manager st)) (completedJobs st)
                       (zip st) (awaiting st), [])
      | None => (st, [])
      end
  | JobSettles r env =>
      let (m, mevs) := ExportManager.settle r env (manager st) in
      let (st1, evs) := resumeAll config signal totalTasks mevs
                          (mk m (completedJobs st) (zip st) (awaiting st)) in
      (st1, mevs ++ evs)
  end.

(** [await Promise.all(exportPromises)]: the environment acts until every
    callback has returned. *)
Fixpoint awaitAll (config : ExportConfig) (signal : option nat) (totalTasks : nat)
    (acts : list Action) (st : t) : t * list Event :=
  match awaiting st, acts with
  | [], _ => (st, [])
  | _, [] => (st, [])
  | _, a :: rest =>
      let (st1, evs1) := act config signal totalTasks a st in
      let (st2, evs2) := awaitAll config signal totalTasks rest st1 in
      (st2, evs1 ++ evs2)
  end.

(** Lines 126-150. *)
Definition finish (selectedItems : list AnimationItem) (signal : option nat)
    (totalTasks : nat) (st : t) : Outcome * list Event :=
  match awaiting st with
  | _ :: _ => (Suspended, [])
  | [] =>
      if isAborted signal st then (Returned (completedJobs st), [])
      else
        ((Returned (completedJobs st)),
         (if bool_decide (0 < completedJobs st)
          then [EvProgress (completedJobs st) totalTasks "正在打包 ZIP 文件...";
                EvDownload (size (zip st))]
          else [])
         ++ map (fun it => EvStatus (id it) completed) selectedItems)
  end.

(** The state in which the jobs are submitted: a new manager, in a heap
    where the signal of the run is set if it was set during the scan. *)
Definition start (signal scanAbort : option nat) : t :=
  mk (ExportManager.create
        (match signal, scanAbort with Some sg, Some _ => [sg] | _, _ => [] end))
     0 ∅ [].

(** [processExportWithOffscreen(selectedItems, config, callbacks,
    abortSignal)], with the events it causes in order.  [scanAbort] and
    [acts] are the environment: when the signal is set during the scan, and
    what happens while the jobs run.  The errors of the scan and of the jobs
    are caught where they occur (lines 65-68 and 117-120); the outer [catch]
    (lines 151-155) is for an error of the archive or of the host, which the
    model does not have. *)
Definition processExportWithOffscreen (selectedItems : list AnimationItem)
    (config : ExportConfig) (signal scanAbort : option nat) (acts : list Action)
    : Outcome * list Event :=
  let evs0 := map (fun it => EvStatus (id it) waiting) selectedItems in
  let (jobs, evs1) := scan config signal scanAbort 0 selectedItems
                           (SpineRenderer.create (ofZ 300) (ofZ 150)) in
  let totalTasks := length jobs in
  if totalTasks =? 0 then (Returned 0, evs0 ++ evs1)
  else
    let evs2 := [EvProgress 0 totalTasks "准备导出..."] in
    let (st1, evs3) := submitAll signal totalTasks jobs (start signal scanAbort) in
    let (st2, evs4) := resumeAll config signal totalTasks evs3 st1 in
    let (st3, evs5) := awaitAll config signal totalTasks acts st2 in
    let (out, evs6) := finish selectedItems signal totalTasks st3 in
    (out, evs0 ++ evs1 ++ evs2 ++ evs3 ++ evs4 ++ evs5 ++ evs6).

(** The status of each item as the caller's [onItemStatusChange] keeps it:
    the last status reported for its id. *)
Definition statusBoard (evs : list Event) : gmap string Status :=
  fold_left (fun board ev => match ev with
                             | EvStatus i s => <[i := s]> board
                             | _ => board
                             end) evs ∅.

End ExportProcessor.

(** ** [SpineRenderer]: the bounds of an asset and the view of a frame *)

Module Framing.

(** An axis-aligned box, as the [offset] and [size] vectors hold it. *)
Record Box : Type := { offset_x : Q; offset_y : Q; size_x : Q; size_y : Q }.

(** [minX], [minY], [maxX], [maxY] of a scan; [None] is the infinity that
    each starts from. *)
Record Extremes : Type := {
  minX : option Q; minY : option Q; maxX : option Q; maxY : option Q
}.

Definition start : Extremes := {| minX := None; minY := None; maxX := None; maxY := None |}.

(** [Math.min(acc, x)] and [Math.max(acc, x)]. *)
Definition least (acc : option Q) (x : Q) : option Q :=
  Some (match acc with Some a => Qmin a x | None => x end).
Definition greatest (acc : option Q) (x : Q) : option Q :=
  Some (match acc with Some a => Qmax a x | None => x end).

(** Lines 244-247. *)
Definition include (e : Extremes) (b : Box) : Extremes :=
  {| minX := least (minX e) (offset_x b);
     minY := least (minY e) (offset_y b);
     maxX := greatest (maxX e) (offset_x b + size_x b);
     maxY := greatest (maxY e) (offset_y b + size_y b) |}.

(** Line 235. *)
Definition samplesOf (duration : jsnum) : nat := if gt duration (ofZ 0) then 5 else 1.

(** Line 238: the time of sample [i]. *)
Definition timeOf (samples : nat) (duration : jsnum) (i : nat) : jsnum :=
  mul (div (ofNat i) (ofNat samples)) duration.

(** What the Spine runtime measures is not part of the sources:
    [getBounds k a time] is the box that [skeleton.getBounds] reports at the
    [k]-th measurement of a scan, after [a.apply] at [time]. *)
Definition Runtime : Type := nat -> Animation -> jsnum -> Box.

(** Lines 237-248: the loop [for (let i = 0; i <= samples; i++)] from sample
    [i] on, with [n] iterations left; [k] counts the measurements. *)
Fixpoint sampleLoop (getBounds : Runtime) (a : Animation) (samples n i k : nat)
    (e : Extremes) : nat * Extremes :=
  match n with
  | 0 => (k, e)
  | S n' =>
      let time := timeOf samples (anim_duration a) i in
      sampleLoop getBounds a samples n' (S i) (S k) (include e (getBounds k a time))
  end.

(** Lines 233-249: [for (const anim of animations)]. *)
Fixpoint animationLoop (getBounds : Runtime) (animations : list Animation) (k : nat)
    (e : Extremes) : nat * Extremes :=
  match animations with
  | [] => (k, e)
  | a :: rest =>
      let samples := samplesOf (anim_duration a) in
      let (k', e') := sampleLoop getBounds a samples (S samples) 0 k e in
      animationLoop getBounds rest k' e'
  end.

(** Lines 252-260: the box of the extremes with a margin of [fraction] of
    its width and height on each side.  Extremes that are still infinite do
    not occur after a scan (every loop measures at least twice) and have no
    box in the model. *)
Definition padded (fraction : Q) (e : Extremes) : option Box :=
  match minX e, minY e, maxX e, maxY e with
  | Some x0, Some y0, Some x1, Some y1 =>
      let width := (x1 - x0)%Q in
      let height := (y1 - y0)%Q in
      let paddingX := (width * fraction)%Q in
      let paddingY := (height * fraction)%Q in
      Some {| offset_x := x0 - paddingX; offset_y := y0 - paddingY;
              size_x := width + paddingX * 2; size_y := height + paddingY * 2 |}
  | _, _, _, _ => None
  end.

(** [computeGlobalBounds()], on a loaded skeleton with the given animations:
    [None] when it returns without setting [globalBounds]. *)
Definition computeGlobalBounds (getBounds : Runtime) (animations : list Animation)
    : option Box :=
  match animations with
  | [] => None
  | _ :: _ => padded (15 # 100) (snd (animationLoop getBounds animations 0 start))
  end.

(** [updateAnimationBounds(animName)]: one animation, 15 samples, a margin
    of 10%. *)
Definition updateAnimationBounds (getBounds : Runtime) (animations : list Animation)
    (animName : string) : option Box :=
  match SpineRenderer.findAnimation animName animations with
  | None => None
  | Some a => padded (10 # 100) (snd (sampleLoop getBounds a 15 16 0 0 start))
  end.

(** A number that may have left the finite range.  The quotient by zero is
    an infinity, or [NaN] when the dividend is zero too; the zero of the
    model is the positive one, as the width and the height of a canvas and
    the extent of a box have it. *)
Inductive Ext : Type :=
| Finite (q : Q)
| PlusInfinity
| MinusInfinity
| Undefined.

(** [a / b] *)
Definition quotient (a b : Q) : Ext :=
  if Qeq_bool b 0
  then match Qcompare a 0 with
       | Gt => PlusInfinity
       | Lt => MinusInfinity
       | Eq => Undefined
       end
  else Finite (a / b).

(** [a > b]: false when either is [NaN]. *)
Definition exceeds (a b : Ext) : bool :=
  match a, b with
  | Finite x, Finite y => negb (Qle_bool x y)
  | Finite _, MinusInfinity => true
  | PlusInfinity, Finite _ => true
  | PlusInfinity, MinusInfinity => true
  | _, _ => false
  end.

(** [a * b] *)
Definition times (a : Q) (b : Ext) : Ext :=
  match b with
  | Finite y => Finite (a * y)
  | PlusInfinity => match Qcompare a 0 with
                    | Gt => PlusInfinity
                    | Lt => MinusInfinity
                    | Eq => Undefined
                    end
  | MinusInfinity => match Qcompare a 0 with
                     | Gt => MinusInfinity
                     | Lt => PlusInfinity
                     | Eq => Undefined
                     end
  | Undefined => Undefined
  end.

(** [a / b] *)
Definition over (a : Q) (b : Ext) : Ext :=
  match b with
  | Finite y => quotient a y
  | PlusInfinity | MinusInfinity => Finite 0
  | Undefined => Undefined
  end.

(** [a /= zoom] *)
Definition zoomed (a : Ext) (zoom : Q) : Ext :=
  match a with
  | Finite x => quotient x zoom
  | PlusInfinity => if Qle_bool 0 zoom then PlusInfinity else MinusInfinity
  | MinusInfinity => if Qle_bool 0 zoom then MinusInfinity else PlusInfinity
  | Undefined => Undefined
  end.

(** Lines 428-456 of [updateAndRender]: the rectangle handed to
    [mvp.ortho2d] for the bounds [b] on a canvas of [canvasW] by [canvasH]
    at the zoom [scale]; [None] when its width or its height is an infinity
    or [NaN], which [ortho2d] is then given.  A content of height 0 has an
    infinite aspect ratio, or none: the comparison then takes the second
    branch, and the view is as wide as the content. *)
Definition view (b : Box) (canvasW canvasH scale : Q) : option Box :=
  let contentW := size_x b in
  let contentH := size_y b in
  let centerX := (offset_x b + contentW / 2)%Q in
  let centerY := (offset_y b + contentH / 2)%Q in
  let canvasAspect := quotient canvasW canvasH in
  let contentAspect := quotient contentW contentH in
  let (viewW, viewH) :=
    if exceeds canvasAspect contentAspect
    then (times contentH canvasAspect, Finite contentH)
    else (Finite contentW, over contentW canvasAspect) in
  let zoom := scale in
  match zoomed viewW zoom, zoomed viewH zoom with
  | Finite viewW, Finite viewH =>
      Some {| offset_x := centerX - viewW / 2; offset_y := centerY - viewH / 2;
              size_x := viewW; size_y := viewH |}
  | _, _ => None
  end.

End Framing.

(** ** [SpineRenderer]: playback and the preview loop *)

Module Playback.

Import SpineRenderer.

(** [seek(time)]. *)
Definition seek (time : jsnum) (r : t) : t :=
  match data r, track r with
  | Some _, Some tr =>
      mk (canvas_width r) (canvas_height r) (picture r) (data r) (bounds r)
         (Some {| track_animation := track_animation tr; trackTime := time;
                  track_loop := track_loop tr |})
         (bgColor r) (isPlaying r) (timeScale r) (isRunning r)
         (targetFPS r) (totalTime r)
  | _, _ => r
  end.


End Playback.

Module PreviewLoop.

(** [frameInterval], the quotient [1000 / fps]: a number of milliseconds,
    the infinity that a frame rate of 0 gives, or [NaN]. *)
Inductive Interval : Type :=
| Finite (ms : Q)
| Infinite
| NotANumber.

Definition intervalOf (fps : jsnum) : Interval :=
  match fps with
  | NaN => NotANumber
  | Num f => if Qeq_bool f 0 then Infinite else Finite (1000 / f)
  end.

(** The renderer with the fields of its frame pacing: [frameInterval],
    [lastFrameTime], [lastTime], and whether a callback of
    [requestAnimationFrame] is pending ([requestId]). *)
Record t : Type := mk {
  renderer : SpineRenderer.t;
  frameInterval : Interval;
  lastFrameTime : jsnum;
  lastTime : jsnum;
  pending : bool
}.

(** A new renderer: 60 frames per second, nothing pending. *)
Definition create (w h : jsnum) : t :=
  {| renderer := SpineRenderer.create w h; frameInterval := Finite (1000 / 60);
     lastFrameTime := ofZ 0; lastTime := ofZ 0; pending := false |}.

(** [setTargetFPS(fps)] with its second assignment. *)
Definition setTargetFPS (fps : jsnum) (p : t) : t :=
  mk (SpineRenderer.setTargetFPS fps (renderer p)) (intervalOf fps)
     (lastFrameTime p) (lastTime p) (pending p).

(** [x - y]. *)
Definition minus (x y : jsnum) : jsnum :=
  match x, y with
  | Num a, Num b => Num (a - b)
  | _, _ => NaN
  end.

(** [elapsed < this.frameInterval]. *)
Definition before (elapsed : jsnum) (i : Interval) : bool :=
  match elapsed, i with
  | Num e, Finite ms => negb (Qle_bool ms e)
  | Num _, Infinite => true
  | _, _ => false
  end.

(** The integer part of a quotient, towards zero. *)
Definition truncate (q : Q) : Z := if Qle_bool 0 q then Qfloor q else Qceiling q.

(** [elapsed % this.frameInterval]: the remainder has the sign of
    [elapsed]. *)
Definition remainder (elapsed : jsnum) (i : Interval) : jsnum :=
  match elapsed, i with
  | Num e, Finite ms =>
      if Qeq_bool ms 0 then NaN else Num (e - ms * inject_Z (truncate (e / ms)))
  | Num e, Infinite => Num e
  | _, _ => NaN
  end.

(** [renderLoop()] when the clock shows [now]: the state after it, and the
    delta it rendered a frame with, if it rendered one. *)
Definition renderLoop (now : Q) (p : t) : t * option jsnum :=
  if negb (SpineRenderer.isRunning (renderer p))
  then (mk (renderer p) (frameInterval p) (lastFrameTime p) (lastTime p) false, None)
  else
    let elapsed := minus (Num now) (lastFrameTime p) in
    if before elapsed (frameInterval p)
    then (mk (renderer p) (frameInterval p) (lastFrameTime p) (lastTime p) true, None)
    else
      let delta := div elapsed (ofZ 1000) in
      let last := minus (Num now) (remainder elapsed (frameInterval p)) in
      let delta := if gt delta (Num (1 # 10)) then ofZ 0 else delta in
      (mk (SpineRenderer.updateAndRender delta (renderer p)) (frameInterval p)
          last (lastTime p) true,
       Some delta).

(** [start()], the clock showing [now1], [now2] and [now3] at its three
    readings. *)
Definition start (now1 now2 now3 : Q) (p : t) : t * option jsnum :=
  if SpineRenderer.isRunning (renderer p) then (p, None)
  else
    let r := renderer p in
    let r' := SpineRenderer.mk (SpineRenderer.canvas_width r) (SpineRenderer.canvas_height r)
                (SpineRenderer.picture r) (SpineRenderer.data r) (SpineRenderer.bounds r)
                (SpineRenderer.track r) (SpineRenderer.bgColor r) (SpineRenderer.isPlaying r)
                (SpineRenderer.timeScale r) true (SpineRenderer.targetFPS r)
                (SpineRenderer.totalTime r) in
    renderLoop now3 (mk r' (frameInterval p) (Num now2) (Num now1) (pending p)).

(** [stop()]: the pending callback is cancelled. *)
Definition stop (p : t) : t :=
  mk (SpineRenderer.stop (renderer p)) (frameInterval p) (lastFrameTime p) (lastTime p) false.

(** The callbacks of [requestAnimationFrame] at the times [times]: each
    runs [renderLoop] if one is pending.  The deltas of the frames they
    render. *)
Fixpoint frames (times : list Q) (p : t) : t * list jsnum :=
  match times with
  | [] => (p, [])
  | now :: rest =>
      if pending p
      then let (p1, rendered) := renderLoop now p in
           let (p2, more) := frames rest p1 in
           (p2, match rendered with Some d => d :: more | None => more end)
      else frames rest p
  end.

End PreviewLoop.

(** ** [spineLoader.ts]: the object URLs of an asset *)

Module AssetUrls.

(** The object URLs of the document.  A URL is the number of its creation;
    [live] holds the URLs created and not revoked. *)
Record Store : Type := { next : nat; live : gset nat }.

(** [URL.createObjectURL(file)] and [URL.revokeObjectURL(url)]. *)
Definition createObjectURL (s : Store) : nat * Store :=
  (next s, {| next := S (next s); live := {[next s]} ∪ live s |}).
Definition revokeObjectURL (url : nat) (s : Store) : Store :=
  {| next := next s; live := live s ∖ {[url]} |}.

(** [urls[name] = URL.createObjectURL(file)]. *)
Definition assign (acc : gmap string nat * Store) (name : string) : gmap string nat * Store :=
  let (url, s') := createObjectURL (snd acc) in (<[name := url]> (fst acc), s').

(** [createAssetUrls(files)], the images of the bundle given by name. *)
Definition createAssetUrls (files : SpineFiles) (images : list string) (s : Store)
    : gmap string nat * Store :=
  let acc0 := (∅, s) in
  let acc1 := match skeleton files with Some name => assign acc0 name | None => acc0 end in
  let acc2 := match atlas files with Some name => assign acc1 name | None => acc1 end in
  fold_left assign images acc2.

(** [revokeAssetUrls(urls)]. *)
Definition revokeAssetUrls (urls : gmap string nat) (s : Store) : Store :=
  foldr revokeObjectURL s (snd <$> map_to_list urls).

(** Lines 88-95 of [SpineRenderer.load]: what [load] does to [this.urls],
    and whether it goes on (it throws when a file is missing, after the
    revocation, and leaves [this.urls] as it was). *)
Definition load (files : SpineFiles) (images : list string)
    (urls : gmap string nat) (s : Store) : gmap string nat * Store :=
  let s1 := revokeAssetUrls urls s in
  match skeleton files, atlas files with
  | Some _, Some _ => createAssetUrls files images s1
  | _, _ => (urls, s1)
  end.

(** Lines 490-491 of [SpineRenderer.dispose], what it does after
    [this.stop()] ([SpineRenderer.stop]).  [OffscreenRenderer.dispose] is
    this method on the renderer of the job; in the log of a manager it is
    the event [EvDispose]. *)
Definition dispose (urls : gmap string nat) (s : Store) : gmap string nat * Store :=
  (∅, revokeAssetUrls urls s).

(** The life of a renderer: loads, then a disposal. *)
Fixpoint loads (bundles : list (SpineFiles * list string)) (urls : gmap string nat)
    (s : Store) : gmap string nat * Store :=
  match bundles with
  | [] => (urls, s)
  | (files, images) :: rest =>
      let (urls', s') := load files images urls s in loads rest urls' s'
  end.

End AssetUrls.

(** ** [App]: the items, the selection and the status of each item *)

Module App.

(** The [status] of an item: ['idle'] after the import, then what the
    export reports. *)
Inductive ItemStatus : Type := idle | reported (s : Status).

(** The state of the component that the handlers work on: [items] (each
    with its [status]), [selectedIds] and [activeItemId]. *)
Record t : Type := mk {
  items : list (AnimationItem * ItemStatus);
  selectedIds : gset string;
  activeItemId : option string
}.

Definition initial : t := {| items := []; selectedIds := ∅; activeItemId := None |}.

Definition idOf (e : AnimationItem * ItemStatus) : string := id (fst e).

(** [handleFilesUpload(files)], [newItems] being what
    [groupFilesByDirectory(files)] returned. *)
Definition handleFilesUpload (newItems : list AnimationItem) (st : t) : t :=
  mk (items st ++ map (fun it => (it, idle)) newItems)
     (foldl (fun next it => {[id it]} ∪ next) (selectedIds st) newItems)
     (activeItemId st).

(** [handleSelect(id, multi)]. *)
Definition handleSelect (i : string) (multi : bool) (st : t) : t :=
  let newSet := if multi then selectedIds st else ∅ in
  mk (items st)
     (if bool_decide (i ∈ newSet) && multi then newSet ∖ {[i]} else {[i]} ∪ newSet)
     (Some i).

(** [handleSelectAll()]. *)
Definition handleSelectAll (st : t) : t :=
  mk (items st)
     (if size (selectedIds st) =? length (items st) then ∅
      else list_to_set (map idOf (items st)))
     (activeItemId st).

(** [handleDelete(id)]. *)
Definition handleDelete (i : string) (st : t) : t :=
  mk (List.filter (fun e => negb (String.eqb (idOf e) i)) (items st))
     (selectedIds st ∖ {[i]})
     (if bool_decide (activeItemId st = Some i) then None else activeItemId st).

(** The callback [onItemStatusChange] that [processExportQueue] hands to the
    export. *)
Definition onItemStatusChange (itemId : string) (status : Status) (st : t) : t :=
  mk (map (fun e => if String.eqb (idOf e) itemId then (fst e, reported status) else e)
          (items st))
     (selectedIds st) (activeItemId st).

(** [selectedItems] of [processExportQueue]. *)
Definition selectedItems (st : t) : list AnimationItem :=
  map fst (List.filter (fun e => bool_decide (idOf e ∈ selectedIds st)) (items st)).

(** What the user does. *)
Inductive Action : Type :=
| Upload (newItems : list AnimationItem)
| Select (i : string) (multi : bool)
| SelectAll
| Delete (i : string).

Definition step (st : t) (a : Action) : t :=
  match a with
  | Upload newItems => handleFilesUpload newItems st
  | Select i multi => handleSelect i multi st
  | SelectAll => handleSelectAll st
  | Delete i => handleDelete i st
  end.

Definition run (actions : list Action) (st : t) : t := fold_left step actions st.

(** The reports of an export, as the callback applies them. *)
Definition report (st : t) (ev : Event) : t :=
  match ev with
  | EvStatus i s => onItemStatusChange i s st
  | _ => st
  end.

End App.

(** ** [spineLoader.ts]: the import of a folder *)

(** The methods of JavaScript strings that the import uses. *)
Module Text.

(** [toLowerCase] of one code unit, among the code units 0..255: the
    letters A-Z and the capital letters of Latin-1 (U+00C0 to U+00DE, without
    the multiplication sign). *)
Definition lower (c : ascii) : ascii :=
  let n := nat_of_ascii c in
  if ((65 <=? n) && (n <=? 90)) || ((192 <=? n) && (n <=? 222) && negb (n =? 215))
  then ascii_of_nat (n + 32)
  else c.

Fixpoint toLowerCase (s : string) : string :=
  match s with
  | EmptyString => EmptyString
  | String c s' => String (lower c) (toLowerCase s')
  end.

(** [s.startsWith(p)]. *)
Definition startsWith (s p : string) : bool := String.prefix p s.

(** [s.endsWith(p)]: read backwards, [p] begins [s]. *)
Definition endsWith (s p : string) : bool := String.prefix (String.rev p) (String.rev s).

(** [s.includes(p)]. *)
Definition includes (s p : string) : bool :=
  match String.index 0 p s with
  | Some _ => true
  | None => bool_decide (p = EmptyString)
  end.

(** [s.split(sep)] for a separator of one code unit: the segments between
    the separators, at least one. *)
Fixpoint split (sep : ascii) (s : string) : list string :=
  match s with
  | EmptyString => [EmptyString]
  | String c s' =>
      if Ascii.eqb c sep then EmptyString :: split sep s'
      else match split sep s' with
           | segment :: rest => String c segment :: rest
           | [] => [String c EmptyString]
           end
  end.

(** [parts.join(sep)]. *)
Definition join (sep : string) (parts : list string) : string := String.concat sep parts.

End Text.

Module SpineLoader.

Import Text.

(** A [File] of the list: its [name] and its [webkitRelativePath]. *)
Record File : Type := { file_name : string; webkitRelativePath : string }.

(** What [getFileType] returns. *)
Inductive FileType : Type :=
| type_json | type_skel | type_spine | type_atlas | type_image | type_unknown.

(** [getFileType(filename)]. *)
Definition getFileType (filename : string) : FileType :=
  let lower := toLowerCase filename in
  if endsWith lower ".json" then type_json
  else if endsWith lower ".skel" then type_skel
  else if endsWith lower ".spine" then type_spine
  else if endsWith lower ".atlas" then type_atlas
  else if endsWith lower ".png" || endsWith lower ".jpg"
          || endsWith lower ".jpeg" || endsWith lower ".webp" then type_image
  else type_unknown.

(** An entry of [pathMap]. *)
Record Entry : Type := {
  entry_skeleton : option File;
  entry_atlas : option File;
  entry_images : list File;
  skeletonType : option FileType
}.

(** The entry that [getEntry] makes for a new path. *)
Definition newEntry : Entry :=
  {| entry_skeleton := None; entry_atlas := None; entry_images := []; skeletonType := None |}.

(** Lines 46-48: the folders of the file, and their path. *)
Definition parts (file : File) : list string :=
  removelast (split "/" (webkitRelativePath file)).
Definition dirPath (file : File) : string := join "/" (parts file).

(** Line 51: the file is hidden, or lies in a hidden folder. *)
Definition hidden (file : File) : bool :=
  startsWith (file_name file) "." || existsb (fun p => startsWith p ".") (parts file).

(** Lines 56-79: what a file does to the entry of its folder. *)
Definition classify (entry : Entry) (file : File) : Entry :=
  match getFileType (file_name file) with
  | (type_skel | type_json | type_spine) as type =>
      let better :=
        match entry_skeleton entry with
        | None => true
        | Some _ =>
            match skeletonType entry, type with
            | Some type_spine, (type_skel | type_json) => true
            | Some type_json, type_skel => true
            | _, _ => false
            end
        end in
      if better
      then {| entry_skeleton := Some file; entry_atlas := entry_atlas entry;
              entry_images := entry_images entry; skeletonType := Some type |}
      else entry
  | type_atlas =>
      let replaced := {| entry_skeleton := entry_skeleton entry; entry_atlas := Some file;
                         entry_images := entry_images entry;
                         skeletonType := skeletonType entry |} in
      match entry_atlas entry, entry_skeleton entry with
      | None, _ => replaced
      | Some _, Some skeleton =>
          if includes (file_name file) (hd EmptyString (split "." (file_name skeleton)))
          then replaced else entry
      | Some _, None => entry
      end
  | type_image =>
      {| entry_skeleton := entry_skeleton entry; entry_atlas := entry_atlas entry;
         entry_images := entry_images entry ++ [file]; skeletonType := skeletonType entry |}
  | type_unknown => entry
  end.

(** Lines 44-80: the callback of [fileArray.forEach]. *)
Definition addFile (pathMap : gmap string Entry) (file : File) : gmap string Entry :=
  if hidden file then pathMap
  else <[dirPath file := classify (default newEntry (pathMap !! dirPath file)) file]> pathMap.

(** An item of the result, with the fields that the import fills in
    ([animationNames], [defaultAnimation] and [status] are constants). *)
Record Item : Type := {
  item_id : string;
  item_name : string;
  item_skeleton : File;
  item_atlas : File;
  item_images : list File;
  basePath : string
}.

(** Line 84: the folder has a skeleton and an atlas. *)
Definition isAssetRoot (pathMap : gmap string Entry) (path : string) : bool :=
  match pathMap !! path with
  | Some e => bool_decide (is_Some (entry_skeleton e)) && bool_decide (is_Some (entry_atlas e))
  | None => false
  end.

(** Lines 98-106: the images of the root and of the folders below it that
    are not roots themselves. *)
Definition allImages (pathMap : gmap string Entry) (allPaths assetRoots : list string)
    (rootPath : string) (rootEntry : Entry) : list File :=
  entry_images rootEntry
  ++ flat_map (fun otherPath =>
                 if startsWith otherPath (rootPath ++ "/")
                    && negb (bool_decide (otherPath ∈ assetRoots))
                 then match pathMap !! otherPath with
                      | Some e => entry_images e
                      | None => []
                      end
                 else []) allPaths.

(** Line 111. *)
Definition nameOf (rootPath : string) : string :=
  let last := List.last (split "/" rootPath) EmptyString in
  if String.eqb last "" then "Untitled" else last.

(** Lines 92-122: [assetRoots.forEach], from the root [roots] on; [uuid k]
    is what the [k]-th call of [crypto.randomUUID] returns. *)
Fixpoint build (uuid : nat -> string) (pathMap : gmap string Entry)
    (allPaths assetRoots roots : list string) (k : nat) : list Item :=
  match roots with
  | [] => []
  | rootPath :: rest =>
      match pathMap !! rootPath with
      | Some rootEntry =>
          match entry_skeleton rootEntry, entry_atlas rootEntry with
          | Some skeleton, Some atlas =>
              {| item_id := uuid k; item_name := nameOf rootPath;
                 item_skeleton := skeleton; item_atlas := atlas;
                 item_images := allImages pathMap allPaths assetRoots rootPath rootEntry;
                 basePath := rootPath |}
              :: build uuid pathMap allPaths assetRoots rest (S k)
          | _, _ => build uuid pathMap allPaths assetRoots rest k
          end
      | None => build uuid pathMap allPaths assetRoots rest k
      end
  end.

(** [pathMap] is an object literal: for a path that names a property of
    [Object.prototype], [pathMap[path]] is that property and no entry. *)
Definition inherited : list string :=
  ["constructor"; "__proto__"; "hasOwnProperty"; "isPrototypeOf";
   "propertyIsEnumerable"; "toLocaleString"; "toString"; "valueOf";
   "__defineGetter__"; "__defineSetter__"; "__lookupGetter__"; "__lookupSetter__"].

(** No file that is read lies in a folder with such a path. *)
Definition plain (fileList : list File) : bool :=
  forallb (fun file => hidden file || negb (bool_decide (dirPath file ∈ inherited))) fileList.

(** [groupFilesByDirectory(fileList)], on the lists that are [plain]; on the
    others the entry of a file is an object of the host, and the result is
    [None] here.  The last line sorts the items by name with [localeCompare]
    in the locale [zh-CN]; the collation of the host is not part of the
    sources, and [collate] is that sort. *)
Definition groupFilesByDirectory (uuid : nat -> string) (collate : list Item -> list Item)
    (fileList : list File) : option (list Item) :=
  if plain fileList then
    let pathMap := fold_left addFile fileList ∅ in
    let allPaths := merge_sort String.le (map fst (map_to_list pathMap)) in
    let assetRoots := List.filter (isAssetRoot pathMap) allPaths in
    Some (collate (build uuid pathMap allPaths assetRoots assetRoots 0))
  else None.

End SpineLoader.

(** * Properties *)

Local Open Scope string_scope.
Local Open Scope list_scope.
Local Open Scope nat_scope.

(** ** Fixtures: two assets, an export configuration, a quiet host *)

Module Fixtures.

Definition anims (l : list (string * Q)) : list Animation :=
  map (fun p => {| anim_name := fst p; anim_duration := Num (snd p) |}) l.

(** Asset A: a hero with the animations idle (1 s) and walk (1.5 s). *)
Definition filesA : SpineFiles :=
  {| skeleton := Some "hero.json"; atlas := Some "hero.atlas";
     content := Some (anims [("idle", 1 # 1); ("walk", 3 # 2)]) |}.

(** Asset B: a bundle whose skeleton the runtime cannot parse, so that
    [load] throws. *)
Definition filesB : SpineFiles :=
  {| skeleton := Some "boss.json"; atlas := Some "boss.atlas"; content := None |}.

(** Asset C: three animations, one of them a still pose of duration 0. *)
Definition filesC : SpineFiles :=
  {| skeleton := Some "npc.skel"; atlas := Some "npc.atlas";
     content := Some (anims [("pose", 0 # 1); ("run", 1 # 2); ("jump", 1 # 4)]) |}.

Definition itemA : AnimationItem := {| id := "A"; name := "hero"; item_files := filesA |}.
Definition itemB : AnimationItem := {| id := "B"; name := "boss"; item_files := filesB |}.
Definition itemC : AnimationItem := {| id := "C"; name := "npc"; item_files := filesC |}.

Definition config (f : ExportFormat) : ExportConfig :=
  {| cfg_width := ofZ 720; cfg_height := ofZ 720; cfg_fps := ofZ 10; cfg_format := f;
     cfg_duration := None; cfg_backgroundColor := Some "#00FF00" |}.

(** A host where nothing is aborted and no backend throws. *)
Definition quiet (codecs : bool) : Host :=
  {| signalAt := fun _ => false; webCodecs := codecs; startThrows := false;
     captureThrows := fun _ => false; stopThrows := false |}.

(** A host where the signal of the job is set from poll [k] on. *)
Definition abortingAt (k : nat) : Host :=
  {| signalAt := fun j => (k <=? j)%nat; webCodecs := true; startThrows := false;
     captureThrows := fun _ => false; stopThrows := false |}.

Definition taskOf (f : ExportFormat) (signal : option nat) (it : AnimationItem) (a : string)
    : OffscreenRenderTask :=
  ExportProcessor.job_task (ExportProcessor.jobOf (config f) signal it a).

End Fixtures.

(** ** Vocabulary of the properties *)

(** *** Terms for the rounding *)

Section RoundingTerms.

(** The value of a finite float of the Standard Library's specification of
    IEEE 754. *)
Definition valueOf (x : spec_float) : option Q :=
match x with
| S754_zero _ => Some 0%Q
| S754_finite s m e => Some (Qred ((if s then -1 else 1) * inject_Z (Zpos m) * 2 ^ e))
| _ => None
end.

(** The binary64 float nearest to [n / d], for integers below [2^53]. *)
Definition binary64 (n d : Z) : spec_float :=
SFdiv 53 1024 (binary_normalize 53 1024 n 0 false) (binary_normalize 53 1024 d 0 false).

(** Doubles of every kind: frame rates, durations, fractions, negatives,
    large, small and subnormal ones. *)
Definition sampleDoubles : list spec_float :=
[binary64 1 10; binary64 11 10; binary64 30 1; binary64 1 3; binary64 (-7) 5;
 binary64 1 255; binary64 1000000 1; binary64 1 60; binary64 2997 100;
 SFdiv 53 1024 (binary64 1 3) (binary_normalize 53 1024 1 1020 false);
 binary_normalize 53 1024 3 (-1074) false;
 binary_normalize 53 1024 5 500 false].

(** [double] of the exact result is the result of the float operation,
    where that is finite. *)
Definition agrees (op : spec_float -> spec_float -> spec_float) (exact : Q -> Q -> Q)
  (x y : spec_float) : bool :=
match valueOf x, valueOf y, valueOf (op x y) with
| Some a, Some b, Some c => Qeq_bool (double (exact a b)) c
| _, _, None => true
| _, _, _ => false
end.

Definition agreesOnSamples (op : spec_float -> spec_float -> spec_float)
  (exact : Q -> Q -> Q) : bool :=
forallb (fun x => forallb (agrees op exact x) sampleDoubles) sampleDoubles.

End RoundingTerms.

(** *** Terms for the background colour *)

Section BackgroundColorTerms.

Import SpineRenderer.

(** [parseInt] finds no hexadecimal digit to read. *)
Definition noLeadingDigit (s : string) : bool :=
  match digitPrefix (stripPrefix (snd (stripSign (trimStart s)))) with
  | [] => true
  | _ :: _ => false
  end.

(** Positions 1 to 6 of [hex] hold three pairs of hexadecimal digits. *)
Definition hexPairs (hex : string) : bool :=
  let body := slice 1 7 hex in
  (String.length body =? 6)
  && forallb (fun c => bool_decide (is_Some (digit16 c))) (list_ascii_of_string body).

(** Some component of the colour is [NaN]. *)
Definition storesNaN (c : Color) : bool :=
  isNaN (red c) || isNaN (green c) || isNaN (blue c) || isNaN (alpha c).

(** Rendering [n] frames, whatever the deltas. *)
Definition renderFrames (deltas : list jsnum) (r : t) : t :=
  fold_left (fun r d => updateAndRender d r) deltas r.

End BackgroundColorTerms.

(** *** Terms for the render job *)

Section RenderJobTerms.

Import SpineRenderer OffscreenRenderer.

(** The renderer of a job when its frame loop begins: loaded, configured. *)
Definition ready (task : OffscreenRenderTask) : t :=
fst (configure task (fst (load (files task) create))).

(** One frame at the rate [fps]. *)
Definition advance (fps : jsnum) : t -> t := updateAndRender (frameDelta fps).

(** The two calls of iteration [i], on a loop that began with renderer [r0]. *)
Definition frameStep (b : Backend) (fps : jsnum) (r0 : t) (i : nat) : list Call :=
[UpdateAndRender (frameDelta fps); captureCall b fps i (Nat.iter (S i) (advance fps) r0)].

(** The calls that render a frame or reach a capture backend. *)
Definition isFrameCall (c : Call) : bool :=
match c with
| UpdateAndRender _ | Capture _ | EncodeFrame _ _ | Sleep _
| BackendStart _ | BackendStop _ => true
| _ => false
end.

(** The time of the pose that iteration [i] leaves on the canvas. *)
Definition simulatedTime (fps : jsnum) (r0 : t) (i : nat) : option jsnum :=
picture (Nat.iter (S i) (advance fps) r0) ≫= posedAt.

(** A call of [updateAndRender]. *)
Definition isRender (c : Call) : bool :=
match c with UpdateAndRender _ => true | _ => false end.

(** The calls that a capture backend receives. *)
Definition isBackendCall (c : Call) : bool :=
match c with
| BackendStart _ | Capture _ | EncodeFrame _ _ | BackendStop _ => true
| _ => false
end.

End RenderJobTerms.

(** *** Terms for the scheduler *)

Section SchedulerTerms.

Import ExportManager.

(** The manager with the queue [q]. *)
Definition withQueue (q : list Item) (m : t) : t :=
mk (maxConcurrent m) (activeRenderers m) q (running m)
   (nextRenderer m) (nextTicket m) (abortedSignals m).

(** The manager once [processQueue] has begun the job of [it]. *)
Definition started (it : Item) (rest : list Item) (m : t) : t :=
mk (maxConcurrent m) (setAdd (nextRenderer m) (activeRenderers m)) rest
   (running m ++ [(nextRenderer m, it)]) (S (nextRenderer m)) (nextTicket m)
   (abortedSignals m).

(** [item.reject(new Error('AbortError'))]. *)
Definition rejected (it : Item) : Event := EvReject (ticket it) AbortError.

(** The part of the invariant that every step keeps on its own. *)
Record Sound (m : t) : Prop := {
  sound_bound : length (activeRenderers m) <= maxConcurrent m;
  sound_nodup : NoDup (activeRenderers m);
  sound_fresh : forall x, x ∈ activeRenderers m -> x < nextRenderer m;
  sound_tickets : forall it, it ∈ queue m -> ticket it < nextTicket m
}.

(** The invariant: the active set is a set of at most [maxConcurrent]
    renderers, and no item waits while a slot is free. *)
Record Inv (m : t) : Prop := {
  inv_sound : Sound m;
  inv_busy : queue m ≠ [] -> maxConcurrent m <= length (activeRenderers m)
}.

(** A task whose signal, if it has one, is not aborted. *)
Definition live (set : list nat) (tk : OffscreenRenderTask) : Prop :=
match abortSignal tk with
| Some sg => sg ∉ set
| None => True
end.

(** The items of the tasks [ts], ticketed in submission order from 0. *)
Definition itemsOf (ts : list OffscreenRenderTask) : list Item :=
imap (fun k tk => {| task := tk; ticket := k |}) ts.

(** The manager after the live tasks [ts] were submitted to a new manager,
    nothing else having happened: the first two run on the renderers 0 and 1,
    the others wait in submission order. *)
Definition filled (set : list nat) (ts : list OffscreenRenderTask) : t :=
mk 2 (seq 0 (min (length ts) 2)) (drop 2 (itemsOf ts))
   (imap (fun k it => (k, it)) (take 2 (itemsOf ts)))
   (min (length ts) 2) (length ts) set.

(** The events of the [k]-th submission to a manager that is being filled. *)
Definition submission (k : nat) : list Event :=
EvQueued k :: (if k <? 2 then [EvCreate k k] else []).

(** The construction of a renderer. *)
Definition isCreate (ev : Event) : bool :=
match ev with EvCreate _ _ => true | _ => false end.

(** How the promise [tk] is settled with the result of [renderToVideo]. *)
Definition outcomeEvent (tk : nat) (res : Error + Blob) : Event :=
match res with
| inr blob => EvResolve tk blob
| inl e => EvReject tk e
end.

(** The manager once the renderer [r] has left the active set. *)
Definition released (r : nat) (m : t) : t :=
mk (maxConcurrent m) (setDelete r (activeRenderers m)) (queue m)
   (filter (fun p => fst p ≠ r) (running m))
   (nextRenderer m) (nextTicket m) (abortedSignals m).

(** The [stop] of a capture backend. *)
Definition isBackendStop (c : Call) : bool :=
match c with BackendStop _ => true | _ => false end.

(** The end of a job in the manager: its promise settles, its renderer is
    disposed. *)
Definition isSettlement (ev : Event) : bool :=
match ev with
| EvResolve _ _ | EvReject _ _ | EvDispose _ => true
| _ => false
end.

(** The settlements [ss], one after the other, each of a renderer that is
    active when its turn comes. *)
Fixpoint settling (m : t) (ss : list (nat * Host)) : Prop :=
match ss with
| [] => True
| s :: rest => fst s ∈ activeRenderers m /\ settling (fst (settle (fst s) (snd s) m)) rest
end.

Definition settlements (ss : list (nat * Host)) : list Command :=
map (fun s => Settle (fst s) (snd s)) ss.

(** The manager that was filled with the live tasks [ts] after [s]
    settlements, nothing else having happened: [s] more tasks have begun, as
    far as there were any, on renderers numbered like their tickets. *)
Record Serving (set : list nat) (ts : list OffscreenRenderTask) (s : nat) (m : t) : Prop := {
  serving_cap : maxConcurrent m = 2;
  serving_set : abortedSignals m = set;
  serving_next : nextRenderer m = 2 + min s (length ts - 2);
  serving_queue : queue m = drop (2 + min s (length ts - 2)) (itemsOf ts);
  serving_active : length (activeRenderers m) = min 2 (length ts - s);
  serving_nodup : NoDup (activeRenderers m);
  serving_fresh : forall r, r ∈ activeRenderers m -> r < nextRenderer m;
  serving_running : map fst (running m) = activeRenderers m
}.

End SchedulerTerms.

(** *** Terms for the batch export *)

Section BatchExportTerms.

Import ExportManager ExportProcessor.

(** The temporary renderer of the scan, on a canvas of the default size. *)
Definition tempRenderer : SpineRenderer.t := SpineRenderer.create (ofZ 300) (ofZ 150).

(** An [exporting] status. *)
Definition isExporting (ev : Event) : bool :=
match ev with EvStatus _ exporting => true | _ => false end.

(** A status of the item [i]. *)
Definition statusOf (i : string) (ev : Event) : bool :=
match ev with EvStatus j _ => String.eqb i j | _ => false end.

(** The name of the entry that an event adds to the archive. *)
Definition zipped (ev : Event) : list string :=
match ev with EvZipFile f _ => [f] | _ => [] end.

(** What the callbacks of [tasks.map] report and cause for [jobs], the first
    of which gets ticket [k], when the manager is only being filled. *)
Fixpoint submissionLog (completedJobs totalTasks k : nat) (jobs : list Job) : list Event :=
match jobs with
| [] => []
| j :: rest =>
    [EvProgress (completedJobs + 1) totalTasks (taskName j);
     EvStatus (id (item j)) exporting]
    ++ submission k ++ submissionLog completedJobs totalTasks (S k) rest
end.

(** The callbacks that wait for the promises [k], [k+1], ... *)
Fixpoint ticketed (k : nat) (jobs : list Job) : list (nat * Job) :=
match jobs with
| [] => []
| j :: rest => (k, j) :: ticketed (S k) rest
end.

(** The signal of the run, if there is one, is not among the aborted. *)
Definition clear (signal : option nat) (set : list nat) : Prop :=
match signal with
| Some sg => sg ∉ set
| None => True
end.

(** An event other than an [exporting] status. *)
Definition quietEvent (ev : Event) : Prop :=
isExporting ev = false.

End BatchExportTerms.

(** *** Terms for the frames of a job *)

Section FrameTerms.

Import SpineRenderer OffscreenRenderer.

(** The colour that the frames of a job are cleared with: the one decoded
    from [backgroundColor], or the green that a new renderer has. *)
Definition jobColor (task : OffscreenRenderTask) : Color :=
match backgroundColor task with
| Some hex => if String.eqb hex "" then bgColor create
              else bgColor (setBackgroundColor hex create)
| None => bgColor create
end.

(** The picture that a call hands to a capture backend. *)
Definition frameOf (c : Call) : option (option Picture) :=
match c with
| Capture p | EncodeFrame p _ => Some p
| _ => None
end.

(** The value of a pair of hexadecimal digits, over 255. *)
Definition channel (hi lo : Z) : jsnum := div (ofZ (16 * hi + lo)) (ofZ 255).

(** A string of seven code units, and one of nine. *)
Definition hex7 (c0 c1 c2 c3 c4 c5 c6 : ascii) : string :=
String c0 (String c1 (String c2 (String c3 (String c4 (String c5 (String c6 "")))))).

Definition hex9 (c0 c1 c2 c3 c4 c5 c6 c7 c8 : ascii) : string :=
String c0 (String c1 (String c2 (String c3 (String c4 (String c5 (String c6
  (String c7 (String c8 "")))))))).

(** A component of a colour lies between 0 and 1. *)
Definition unitRange (x : jsnum) : Prop :=
match x with
| Num q => (0 <= q <= 1)%Q
| NaN => False
end.

End FrameTerms.

(** *** Terms for the ledger of the scheduler *)

Section LedgerTerms.

Import ExportManager.

(** The tickets of the jobs begun in a log, in the order they began. *)
Definition createdTickets (evs : list Event) : list nat :=
flat_map (fun ev => match ev with EvCreate k _ => [k] | _ => [] end) evs.

(** The renderers constructed in a log, in order. *)
Definition createdRenderers (evs : list Event) : list nat :=
flat_map (fun ev => match ev with EvCreate _ r => [r] | _ => [] end) evs.

(** The tickets of the promises settled in a log. *)
Definition settledTickets (evs : list Event) : list nat :=
flat_map (fun ev => match ev with
                    | EvResolve k _ | EvReject k _ => [k]
                    | _ => []
                    end) evs.

(** The tickets that wait in the queue, and those of the jobs in flight. *)
Definition queuedTickets (m : t) : list nat := map ticket (queue m).
Definition runningTickets (m : t) : list nat := map (fun p => ticket (snd p)) (running m).

Definition isSubmit (c : Command) : bool :=
match c with Submit _ => true | _ => false end.

Definition isCancelAll (c : Command) : bool :=
match c with CancelAll => true | _ => false end.

(** The queue is in ticket order, above the tickets already begun. *)
Record Ordered (b : nat) (m : t) : Prop := {
  ord_sorted : StronglySorted Nat.lt (queuedTickets m);
  ord_range : forall k, k ∈ queuedTickets m -> b <= k < nextTicket m;
  ord_next : b <= nextTicket m
}.

(** Every ticket handed out is settled, queued or in flight, once. *)
Record Ledger (settled : list nat) (m : t) : Prop := {
  ledger_perm : settled ++ queuedTickets m ++ runningTickets m ≡ₚ seq 0 (nextTicket m);
  ledger_nodup : NoDup (map fst (running m));
  ledger_fresh : forall r, r ∈ map fst (running m) -> r < nextRenderer m
}.

(** The jobs in flight are those of the active renderers. *)
Record Tracked (m : t) : Prop := {
  tracked_active : map fst (running m) = activeRenderers m;
  tracked_fresh : forall r, r ∈ activeRenderers m -> r < nextRenderer m
}.

(** [n] rounds of a submission followed by [cancelAll]. *)
Definition orphaning (tk : OffscreenRenderTask) (n : nat) : list Command :=
concat (replicate n [Submit tk; CancelAll]).

End LedgerTerms.

(** *** Terms for the outcome of a batch export *)

Section OutcomeTerms.

Import ExportManager ExportProcessor.

(** The statuses reported for the item [i], in order. *)
Definition statuses (i : string) (evs : list Event) : list Status :=
flat_map (fun ev => match ev with
                    | EvStatus j s => if String.eqb i j then [s] else []
                    | _ => []
                    end) evs.

(** The names under which blobs were put into the archive, in order. *)
Definition zipNames (evs : list Event) : list string := flat_map zipped evs.

(** The sizes of the archives handed to the browser. *)
Definition downloads (evs : list Event) : list nat :=
flat_map (fun ev => match ev with EvDownload n => [n] | _ => [] end) evs.

(** An event of the scheduler. *)
Definition fromManager (ev : Event) : bool :=
match ev with
| EvQueued _ | EvCreate _ _ | EvCall _ _ | EvResolve _ _ | EvReject _ _ | EvDispose _ => true
| _ => false
end.

Definition isUserAbort (a : Action) : bool :=
match a with UserAborts => true | JobSettles _ _ => false end.

(** The signal of the run is never set: there is none, or nobody aborts it. *)
Definition neverAborted (signal scanAbort : option nat) (acts : list Action) : Prop :=
signal = None \/ (scanAbort = None /\ forallb (fun a => negb (isUserAbort a)) acts = true).

(** The bundle has both files and the runtime can decode it. *)
Definition loadable (fs : SpineFiles) : bool :=
match skeleton fs, atlas fs, content fs with
| Some _, Some _, Some _ => true
| _, _, _ => false
end.

(** The counter and the archive agree with the names zipped so far. *)
Record Archived (names : list string) (st : t) : Prop := {
  archived_count : completedJobs st = length names;
  archived_names : dom (zip st) = list_to_set (C := gset string) names
}.

End OutcomeTerms.

(** *** Terms for the framing *)

Section FramingTerms.

Import Framing.

(** The samples of a scan of [animations], in order: the animation and the
    time of each. *)
Definition samplesTaken (animations : list Animation) : list (Animation * jsnum) :=
flat_map (fun a => map (fun i => (a, timeOf (samplesOf (anim_duration a)) (anim_duration a) i))
                       (seq 0 (S (samplesOf (anim_duration a))))) animations.

(** The boxes that a scan from measurement [k] on is given for the samples. *)
Fixpoint measuredFrom (getBounds : Runtime) (k : nat) (samples : list (Animation * jsnum))
    : list Box :=
match samples with
| [] => []
| (a, time) :: rest => getBounds k a time :: measuredFrom getBounds (S k) rest
end.

(** The boxes measured by [computeGlobalBounds]. *)
Definition measured (getBounds : Runtime) (animations : list Animation) : list Box :=
measuredFrom getBounds 0 (samplesTaken animations).

(** The box [inner] lies in the box [outer]. *)
Definition inside (outer inner : Box) : Prop :=
(offset_x outer <= offset_x inner)%Q
/\ (offset_x inner + size_x inner <= offset_x outer + size_x outer)%Q
/\ (offset_y outer <= offset_y inner)%Q
/\ (offset_y inner + size_y inner <= offset_y outer + size_y outer)%Q.

(** The extremes bound the box. *)
Definition bounding (e : Extremes) (b : Box) : Prop :=
(exists x0, minX e = Some x0 /\ (x0 <= offset_x b)%Q)
/\ (exists y0, minY e = Some y0 /\ (y0 <= offset_y b)%Q)
/\ (exists x1, maxX e = Some x1 /\ (offset_x b + size_x b <= x1)%Q)
/\ (exists y1, maxY e = Some y1 /\ (offset_y b + size_y b <= y1)%Q).

(** [x] is the least, or the greatest, of the values [f b] over the boxes:
    it bounds each and is that of one. *)
Definition lowest (f : Box -> Q) (boxes : list Box) (x : Q) : Prop :=
(forall b, b ∈ boxes -> (x <= f b)%Q) /\ exists b, b ∈ boxes /\ (x == f b)%Q.

Definition highest (f : Box -> Q) (boxes : list Box) (x : Q) : Prop :=
(forall b, b ∈ boxes -> (f b <= x)%Q) /\ exists b, b ∈ boxes /\ (x == f b)%Q.

(** The far edges of a box. *)
Definition edge_x (b : Box) : Q := offset_x b + size_x b.
Definition edge_y (b : Box) : Q := offset_y b + size_y b.

(** The extremes of a scan that has measured the boxes [seen]. *)
Definition lowestSoFar (f : Box -> Q) (seen : list Box) (acc : option Q) : Prop :=
match acc with Some x => lowest f seen x | None => seen = [] end.

Definition highestSoFar (f : Box -> Q) (seen : list Box) (acc : option Q) : Prop :=
match acc with Some x => highest f seen x | None => seen = [] end.

Definition scanned (seen : list Box) (e : Extremes) : Prop :=
lowestSoFar offset_x seen (minX e) /\ lowestSoFar offset_y seen (minY e)
/\ highestSoFar edge_x seen (maxX e) /\ highestSoFar edge_y seen (maxY e).

End FramingTerms.

(** *** Terms for playback and the preview loop *)

Section PreviewTerms.

Import PreviewLoop.




End PreviewTerms.

(** *** Terms for the object URLs *)

Section UrlTerms.

Import AssetUrls.

(** The file names of a bundle, in the order in which [createAssetUrls]
    takes them. *)
Definition fileNames (files : SpineFiles) (images : list string) : list string :=
option_list (skeleton files) ++ option_list (atlas files) ++ images.

(** The URLs of the store are numbered below [next]. *)
Definition numbered (s : Store) : Prop := forall u, u ∈ live s -> u < next s.

(** A map of URLs in which no URL stands for two names, all of them live. *)
Record Mapped (urls : gmap string nat) (s : Store) : Prop := {
  mapped_inj : forall i j u, urls !! i = Some u -> urls !! j = Some u -> i = j;
  mapped_live : forall i u, urls !! i = Some u -> u ∈ live s
}.

(** The URLs that are live and that the map does not hold. *)
Definition unheld (urls : gmap string nat) (s : Store) : gset nat :=
live s ∖ map_img urls.

End UrlTerms.

(** *** Terms for the selection *)

Section AppTerms.

Import App.

Definition ids (st : t) : list string := map idOf (items st).

(** What the panel offers in a state: the items of the list to select and
    to delete, and imports whose items have new identifiers, all different
    (they are drawn by [crypto.randomUUID]). *)
Definition offered (st : t) (a : Action) : Prop :=
match a with
| Upload newItems =>
    NoDup (map id newItems) /\ forall i, i ∈ map id newItems -> i ∉ ids st
| Select i _ => i ∈ ids st
| SelectAll => True
| Delete _ => True
end.

(** Every action of a sequence is offered when it is done. *)
Fixpoint offeredAll (st : t) (actions : list Action) : Prop :=
match actions with
| [] => True
| a :: rest => offered st a /\ offeredAll (step st a) rest
end.

(** The items have different identifiers and only items are selected. *)
Record Tidy (st : t) : Prop := {
  tidy_ids : NoDup (ids st);
  tidy_selection : forall i, i ∈ selectedIds st -> i ∈ ids st;
  tidy_active : forall i, activeItemId st = Some i -> i ∈ ids st
}.

End AppTerms.

(** *** Terms for the import *)

Section LoaderTerms.

Import Text SpineLoader.

(** The extensions that [getFileType] knows, with their types. *)
Definition extensions : list (string * FileType) :=
[(".json", type_json); (".skel", type_skel); (".spine", type_spine); (".atlas", type_atlas);
 (".png", type_image); (".jpg", type_image); (".jpeg", type_image); (".webp", type_image)].

(** The type of a file. *)
Definition typeOf (file : File) : FileType := getFileType (file_name file).

(** The rank of a type among the skeletons: [.skel] before [.json] before
    [.spine]; 0 for the types that are no skeleton. *)
Definition rank (ty : FileType) : nat :=
match ty with
| type_skel => 3
| type_json => 2
| type_spine => 1
| _ => 0
end.

Definition isSkeleton (file : File) : bool := 0 <? rank (typeOf file).

Definition isAtlas (file : File) : bool :=
match typeOf file with type_atlas => true | _ => false end.

Definition isImage (file : File) : bool :=
match typeOf file with type_image => true | _ => false end.

(** The files of the list that are not hidden and lie in the folder [d],
    in the order of the list. *)
Definition filesIn (d : string) (fileList : list File) : list File :=
List.filter (fun f => negb (hidden f) && String.eqb (dirPath f) d) fileList.

(** The folder [d] holds a skeleton and an atlas that are read. *)
Definition holdsAsset (d : string) (fileList : list File) : bool :=
existsb isSkeleton (filesIn d fileList) && existsb isAtlas (filesIn d fileList).

(** [sk] is the first of the files [seen] with the highest rank. *)
Definition FirstOfTheBest (sk : File) (seen : list File) : Prop :=
exists before after, seen = before ++ sk :: after
  /\ (forall f, f ∈ before -> rank (typeOf f) < rank (typeOf sk))
  /\ (forall f, f ∈ after -> rank (typeOf f) <= rank (typeOf sk)).

(** The entry of a folder after the files [seen]. *)
Record Summary (seen : list File) (e : Entry) : Prop := {
  sum_none : entry_skeleton e = None <-> existsb isSkeleton seen = false;
  sum_skeleton : forall sk, entry_skeleton e = Some sk ->
                   skeletonType e = Some (typeOf sk) /\ isSkeleton sk = true
                   /\ FirstOfTheBest sk seen;
  sum_no_atlas : entry_atlas e = None <-> existsb isAtlas seen = false;
  sum_atlas : forall a, entry_atlas e = Some a -> a ∈ seen /\ isAtlas a = true;
  sum_images : entry_images e = List.filter isImage seen
}.

(** What the entry of a folder is after the files [l], from [o] on. *)
Definition entryOf (o : option Entry) (l : list File) : option Entry :=
match l with
| [] => o
| _ => Some (fold_left classify l (default newEntry o))
end.

(** What [build] makes of a root. *)
Definition Made (pathMap : gmap string Entry) (allPaths assetRoots : list string)
  (it : Item) : Prop :=
exists e, pathMap !! basePath it = Some e
  /\ entry_skeleton e = Some (item_skeleton it) /\ entry_atlas e = Some (item_atlas it)
  /\ item_images it = allImages pathMap allPaths assetRoots (basePath it) e
  /\ item_name it = nameOf (basePath it).

(** A folder as a browser lists it: a hero with a project file, a JSON
    skeleton, an atlas and a page, a folder of parts below it, a pet with its
    own skeleton and atlas below the hero, and the files that a file manager
    leaves behind. *)
Definition fileAt (path name : string) : File :=
{| file_name := name; webkitRelativePath := path ++ "/" ++ name |}.

Definition sampleFolder : list File :=
[fileAt "Pack/Hero" "hero.spine"; fileAt "Pack/Hero" "hero.json";
 fileAt "Pack/Hero" "hero.atlas"; fileAt "Pack/Hero" "hero.png";
 fileAt "Pack/Hero" ".DS_Store"; fileAt "Pack/Hero/parts" "arm.PNG";
 fileAt "Pack/Hero/Pet" "pet.skel"; fileAt "Pack/Hero/Pet" "pet.atlas";
 fileAt "Pack/Hero/Pet" "pet.png"; fileAt "Pack/Hero/Pet/skins" "red.webp";
 fileAt "Pack/.cache" "old.png"; fileAt "Pack/notes" "readme.txt"].

Definition sampleUuid (k : nat) : string := "uuid-" ++ String (ascii_of_nat (48 + k)) "".

Definition heroItem : Item :=
{| item_id := "uuid-0"; item_name := "Hero";
   item_skeleton := fileAt "Pack/Hero" "hero.json";
   item_atlas := fileAt "Pack/Hero" "hero.atlas";
   item_images := [fileAt "Pack/Hero" "hero.png"; fileAt "Pack/Hero/Pet/skins" "red.webp";
                   fileAt "Pack/Hero/parts" "arm.PNG"];
   basePath := "Pack/Hero" |}.

Definition petItem : Item :=
{| item_id := "uuid-1"; item_name := "Pet";
   item_skeleton := fileAt "Pack/Hero/Pet" "pet.skel";
   item_atlas := fileAt "Pack/Hero/Pet" "pet.atlas";
   item_images := [fileAt "Pack/Hero/Pet" "pet.png"; fileAt "Pack/Hero/Pet/skins" "red.webp"];
   basePath := "Pack/Hero/Pet" |}.

End LoaderTerms.

(** ** Rounding *)

Section Rounding.

Lemma nearestEven_floor (q : Q) :
(Qfloor q <= nearestEven q <= Qfloor q + 1)%Z.
Proof.
unfold nearestEven. destruct (Qcompare _ _); [destruct (Z.even _)| |]; lia.
Qed.


Lemma nearestEven_above (z : Z) (q : Q) : (inject_Z z <= q)%Q -> (z <= nearestEven q)%Z.
Proof.
intros H. apply Qfloor_resp_le in H. rewrite Qfloor_Z in H.
pose proof (nearestEven_floor q). lia.
Qed.

Lemma nearestEven_below (z : Z) (q : Q) : (q <= inject_Z z)%Q -> (nearestEven q <= z)%Z.
Proof.
intros H. pose proof (nearestEven_floor q) as [_ Hup]. pose proof (Qfloor_le q) as Hq.
destruct (Z_le_gt_dec (Qfloor q + 1) z) as [Hle|Hgt]; [lia|].
assert (Hfl : (z <= Qfloor q)%Z) by lia.
assert (Hfl' : (inject_Z z <= inject_Z (Qfloor q))%Q) by now rewrite <- Zle_Qle.
assert (Hlt : (q - inject_Z (Qfloor q) < 1 # 2)%Q) by lra.
unfold nearestEven.
destruct (Qcompare_spec (q - inject_Z (Qfloor q)) (1 # 2)) as [E|E|E]; [lra| |lra].
rewrite Zle_Qle. lra.
Qed.

Lemma pow2_pos (e : Z) : (0 < 2 ^ e)%Q.
Proof. now apply Qpower_0_lt. Qed.

Lemma pow2_succ (e : Z) : (2 ^ (e + 1) == 2 * 2 ^ e)%Q.
Proof. rewrite Qpower_plus by discriminate. change (2 ^ 1)%Q with 2%Q. ring. Qed.

Lemma pow2_le (a b : Z) : (a <= b)%Z -> (2 ^ a <= 2 ^ b)%Q.
Proof. intros H. apply Qpower_le_compat_l; [exact H|discriminate]. Qed.

Lemma pow2_inject (n : Z) : (0 <= n)%Z -> (inject_Z (2 ^ n) == 2 ^ n)%Q.
Proof. intros H. now rewrite Zpower_Qpower. Qed.

Lemma exponent_spec (q : Q) :
(0 < q)%Q -> (2 ^ exponent q <= q)%Q /\ (q < 2 ^ (exponent q + 1))%Q.
Proof.
intros Hq. destruct q as [n d]. unfold exponent. cbn [Qnum Qden].
assert (Hn : (0 < n)%Z) by (unfold Qlt in Hq; cbn in Hq; lia).
set (a := Z.log2 n). set (b := Z.log2 (Z.pos d)).
destruct (Z.log2_spec n Hn) as [Ha1 Ha2]. fold a in Ha1, Ha2.
destruct (Z.log2_spec (Z.pos d) ltac:(lia)) as [Hb1 Hb2]. fold b in Hb1, Hb2.
assert (Ha0 : (0 <= a)%Z) by apply Z.log2_nonneg.
assert (Hb0 : (0 <= b)%Z) by apply Z.log2_nonneg.
assert (Hnd : (n # d == inject_Z n / inject_Z (Z.pos d))%Q) by apply Qmake_Qdiv.
assert (Hdpos : (0 < inject_Z (Z.pos d))%Q) by reflexivity.
assert (Qa1 : (2 ^ a <= inject_Z n)%Q) by (rewrite <- (pow2_inject a Ha0), <- Zle_Qle; assumption).
assert (Qa2 : (inject_Z n < 2 ^ (a + 1))%Q).
{ rewrite <- (pow2_inject (a + 1)), <- Zlt_Qlt by lia. now rewrite <- Z.add_1_r in Ha2. }
assert (Qb1 : (2 ^ b <= inject_Z (Z.pos d))%Q) by (rewrite <- (pow2_inject b Hb0), <- Zle_Qle; assumption).
assert (Qb2 : (inject_Z (Z.pos d) < 2 ^ (b + 1))%Q).
{ rewrite <- (pow2_inject (b + 1)), <- Zlt_Qlt by lia. now rewrite <- Z.add_1_r in Hb2. }
pose proof (pow2_pos b) as Pb. pose proof (pow2_pos (a - b)) as Pab.
assert (Hab : (2 ^ a == 2 ^ (a - b) * 2 ^ b)%Q).
{ rewrite <- Qpower_plus by discriminate. now replace (a - b + b)%Z with a by lia. }
(* 2^(a-b-1) < n/d < 2^(a-b+1) *)
assert (Hup : (n # d < 2 ^ (a - b + 1))%Q).
{ rewrite Hnd. apply Qlt_shift_div_r; [exact Hdpos|].
  rewrite pow2_succ. rewrite pow2_succ, Hab in Qa2.
  assert (2 ^ (a - b) * 2 ^ b <= 2 ^ (a - b) * inject_Z (Z.pos d))%Q.
  { apply Qmult_le_l; assumption. }
  lra. }
assert (Hlo : (2 ^ (a - b - 1) < n # d)%Q).
{ rewrite Hnd. apply Qlt_shift_div_l; [exact Hdpos|].
  assert (E : (2 ^ (a - b) == 2 * 2 ^ (a - b - 1))%Q).
  { rewrite <- pow2_succ. now replace (a - b - 1 + 1)%Z with (a - b)%Z by lia. }
  pose proof (pow2_pos (a - b - 1)) as P1.
  rewrite pow2_succ in Qb2.
  assert (2 ^ (a - b - 1) * inject_Z (Z.pos d) < 2 ^ (a - b - 1) * (2 * 2 ^ b))%Q.
  { apply Qmult_lt_l; assumption. }
  rewrite E in Hab. lra. }
destruct (Qle_bool (2 ^ (a - b)) (n # d)) eqn:E.
- apply Qle_bool_iff in E. split; assumption.
- split; [now apply Qlt_le_weak|].
  replace (a - b - 1 + 1)%Z with (a - b)%Z by lia.
  apply Qnot_le_lt. intros H. apply Qle_bool_iff in H. congruence.
Qed.

Lemma Qabs_nonneg_eq (q : Q) : (0 <= q)%Q -> Qabs q = q.
Proof.
destruct q as [n d]. unfold Qle, Qabs. cbn. intros H. f_equal. apply Z.abs_eq. lia.
Qed.

Lemma double_zero (q : Q) : (q == 0)%Q -> double q = 0%Q.
Proof. intros H. unfold double. apply Qeq_bool_iff in H. now rewrite H. Qed.

Lemma double_value (q : Q) :
~ (q == 0)%Q ->
(double q == inject_Z (nearestEven (q / 2 ^ quantum q)) * 2 ^ quantum q)%Q.
Proof.
intros H. unfold double. destruct (Qeq_bool q 0) eqn:E.
- now apply Qeq_bool_iff in E.
- apply Qred_correct.
Qed.


Lemma double_nonneg (q : Q) : (0 <= q)%Q -> (0 <= double q)%Q.
Proof.
intros Hq. destruct (Qeq_dec q 0) as [E|E]; [rewrite (double_zero q E); lra|].
rewrite (double_value q E). pose proof (pow2_pos (quantum q)) as P.
apply Qmult_le_0_compat; [|lra].
change 0%Q with (inject_Z 0). rewrite <- Zle_Qle. apply nearestEven_above.
change (inject_Z 0) with 0%Q. apply Qle_shift_div_l; lra.
Qed.

Lemma quantum_le (q : Q) : (0 < q)%Q -> (2 ^ (-1074) <= q)%Q -> (2 ^ quantum q <= q)%Q.
Proof.
intros Hq Hmin. unfold quantum. rewrite Qabs_nonneg_eq by lra.
destruct (exponent_spec q Hq) as [Hlo _].
destruct (Z.max_spec (exponent q - 52) (-1074)) as [[_ ->]|[_ ->]]; [exact Hmin|].
eapply Qle_trans; [|exact Hlo]. apply pow2_le. lia.
Qed.

Lemma double_pos (q : Q) : (2 ^ (-1074) <= q)%Q -> (0 < double q)%Q.
Proof.
intros Hmin. pose proof (pow2_pos (-1074)) as P0.
assert (Hq : (0 < q)%Q) by lra.
assert (E : ~ (q == 0)%Q) by lra.
rewrite (double_value q E). pose proof (pow2_pos (quantum q)) as P.
assert (H1 : (1 <= nearestEven (q / 2 ^ quantum q))%Z).
{ apply nearestEven_above. change (inject_Z 1) with 1%Q.
  apply Qle_shift_div_l; [exact P|]. pose proof (quantum_le q Hq Hmin). lra. }
rewrite Zle_Qle in H1. change (inject_Z 1) with 1%Q in H1.
assert (1 * 2 ^ quantum q <= inject_Z (nearestEven (q / 2 ^ quantum q)) * 2 ^ quantum q)%Q.
{ apply Qmult_le_compat_r; lra. }
lra.
Qed.


Lemma double_le_integer (q : Q) (z : Z) :
(0 < z)%Z -> (q <= inject_Z z)%Q -> (z < 2 ^ 53)%Z -> (double q <= inject_Z z)%Q.
Proof.
intros Hz Hq Hbig.
destruct (Qeq_dec q 0) as [E|E].
{ rewrite (double_zero q E). change 0%Q with (inject_Z 0). rewrite <- Zle_Qle. lia. }
destruct (Qlt_le_dec q 0) as [Hneg|Hpos].
{ (* negative: the double is at most 0 *)
  rewrite (double_value q E). pose proof (pow2_pos (quantum q)) as P.
  assert (H0 : (nearestEven (q / 2 ^ quantum q) <= 0)%Z).
  { apply nearestEven_below. change (inject_Z 0) with 0%Q.
    apply Qle_shift_div_r; [exact P|]. lra. }
  rewrite Zle_Qle in H0. change (inject_Z 0) with 0%Q in H0.
  assert (inject_Z (nearestEven (q / 2 ^ quantum q)) * 2 ^ quantum q <= 0 * 2 ^ quantum q)%Q.
  { apply Qmult_le_compat_r; lra. }
  assert (0 < inject_Z z)%Q by (change 0%Q with (inject_Z 0); rewrite <- Zlt_Qlt; lia).
  lra. }
assert (Hq0 : (0 < q)%Q).
{ destruct (Qlt_le_dec 0 q) as [H|H]; [exact H|]. exfalso. apply E. lra. }
rewrite (double_value q E). pose proof (pow2_pos (quantum q)) as P.
destruct (exponent_spec q Hq0) as [Hlo Hhi].
(* the quantum is a power of two with non-positive exponent, or z is a multiple of it *)
destruct (Z_le_gt_dec (quantum q) 0) as [Hneg|Hposq].
- (* 2^(-quantum) is an integer: z * 2^(-quantum) is an integer bound *)
  assert (Hk : (quantum q = - (- quantum q))%Z) by lia.
  set (k := (- quantum q)%Z) in *. assert (Hk0 : (0 <= k)%Z) by lia.
  assert (Hpow : (2 ^ quantum q == / inject_Z (2 ^ k))%Q).
  { rewrite Hk, Qpower_opp, pow2_inject by lia. reflexivity. }
  assert (Pk : (0 < inject_Z (2 ^ k))%Q).
  { rewrite pow2_inject by lia. apply pow2_pos. }
  assert (Hm : (nearestEven (q / 2 ^ quantum q) <= z * 2 ^ k)%Z).
  { apply nearestEven_below. rewrite inject_Z_mult.
    assert (Ediv : (q / 2 ^ quantum q == q * inject_Z (2 ^ k))%Q).
    { rewrite Hpow. field. lra. }
    rewrite Ediv. apply Qmult_le_compat_r; lra. }
  rewrite Zle_Qle, inject_Z_mult in Hm.
  apply (Qmult_le_compat_r _ _ (2 ^ quantum q)) in Hm; [|lra].
  assert (Eone : (inject_Z z * inject_Z (2 ^ k) * 2 ^ quantum q == inject_Z z)%Q).
  { rewrite Hpow. field. lra. }
  lra.
- (* a quantum above 1 belongs to a number of at least 2^53 *)
  exfalso. unfold quantum in Hposq. rewrite Qabs_nonneg_eq in Hposq by lra.
  assert (HE : (53 <= exponent q)%Z) by lia.
  assert (H53 : (2 ^ 53 <= 2 ^ exponent q)%Q) by (apply pow2_le; lia).
  assert (Hz53 : (inject_Z z < 2 ^ 53)%Q).
  { rewrite <- (pow2_inject 53) by lia. now rewrite <- Zlt_Qlt. }
  lra.
Qed.

End Rounding.

(** On the sample doubles [double] rounds products and quotients as the
    binary64 operations of the Standard Library do. *)
Lemma double_agrees_with_binary64 :
agreesOnSamples (SFmul 53 1024) Qmult = true /\ agreesOnSamples (SFdiv 53 1024) Qdiv = true.
Proof. split; vm_compute; reflexivity. Qed.

(** The doubles of 1.1 and 30 have the product 33: the rounding takes the
    exact product, which lies above 33, down to it. *)
Lemma mul_rounds_the_product :
mul (div (ofZ 11) (ofZ 10)) (ofZ 30) = ofZ 33.
Proof. vm_compute. reflexivity. Qed.

(** ** The background colour *)

Section BackgroundColor.

Import SpineRenderer.

Lemma isNaN_parseInt16 (s : string) : isNaN (parseInt16 s) = noLeadingDigit s.
Proof.
  unfold parseInt16, noLeadingDigit.
  destruct (stripSign (trimStart s)) as [sign s1]; simpl.
  now destruct (digitPrefix (stripPrefix s1)).
Qed.

Lemma isNaN_div_255 (x : jsnum) : isNaN (div x (ofZ 255)) = isNaN x.
Proof. now destruct x. Qed.

Lemma bgColor_updateAndRender (d : jsnum) (r : t) :
  bgColor (updateAndRender d r) = bgColor r.
Proof. unfold updateAndRender. now destruct (data r), (bounds r). Qed.

Lemma cleared_updateAndRender (d : jsnum) (r : t) :
  cleared <$> picture (updateAndRender d r) = Some (bgColor r).
Proof. unfold updateAndRender. now destruct (data r), (bounds r). Qed.

Lemma bgColor_renderFrames (deltas : list jsnum) (r : t) :
  bgColor (renderFrames deltas r) = bgColor r.
Proof.
  revert r; induction deltas as [|d ds IH]; intros r; simpl; [done|].
  unfold renderFrames in IH. now rewrite IH, bgColor_updateAndRender.
Qed.

Lemma cleared_renderFrames (deltas : list jsnum) (r : t) :
  deltas ≠ [] -> cleared <$> picture (renderFrames deltas r) = Some (bgColor r).
Proof.
  destruct deltas as [|d ds] using rev_ind; [done|intros _].
  unfold renderFrames. rewrite fold_left_app; simpl.
  rewrite cleared_updateAndRender.
  f_equal. apply bgColor_renderFrames.
Qed.

Lemma slice_short (a b : nat) (s : string) :
  (String.length s <= a)%nat -> slice a b s = "".
Proof.
  unfold slice. generalize (b - a) as m.
  revert a; induction s as [|c s IH]; intros a m Hlen.
  - destruct a, m; reflexivity.
  - destruct a as [|a]; simpl in Hlen; [lia|].
    simpl. apply IH. lia.
Qed.

(** C9, as stated, fails: ["#1g2g3g"] is not ["transparent"] and has no
    pairs of hexadecimal digits at positions 1 to 6, yet [parseInt] reads
    the leading digit of each slice and all four stored components are
    finite. *)
Lemma setBackgroundColor_finite_without_hex_pairs :
  "#1g2g3g" ≠ "transparent"
  /\ hexPairs "#1g2g3g" = false
  /\ bgColor (setBackgroundColor "#1g2g3g" OffscreenRenderer.create)
     = RGBA (div (ofZ 1) (ofZ 255)) (div (ofZ 2) (ofZ 255)) (div (ofZ 3) (ofZ 255)) (ofZ 1)
  /\ storesNaN (bgColor (setBackgroundColor "#1g2g3g" OffscreenRenderer.create)) = false.
Proof. split; [discriminate|]. repeat split; vm_compute; reflexivity. Qed.

(** C9, amended: for every string other than ["transparent"],
    [setBackgroundColor] is total and validates nothing: the red, green
    and blue components it stores are [NaN] exactly when [parseInt] finds no
    leading hexadecimal digit in the slices 1-3, 3-5 and 5-7; so a string of
    at most five characters (["#123"], ["red"], [""]) stores a [NaN] blue.
    The stored colour, [NaN]s included, is the clear colour of every frame
    rendered afterwards. *)
Theorem setBackgroundColor_stores_unvalidated (hex : string) (r : t) :
  hex ≠ "transparent" ->
  let c := bgColor (setBackgroundColor hex r) in
  isNaN (red c) = noLeadingDigit (slice 1 3 hex)
  /\ isNaN (green c) = noLeadingDigit (slice 3 5 hex)
  /\ isNaN (blue c) = noLeadingDigit (slice 5 7 hex)
  /\ ((String.length hex <= 5)%nat -> isNaN (blue c) = true)
  /\ forall deltas, deltas ≠ [] ->
       cleared <$> picture (renderFrames deltas (setBackgroundColor hex r)) = Some c.
Proof.
  intros Hne c.
  assert (Hc : c = RGBA (div (parseInt16 (slice 1 3 hex)) (ofZ 255))
                        (div (parseInt16 (slice 3 5 hex)) (ofZ 255))
                        (div (parseInt16 (slice 5 7 hex)) (ofZ 255))
                        (if String.length hex =? 9
                         then div (parseInt16 (slice 7 9 hex)) (ofZ 255)
                         else ofZ 1)).
  { subst c. unfold setBackgroundColor; simpl.
    destruct (String.eqb_spec hex "transparent"); [contradiction|reflexivity]. }
  rewrite Hc; simpl.
  rewrite !isNaN_div_255, !isNaN_parseInt16.
  repeat split.
  - intros Hlen. now rewrite slice_short.
  - intros deltas Hd. rewrite cleared_renderFrames by done. now rewrite <- Hc.
Qed.

Lemma setBackgroundColor_stores_unvalidated_witness :
  "#123" ≠ "transparent"
  /\ isNaN (blue (bgColor (setBackgroundColor "#123" OffscreenRenderer.create))) = true.
Proof.
  split; [discriminate|].
  apply (setBackgroundColor_stores_unvalidated "#123" OffscreenRenderer.create);
    [discriminate | simpl; lia].
Defined.

End BackgroundColor.

(** ** The render job *)

Section RenderJob.

Import SpineRenderer OffscreenRenderer.

(** The frame loop [for (let i = 0; i < totalFrames; i++)] runs
    [iterations totalFrames] times: those are the [i] below the bound. *)
Lemma iterations_spec (n : jsnum) (i : nat) :
JS.lt (ofNat i) n = true <-> i < iterations n.
Proof.
destruct n as [|q]; simpl; [split; [discriminate|lia]|].
rewrite negb_true_iff. split.
- intros H.
  assert (Hlt : (inject_Z (Z.of_nat i) < q)%Q).
  { apply Qnot_le_lt. intros Hle. apply Qle_bool_iff in Hle. congruence. }
  assert (Hc : (inject_Z (Z.of_nat i) < inject_Z (Qceiling q))%Q).
  { eapply Qlt_le_trans; [exact Hlt|apply Qle_ceiling]. }
  rewrite <- Zlt_Qlt in Hc. lia.
- intros H.
  destruct (Qle_bool q (inject_Z (Z.of_nat i))) eqn:E; [|reflexivity].
  apply Qle_bool_iff in E.
  assert (Hc : (Qceiling q <= Z.of_nat i)%Z).
  { apply Qceiling_resp_le in E. now rewrite Qceiling_Z in E. }
  lia.
Qed.

Lemma gt_zero_truthy (d : jsnum) : gt d (ofZ 0) = true -> truthy d = true.
Proof.
destruct d as [|q]; simpl; [discriminate|].
intros H. apply negb_true_iff in H. apply negb_true_iff.
destruct (Qeq_bool q 0) eqn:E; [|reflexivity].
apply Qeq_bool_iff in E.
assert (Hle : Qle_bool q (inject_Z 0) = true).
{ apply Qle_bool_iff. rewrite E. apply Qle_refl. }
congruence.
Qed.

Lemma load_ok (fs : SpineFiles) (anims : list Animation) (r : t) :
skeleton fs ≠ None -> atlas fs ≠ None -> content fs = Some anims ->
load fs r = (mk (canvas_width r) (canvas_height r) (picture r) (Some anims)
                (negb (bool_decide (anims = []))) None (bgColor r) (isPlaying r)
                (timeScale r) (isRunning r) (targetFPS r) (totalTime r),
             inr (map anim_name anims)).
Proof.
intros Hs Ha Hc. unfold load. rewrite Hc.
destruct (skeleton fs); [|done]. now destruct (atlas fs).
Qed.

Lemma includes_found (x : string) (anims : list Animation) (a : Animation) :
findAnimation x anims = Some a -> includes x (map anim_name anims) = true.
Proof.
unfold findAnimation, includes. intros H.
apply find_some in H as [Hin Heq].
apply existsb_exists. exists (anim_name a). split.
- now apply in_map.
- now rewrite String.eqb_sym.
Qed.

(** What [configure] establishes on a loaded renderer that has the requested
    animation. *)
Lemma configure_ready (task : OffscreenRenderTask) (r : t) (anims : list Animation)
  (a : Animation) :
data r = Some anims -> findAnimation (animation task) anims = Some a ->
let r' := fst (configure task r) in
data r' = Some anims /\ bounds r' = true /\ isPlaying r' = true
/\ timeScale r' = timeScale r /\ totalTime r' = anim_duration a
/\ track r' = Some {| track_animation := a; trackTime := ofZ 0; track_loop := false |}.
Proof.
intros Hd Hf. unfold configure, setAnimation, resetAnimation; simpl.
rewrite Hd, Hf; simpl.
destruct (backgroundColor task) as [hex|]; [destruct (negb (hex =? ""))%string|]; simpl;
  repeat split; done.
Qed.

(** C3, as stated, fails: a job without explicit duration on the still pose
    of asset C, whose intrinsic duration is 0, is recorded for 2 seconds:
    at 10 frames per second the archive holds 20 stills. *)
Lemma recordDuration_substitutes_two_seconds :
let task := Fixtures.taskOf png_sequence None Fixtures.itemC "pose" in
duration task = None
/\ totalTime (ready task) = Num 0
/\ recordDuration (duration task) (animDuration (ready task)) = Num 2
/\ exists l, snd (renderToVideo (Fixtures.quiet true) task create) = inr (ImageArchive true l)
             /\ length l = 20.
Proof.
repeat split. eexists. split; vm_compute; reflexivity.
Qed.

(** C3, amended: when the renderer holds the requested animation, the
    configured renderer reports its intrinsic duration as [totalTime]; a
    positive explicit duration is used as it is; an absent, zero or otherwise
    non-positive one resolves to the intrinsic duration when that is non-zero
    and to 2 seconds when it is zero. *)
Theorem recordDuration_resolution (task : OffscreenRenderTask) (r : t)
  (anims : list Animation) (a : Animation) :
data r = Some anims -> findAnimation (animation task) anims = Some a ->
let r' := fst (configure task r) in
totalTime r' = anim_duration a
/\ (forall d, duration task = Some d -> gt d (ofZ 0) = true ->
      recordDuration (duration task) (animDuration r') = d)
/\ (duration task = None \/ (exists d, duration task = Some d /\ gt d (ofZ 0) = false) ->
      recordDuration (duration task) (animDuration r')
      = if truthy (anim_duration a) then anim_duration a else Num 2).
Proof.
intros Hd Hf r'.
destruct (configure_ready task r anims a Hd Hf) as (_ & _ & _ & _ & Htot & _).
fold r' in Htot. split; [exact Htot|]. split.
- intros d Hdur Hpos. unfold recordDuration. rewrite Hdur, Hpos.
  now rewrite (gt_zero_truthy d Hpos).
- intros H. unfold recordDuration, animDuration, JS.or. rewrite Htot.
  destruct H as [-> | (d & -> & Hnp)]; [reflexivity|].
  rewrite Hnp, andb_false_r. reflexivity.
Qed.

Lemma recordDuration_resolution_witness :
let task := Fixtures.taskOf png_sequence None Fixtures.itemA "walk" in
recordDuration (duration task) (animDuration (ready task)) = Num (3 # 2).
Proof.
intros task.
apply (recordDuration_resolution task (fst (load (files task) create))
         (Fixtures.anims [("idle", 1 # 1); ("walk", 3 # 2)])
         {| anim_name := "walk"; anim_duration := Num (3 # 2) |});
  [reflexivity | reflexivity | left; reflexivity].
Defined.

(** *** The frame loop *)

Lemma flat_map_seq_shift {A : Type} (f : nat -> list A) (i n : nat) :
flat_map f (seq (S i) n) = flat_map (fun k => f (S k)) (seq i n).
Proof. rewrite <- seq_shift. now rewrite flat_map_concat_map, map_map, <- flat_map_concat_map. Qed.

(** The loop runs all its [n] iterations when no poll finds the signal set
    and no capture throws. *)
Lemma frameLoop_complete (env : Host) (task : OffscreenRenderTask) (b : Backend)
  (n i : nat) (r : t) :
(forall j, j < n -> aborted env task (2 + (i + j)) = false
                    /\ captureFails env b (i + j) = false) ->
frameLoop env task b n i r
= (Nat.iter n (advance (fps task)) r,
   flat_map (fun k => [UpdateAndRender (frameDelta (fps task));
                       captureCall b (fps task) (i + k)
                         (Nat.iter (S k) (advance (fps task)) r)]) (seq 0 n),
   None).
Proof.
revert i r; induction n as [|n IH]; intros i r H; [reflexivity|].
cbn [frameLoop].
destruct (H 0 ltac:(lia)) as [Ha Hc]. rewrite Nat.add_0_r in Ha, Hc.
rewrite Ha, Hc.
rewrite (IH (S i) (updateAndRender (frameDelta (fps task)) r)).
- cbn [seq flat_map]. rewrite flat_map_seq_shift, Nat.add_0_r.
  rewrite Nat.iter_succ_r. f_equal. f_equal. cbn [app]. do 2 f_equal.
  apply flat_map_ext. intros k. replace (S i + k) with (i + S k) by lia.
  now rewrite (Nat.iter_succ_r (S k)).
- intros j Hj. replace (S i + j) with (i + S j) by lia. apply H. lia.
Qed.

(** The loop leaves at iteration [k] when that poll is the first to find the
    signal set. *)
Lemma frameLoop_aborted (env : Host) (task : OffscreenRenderTask) (b : Backend)
  (n i k : nat) (r : t) :
k < n ->
(forall j, j < k -> aborted env task (2 + (i + j)) = false
                    /\ captureFails env b (i + j) = false) ->
aborted env task (2 + (i + k)) = true ->
frameLoop env task b n i r
= (Nat.iter k (advance (fps task)) r,
   flat_map (fun j => [UpdateAndRender (frameDelta (fps task));
                       captureCall b (fps task) (i + j)
                         (Nat.iter (S j) (advance (fps task)) r)]) (seq 0 k),
   Some AbortError).
Proof.
revert n i r; induction k as [|k IH]; intros n i r Hk H Hab.
- destruct n as [|n]; [lia|]. cbn [frameLoop].
  rewrite Nat.add_0_r in Hab. now rewrite Hab.
- destruct n as [|n]; [lia|]. cbn [frameLoop].
  destruct (H 0 ltac:(lia)) as [Ha Hc]. rewrite Nat.add_0_r in Ha, Hc.
  rewrite Ha, Hc.
  rewrite (IH n (S i) (updateAndRender (frameDelta (fps task)) r)).
  + cbn [seq flat_map]. rewrite flat_map_seq_shift, Nat.add_0_r.
    rewrite Nat.iter_succ_r. f_equal. f_equal. cbn [app]. do 2 f_equal.
    apply flat_map_ext. intros j. replace (S i + j) with (i + S j) by lia.
    now rewrite (Nat.iter_succ_r (S j)).
  + lia.
  + intros j Hj. replace (S i + j) with (i + S j) by lia. apply H. lia.
  + replace (S i + k) with (i + S k) by lia. exact Hab.
Qed.

Lemma stills_frames (png : bool) (fps : jsnum) (r0 : t) (n : nat) :
stills (flat_map (frameStep (ImageSequenceExporter png) fps r0) (seq 0 n))
= map (fun i => picture (Nat.iter (S i) (advance fps) r0)) (seq 0 n).
Proof.
induction n as [|n IH]; [reflexivity|].
rewrite seq_S, flat_map_app, map_app. unfold stills in *.
rewrite flat_map_app, IH. reflexivity.
Qed.

Lemma encoded_frames (fps : jsnum) (r0 : t) (n : nat) :
encoded (flat_map (frameStep MP4Recorder fps r0) (seq 0 n))
= map (fun i => (picture (Nat.iter (S i) (advance fps) r0),
                 div (mul (ofNat i) (ofZ 1000000)) fps)) (seq 0 n).
Proof.
induction n as [|n IH]; [reflexivity|].
rewrite seq_S, flat_map_app, map_app. unfold encoded in *.
rewrite flat_map_app, IH. reflexivity.
Qed.

Lemma stream_frames (f : ExportFormat) (fps : jsnum) (r0 : t) (n : nat) :
let loop := flat_map (frameStep (CanvasRecorder f) fps r0) (seq 0 n) in
stills loop = [] /\ encoded loop = []
/\ loop = flat_map (fun _ => [UpdateAndRender (frameDelta fps); Sleep 10]) (seq 0 n).
Proof.
induction n as [|n IH]; [done|].
cbn zeta in *. rewrite seq_S, !flat_map_app. unfold stills, encoded in *.
rewrite !flat_map_app. destruct IH as (-> & -> & ->). done.
Qed.

(** *** Simulated time *)

Lemma Qeq_bool_false (f : Q) : ~ (f == 0)%Q -> Qeq_bool f 0 = false.
Proof.
intros H. destruct (Qeq_bool f 0) eqn:E; [|reflexivity].
now apply Qeq_bool_iff in E.
Qed.

(** The frame step of a positive frame rate is a positive number: the
    quotient [1 / fps] is not below the smallest double. *)
Lemma frameDelta_pos (f : Q) :
(0 < f)%Q -> (f < 2 ^ 1024)%Q -> exists step, frameDelta (Num f) = Num step /\ (0 < step)%Q.
Proof.
intros Hf Hmax. unfold frameDelta, div, ofZ.
rewrite (Qeq_bool_false f) by lra. eexists. split; [reflexivity|].
apply double_pos. apply Qle_shift_div_l; [exact Hf|].
assert (E : (2 ^ (-1074) * 2 ^ 1024 == 2 ^ (-50))%Q).
{ rewrite <- Qpower_plus by discriminate. reflexivity. }
assert (H50 : (2 ^ (-50) <= 1)%Q) by discriminate.
pose proof (pow2_pos (-1074)) as P.
assert (2 ^ (-1074) * f <= 2 ^ (-1074) * 2 ^ 1024)%Q.
{ apply Qmult_le_l; [exact P|now apply Qlt_le_weak]. }
change (inject_Z 1) with 1%Q. lra.
Qed.

(** One frame on a playing renderer at the time scale 1 moves the track time
    on by the frame step and draws the pose of the new time over the
    background colour. *)
Lemma advance_step (fps : jsnum) (step q : Q) (r : t) (anims : list Animation) (tr : Track) :
frameDelta fps = Num step -> data r = Some anims -> bounds r = true -> isPlaying r = true ->
timeScale r = ofZ 1 -> track r = Some tr -> trackTime tr = Num q ->
let q' := (q + step * inject_Z 1)%Q in
advance fps r
= mk (canvas_width r) (canvas_height r)
     (Some {| cleared := bgColor r; posedAt := Some (Num q') |})
     (data r) (bounds r)
     (Some {| track_animation := track_animation tr; trackTime := Num q';
              track_loop := track_loop tr |})
     (bgColor r) (isPlaying r) (timeScale r) (isRunning r) (targetFPS r)
     (anim_duration (track_animation tr)).
Proof.
intros Hs Hd Hb Hp Hts Htr Hq q'.
unfold advance, updateAndRender. rewrite Hs, Hd, Hb, Hp, Htr, Hts.
unfold stateUpdate, scaled; simpl. rewrite Hq. reflexivity.
Qed.

(** After [k] frames the track stands [k] frame steps past where it was. *)
Lemma advance_time (fps : jsnum) (step q0 : Q) (r : t) (anims : list Animation) (tr : Track)
  (k : nat) :
frameDelta fps = Num step -> data r = Some anims -> bounds r = true -> isPlaying r = true ->
timeScale r = ofZ 1 -> track r = Some tr -> trackTime tr = Num q0 ->
exists (q : Q) (tr' : Track),
  (q == q0 + inject_Z (Z.of_nat k) * step)%Q
  /\ let r' := Nat.iter k (advance fps) r in
     data r' = Some anims /\ bounds r' = true /\ isPlaying r' = true
     /\ timeScale r' = ofZ 1 /\ bgColor r' = bgColor r
     /\ track r' = Some tr' /\ trackTime tr' = Num q
     /\ (0 < k -> picture r' = Some {| cleared := bgColor r; posedAt := Some (Num q) |}).
Proof.
intros Hs Hd Hb Hp Hts Htr Hq.
induction k as [|k (q & tr' & Heq & Hd' & Hb' & Hp' & Hts' & Hbg' & Htr' & Hq' & _)].
- exists q0, tr. split; [simpl; ring|].
  simpl. repeat split; try done. lia.
- exists (q + step * inject_Z 1)%Q.
  eexists. split.
  + rewrite Heq, Nat2Z.inj_succ, <- Z.add_1_r, inject_Z_plus. ring.
  + cbn zeta. rewrite Nat.iter_succ.
    rewrite (advance_step fps step q _ anims tr' Hs Hd' Hb' Hp' Hts' Htr' Hq').
    simpl. rewrite Hd', Hb', Hp', Hts', Hbg'. repeat split; reflexivity.
Qed.

(** A job that reaches the choice of its backend: the asset loads, holds the
    animation, and the first two polls find the signal clear. *)
Lemma renderToVideo_reaches_record (env : Host) (task : OffscreenRenderTask)
  (anims : list Animation) (a : Animation) :
skeleton (files task) ≠ None -> atlas (files task) ≠ None ->
content (files task) = Some anims ->
findAnimation (animation task) anims = Some a ->
aborted env task 0 = false -> aborted env task 1 = false ->
renderToVideo env task create
= prepend (Load (files task) :: snd (configure task (fst (load (files task) create))))
          (record env task (ready task)).
Proof.
intros Hs Ha Hc Hf H0 H1. unfold renderToVideo, ready.
rewrite H0, (load_ok _ anims _ Hs Ha Hc). cbn [fst].
rewrite (includes_found _ _ _ Hf), H1. cbn [negb].
now destruct (configure task _).
Qed.

Lemma capture_complete(env : Host) (task : OffscreenRenderTask) (b : Backend) (r : t) :
(forall k, aborted env task k = false) -> startThrows env = false ->
(forall i, captureThrows env i = false) -> stopThrows env = false ->
let n := iterations (totalFrames (recordDuration (duration task) (animDuration r)) (fps task)) in
let loop := flat_map (frameStep b (fps task) r) (seq 0 n) in
capture env task b r
= (stop (Nat.iter n (advance (fps task)) r),
   BackendStart b :: loop ++ [BackendStop b; RendererStop],
   inr (payload b loop)).
Proof.
intros Hab Hst Hcap Hsp n loop. unfold capture. rewrite Hst. fold n.
rewrite (frameLoop_complete env task b n 0 r).
- now rewrite Hsp.
- intros j _. split; [apply Hab|]. unfold captureFails. destruct b; auto.
Qed.

Lemma configure_calls_quiet (task : OffscreenRenderTask) (r : t) (c : Call) :
c ∈ Load (files task) :: snd (configure task r) -> isFrameCall c = false.
Proof.
unfold configure.
destruct (backgroundColor task) as [hex|]; [destruct (negb (hex =? ""))%string|];
  cbn [snd app]; rewrite ?elem_of_cons; intros H;
  repeat (destruct H as [-> | H]; [reflexivity|]); now apply elem_of_nil in H.
Qed.

Lemma record_capture (env : Host) (task : OffscreenRenderTask) (r : t) :
(format task = mp4_h264 -> webCodecs env = true) ->
record env task r = capture env task (backendOf (format task)) r.
Proof.
intros H. unfold record. destruct (format task); try reflexivity.
now rewrite H.
Qed.

Lemma ready_state (task : OffscreenRenderTask) (anims : list Animation) (a : Animation) :
skeleton (files task) ≠ None -> atlas (files task) ≠ None ->
content (files task) = Some anims ->
findAnimation (animation task) anims = Some a ->
data (ready task) = Some anims /\ bounds (ready task) = true
/\ isPlaying (ready task) = true /\ timeScale (ready task) = ofZ 1
/\ totalTime (ready task) = anim_duration a
/\ track (ready task)
   = Some {| track_animation := a; trackTime := ofZ 0; track_loop := false |}.
Proof.
intros Hs Ha Hc Hf. unfold ready.
pose proof (configure_ready task (fst (load (files task) create)) anims a) as H.
rewrite (load_ok _ anims _ Hs Ha Hc) in *. cbn [fst] in *.
now apply H.
Qed.

(** C1, as stated, fails: a WebM job of one second at 10 frames per second
    completes with 10 rendered frames while its backend, the stream recorder,
    receives [start] and [stop] and not one capture call. *)
Lemma stream_recorder_receives_no_capture :
let task := Fixtures.taskOf webm_vp9 None Fixtures.itemA "idle" in
let run := renderToVideo (Fixtures.quiet true) task create in
iterations (totalFrames (recordDuration (duration task) (animDuration (ready task)))
                        (fps task)) = 10
/\ snd run = inr (StreamFile webm_vp9)
/\ length (List.filter isRender (snd (fst run))) = 10
/\ List.filter isBackendCall (snd (fst run))
   = [BackendStart (CanvasRecorder webm_vp9); BackendStop (CanvasRecorder webm_vp9)].
Proof. repeat split; vm_compute; reflexivity. Qed.

(** C1, amended: for every job that runs to completion (the asset loads and
    holds the animation, no poll finds the signal set, no backend call
    throws, WebCodecs is there if the format is mp4-h264, and the frame count
    is not beyond [2^53], where the counter of the loop stops growing), the
    number of iterations is the ceiling of the product [recordDuration * fps]
    as the doubles give it, the loop runs for the [i] below that, and the
    calls are the load and the configuration, the backend's start, then per
    iteration [i] one [updateAndRender] by the frame step [1 / fps] followed
    by the call of the backend, then the backend's stop and the renderer's
    stop.  The image-sequence exporter receives one capture per iteration, of
    the frame just rendered; the MP4 recorder one [encodeFrame] per iteration
    with the timestamp [(i * 1000000) / fps]; the stream recorder receives no
    capture call, its iterations end in a pause.  At a positive frame rate
    the frame step is positive and the time of the poses strictly
    increases. *)
Theorem renderToVideo_frame_schedule (env : Host) (task : OffscreenRenderTask)
  (anims : list Animation) (a : Animation) :
skeleton (files task) ≠ None -> atlas (files task) ≠ None ->
content (files task) = Some anims ->
findAnimation (animation task) anims = Some a ->
(forall k, aborted env task k = false) ->
startThrows env = false -> (forall i, captureThrows env i = false) ->
stopThrows env = false ->
(format task = mp4_h264 -> webCodecs env = true) ->
gt (totalFrames (recordDuration (duration task) (animDuration (ready task))) (fps task))
   (ofZ (2 ^ 53)) = false ->
let b := backendOf (format task) in
let r0 := ready task in
let total := totalFrames (recordDuration (duration task) (animDuration r0)) (fps task) in
let n := iterations total in
let loop := flat_map (frameStep b (fps task) r0) (seq 0 n) in
let prelude := Load (files task) :: snd (configure task (fst (load (files task) create))) in
match mul (recordDuration (duration task) (animDuration r0)) (fps task) with
| Num product =>
    ((product <= 0)%Q -> n = 0)
    /\ ((0 < product)%Q ->
        (inject_Z (Z.of_nat n) - 1 < product)%Q /\ (product <= inject_Z (Z.of_nat n))%Q)
| NaN => n = 0
end
/\ (forall i, JS.lt (ofNat i) total = true <-> i < n)
/\ snd (fst (renderToVideo env task create))
   = prelude ++ BackendStart b :: loop ++ [BackendStop b; RendererStop]
/\ snd (renderToVideo env task create) = inr (payload b loop)
/\ (forall c, c ∈ prelude -> isFrameCall c = false)
/\ match b with
   | ImageSequenceExporter _ =>
       stills loop = map (fun i => picture (Nat.iter (S i) (advance (fps task)) r0)) (seq 0 n)
   | MP4Recorder =>
       encoded loop = map (fun i => (picture (Nat.iter (S i) (advance (fps task)) r0),
                                     div (mul (ofNat i) (ofZ 1000000)) (fps task))) (seq 0 n)
   | CanvasRecorder _ =>
       stills loop = [] /\ encoded loop = []
       /\ loop = flat_map (fun _ => [UpdateAndRender (frameDelta (fps task)); Sleep 10]) (seq 0 n)
   end
/\ forall f, fps task = Num f -> (0 < f)%Q -> (f < 2 ^ 1024)%Q ->
     (exists step, frameDelta (fps task) = Num step /\ (0 < step)%Q)
     /\ (forall i, exists q, simulatedTime (fps task) r0 i = Some (Num q))
     /\ (forall i j qi qj, i < j ->
           simulatedTime (fps task) r0 i = Some (Num qi) ->
           simulatedTime (fps task) r0 j = Some (Num qj) -> (qi < qj)%Q).
Proof.
intros Hs Ha Hc Hf Hab Hst Hcap Hsp Hmp4 _ b r0 total n loop prelude.
assert (Hrun : renderToVideo env task create
               = (stop (Nat.iter n (advance (fps task)) r0),
                  prelude ++ BackendStart b :: loop ++ [BackendStop b; RendererStop],
                  inr (payload b loop))).
{ rewrite (renderToVideo_reaches_record env task anims a Hs Ha Hc Hf (Hab 0) (Hab 1)).
  rewrite (record_capture env task _ Hmp4).
  rewrite (capture_complete env task _ _ Hab Hst Hcap Hsp). reflexivity. }
assert (Htime : forall f step, fps task = Num f -> frameDelta (fps task) = Num step ->
           forall i, exists q,
             picture (Nat.iter (S i) (advance (fps task)) r0)
             = Some {| cleared := bgColor r0; posedAt := Some (Num q) |}
             /\ (q == inject_Z (Z.of_nat (S i)) * step)%Q).
{ intros f step Hfps Hstep i.
  destruct (ready_state task anims a Hs Ha Hc Hf) as (Hd & Hb & Hp & Hts & _ & Htr).
  destruct (advance_time (fps task) step (inject_Z 0) r0 anims _ (S i) Hstep Hd Hb Hp Hts Htr
              eq_refl)
    as (q & tr' & Heq & _ & _ & _ & _ & _ & _ & _ & Hpic).
  exists q. split; [apply Hpic; lia|].
  rewrite Heq. change (inject_Z 0) with 0%Q. ring. }
split.
{ subst n total. unfold totalFrames.
  destruct (mul (recordDuration (duration task) (animDuration r0)) (fps task)) as [|product];
    [reflexivity|].
  cbn [ceil iterations ofZ]. rewrite Qceiling_Z.
  pose proof (Qle_ceiling product) as Hup. pose proof (Qceiling_lt product) as Hlow.
  split.
  - intros Hneg. apply Qceiling_resp_le in Hneg. change 0%Q with (inject_Z 0) in Hneg.
    rewrite Qceiling_Z in Hneg. lia.
  - intros Hpos.
    assert (Hz : (0 < Qceiling product)%Z).
    { rewrite Zlt_Qlt. change (inject_Z 0) with 0%Q. lra. }
    rewrite Z2Nat.id by lia. split; [|exact Hup].
    unfold Z.sub in Hlow. rewrite inject_Z_plus, inject_Z_opp in Hlow.
    change (inject_Z 1) with 1%Q in Hlow. lra. }
split; [intros i; apply iterations_spec|].
repeat match goal with |- _ /\ _ => split end.
- now rewrite Hrun.
- now rewrite Hrun.
- apply configure_calls_quiet.
- destruct b as [png| |f'].
  + apply stills_frames.
  + apply encoded_frames.
  + apply stream_frames.
- intros f Hfps Hpos Hmax.
  destruct (frameDelta_pos f Hpos Hmax) as (step & Hstep & Hstep0).
  rewrite <- Hfps in Hstep. split; [now exists step|]. split.
  + intros i. destruct (Htime f step Hfps Hstep i) as (q & Hp & _).
    exists q. unfold simulatedTime. now rewrite Hp.
  + intros i j qi qj Hij Hi Hj. unfold simulatedTime in Hi, Hj.
    destruct (Htime f step Hfps Hstep i) as (q1 & Hp1 & He1).
    destruct (Htime f step Hfps Hstep j) as (q2 & Hp2 & He2).
    rewrite Hp1 in Hi. rewrite Hp2 in Hj. simpl in Hi, Hj.
    injection Hi as <-. injection Hj as <-.
    rewrite He1, He2.
    apply Qmult_lt_compat_r; [exact Hstep0|].
    rewrite <- Zlt_Qlt. lia.
Qed.

Lemma renderToVideo_frame_schedule_witness :
let task := Fixtures.taskOf mp4_h264 None Fixtures.itemA "idle" in
exists frames,
  snd (renderToVideo (Fixtures.quiet true) task create) = inr (Mp4File frames)
  /\ map snd frames = map (fun i => div (mul (ofNat i) (ofZ 1000000)) (ofZ 10)) (seq 0 10).
Proof.
intros task.
destruct (renderToVideo_frame_schedule (Fixtures.quiet true) task
            (Fixtures.anims [("idle", 1 # 1); ("walk", 3 # 2)])
            {| anim_name := "idle"; anim_duration := Num (1 # 1) |})
  as (_ & _ & _ & Hres & _ & Henc & _);
  [discriminate | discriminate | reflexivity | reflexivity | reflexivity
  | reflexivity | reflexivity | reflexivity | reflexivity | reflexivity |].
eexists. split; [exact Hres|].
simpl payload. rewrite Henc. rewrite map_map. reflexivity.
Defined.

(** *** Exits of a job *)

Lemma capture_aborted (env : Host) (task : OffscreenRenderTask) (b : Backend) (r : t) (k : nat) :
startThrows env = false ->
k < iterations (totalFrames (recordDuration (duration task) (animDuration r)) (fps task)) ->
(forall j, j < k -> aborted env task (2 + j) = false /\ captureFails env b j = false) ->
aborted env task (2 + k) = true ->
capture env task b r
= (stop (Nat.iter k (advance (fps task)) r),
   BackendStart b :: flat_map (frameStep b (fps task) r) (seq 0 k) ++ [RendererStop],
   inl AbortError).
Proof.
intros Hst Hk Hbefore Hab. unfold capture. rewrite Hst.
rewrite (frameLoop_aborted env task b _ 0 k r Hk Hbefore Hab).
reflexivity.
Qed.

(** Whatever happens, a job that got past its first poll ends with the
    renderer's [stop]; a job that did not issues no call at all. *)
Lemma capture_stops (env : Host) (task : OffscreenRenderTask) (b : Backend) (r : t) :
exists cs, snd (fst (capture env task b r)) = cs ++ [RendererStop]
           /\ isRunning (fst (fst (capture env task b r))) = false.
Proof.
unfold capture. destruct (startThrows env); [now exists [BackendStart b]|].
destruct (frameLoop env task b _ 0 r) as [[r1 loop] [err|]].
- now exists (BackendStart b :: loop).
- destruct (stopThrows env).
  + now exists (BackendStart b :: loop ++ [BackendStop b]).
  + exists (BackendStart b :: loop ++ [BackendStop b]). split; [|reflexivity].
    cbn [fst snd app]. f_equal. now rewrite <- app_assoc.
Qed.

Lemma record_stops (env : Host) (task : OffscreenRenderTask) (r : t) :
exists cs, snd (fst (record env task r)) = cs ++ [RendererStop]
           /\ isRunning (fst (fst (record env task r))) = false.
Proof.
unfold record. destruct (format task); try apply capture_stops.
destruct (webCodecs env); [apply capture_stops|now exists []].
Qed.

Lemma renderToVideo_stops (env : Host) (task : OffscreenRenderTask) :
let run := renderToVideo env task create in
(aborted env task 0 = true /\ run = (create, [], inl AbortError))
\/ (aborted env task 0 = false
    /\ exists cs, snd (fst run) = cs ++ [RendererStop]
                  /\ isRunning (fst (fst run)) = false).
Proof.
unfold renderToVideo. destruct (aborted env task 0); [now left|right].
split; [reflexivity|].
destruct (load (files task) create) as [r1 [e|animations]].
- now exists [Load (files task)].
- destruct (includes (animation task) animations); cbn [negb];
    [|now exists [Load (files task)]].
  destruct (aborted env task 1); [now exists [Load (files task)]|].
  destruct (configure task r1) as [r2 calls].
  destruct (record_stops env task r2) as (cs & Hcs & Hrun).
  destruct (record env task r2) as [[r3 calls3] res]. cbn [fst snd] in *.
  exists (Load (files task) :: calls ++ cs). split; [|exact Hrun].
  unfold prepend. cbn [fst snd app]. rewrite Hcs. f_equal. now rewrite app_assoc.
Qed.

(** On a host without WebCodecs an mp4-h264 job throws before it renders,
    captures or starts anything. *)
Lemma renderToVideo_unsupported (env : Host) (task : OffscreenRenderTask) (r : t) :
format task = mp4_h264 -> webCodecs env = false ->
(exists e, snd (renderToVideo env task r) = inl e)
/\ forall c, c ∈ snd (fst (renderToVideo env task r)) -> isFrameCall c = false.
Proof.
intros Hfmt Hwc. unfold renderToVideo.
destruct (aborted env task 0).
{ split; [now eexists|]. intros c Hc. now apply elem_of_nil in Hc. }
pose proof (configure_calls_quiet task (fst (load (files task) r))) as Hq.
destruct (load (files task) r) as [r1 [e|animations]]; cbn [fst] in Hq.
{ split; [now eexists|]. cbn [catch fst snd app]. intros c Hc.
  apply elem_of_cons in Hc as [->|Hc]; [reflexivity|].
  apply elem_of_cons in Hc as [->|Hc]; [reflexivity|now apply elem_of_nil in Hc]. }
assert (Hshort : forall e : Error,
          (exists e', snd (catch r1 [Load (files task)] e) = inl e')
          /\ forall c, c ∈ snd (fst (catch r1 [Load (files task)] e)) -> isFrameCall c = false).
{ intros e. split; [now eexists|]. cbn [catch fst snd app]. intros c Hc.
  apply elem_of_cons in Hc as [->|Hc]; [reflexivity|].
  apply elem_of_cons in Hc as [->|Hc]; [reflexivity|now apply elem_of_nil in Hc]. }
destruct (includes (animation task) animations); cbn [negb]; [|apply Hshort].
destruct (aborted env task 1); [apply Hshort|].
destruct (configure task r1) as [r2 calls]. cbn [snd] in Hq.
unfold record. rewrite Hfmt, Hwc. cbn [negb catch prepend fst snd app].
split; [now eexists|].
intros c Hc. rewrite app_comm_cons in Hc. apply elem_of_app in Hc as [Hc|Hc].
- now apply Hq.
- apply elem_of_cons in Hc as [->|Hc]; [reflexivity|now apply elem_of_nil in Hc].
Qed.

Lemma renderToVideo_unsupported_error (env : Host) (task : OffscreenRenderTask)
  (anims : list Animation) (a : Animation) :
format task = mp4_h264 -> webCodecs env = false ->
skeleton (files task) ≠ None -> atlas (files task) ≠ None ->
content (files task) = Some anims ->
findAnimation (animation task) anims = Some a ->
aborted env task 0 = false -> aborted env task 1 = false ->
snd (renderToVideo env task create) = inl WebCodecsUnsupported.
Proof.
intros Hfmt Hwc Hs Ha Hc Hf H0 H1.
rewrite (renderToVideo_reaches_record env task anims a Hs Ha Hc Hf H0 H1).
unfold record. rewrite Hfmt, Hwc. reflexivity.
Qed.

End RenderJob.

(** ** The scheduler *)

Section Scheduler.

Import ExportManager.

Lemma processFrom_full (m : t) (q : list Item) :
maxConcurrent m <= length (activeRenderers m) ->
processFrom m q = (withQueue q m, []).
Proof.
intros H. destruct q; cbn [processFrom]; now rewrite bool_decide_eq_true_2.
Qed.

Lemma processFrom_nil (m : t) : processFrom m [] = (withQueue [] m, []).
Proof. cbn [processFrom]. now destruct (bool_decide _). Qed.

Lemma processFrom_dead (m : t) (it : Item) (rest : list Item) :
length (activeRenderers m) < maxConcurrent m -> isAborted m it = true ->
processFrom m (it :: rest)
= (fst (processFrom m rest), rejected it :: snd (processFrom m rest)).
Proof.
intros Hcap Hab. cbn [processFrom].
rewrite bool_decide_eq_false_2 by lia. rewrite Hab.
now destruct (processFrom m rest).
Qed.

Lemma processFrom_live (m : t) (it : Item) (rest : list Item) :
length (activeRenderers m) < maxConcurrent m -> isAborted m it = false ->
processFrom m (it :: rest) = (started it rest m, [EvCreate (ticket it) (nextRenderer m)]).
Proof.
intros Hcap Hab. cbn [processFrom].
rewrite bool_decide_eq_false_2 by lia. now rewrite Hab.
Qed.

(** With a free slot, [processQueue] rejects the aborted items at the head of
    the queue and goes on with what follows them. *)
Lemma processFrom_skips (m : t) (dead q : list Item) :
length (activeRenderers m) < maxConcurrent m ->
(forall it, it ∈ dead -> isAborted m it = true) ->
processFrom m (dead ++ q)
= (fst (processFrom m q), map rejected dead ++ snd (processFrom m q)).
Proof.
intros Hcap Hdead. induction dead as [|d dead IH]; cbn [app map].
- now destruct (processFrom m q).
- rewrite processFrom_dead; [|exact Hcap|apply Hdead; left].
  rewrite IH; [reflexivity|]. intros it Hit. apply Hdead. now right.
Qed.

(** The three ways [processQueue] can go. *)
Lemma processFrom_cases (m : t) (q : list Item) :
(maxConcurrent m <= length (activeRenderers m)
 /\ processFrom m q = (withQueue q m, []))
\/ (length (activeRenderers m) < maxConcurrent m
    /\ (forall it, it ∈ q -> isAborted m it = true)
    /\ processFrom m q = (withQueue [] m, map rejected q))
\/ (length (activeRenderers m) < maxConcurrent m
    /\ exists dead it rest,
         q = dead ++ it :: rest
         /\ (forall d, d ∈ dead -> isAborted m d = true)
         /\ isAborted m it = false
         /\ processFrom m q
            = (started it rest m,
               map rejected dead ++ [EvCreate (ticket it) (nextRenderer m)])).
Proof.
destruct (le_lt_dec (maxConcurrent m) (length (activeRenderers m))) as [Hfull|Hcap].
{ left. split; [exact Hfull|now apply processFrom_full]. }
right. induction q as [|it q IH].
- left. split; [exact Hcap|]. split; [intros it Hit; now apply elem_of_nil in Hit|].
  apply processFrom_nil.
- destruct (isAborted m it) eqn:Hab.
  + destruct IH as [(_ & Hall & Heq) | (_ & dead & it' & rest & -> & Hdead & Hlive & Heq)].
    * left. split; [exact Hcap|]. split.
      { intros x Hx. apply elem_of_cons in Hx as [->|Hx]; auto. }
      rewrite processFrom_dead, Heq by assumption. reflexivity.
    * right. split; [exact Hcap|]. exists (it :: dead), it', rest.
      split; [reflexivity|]. split.
      { intros x Hx. apply elem_of_cons in Hx as [->|Hx]; auto. }
      split; [exact Hlive|].
      rewrite processFrom_dead, Heq by assumption. reflexivity.
  + right. split; [exact Hcap|]. exists [], it, q.
    split; [reflexivity|]. split; [intros d Hd; now apply elem_of_nil in Hd|].
    split; [exact Hab|]. now apply processFrom_live.
Qed.

Lemma processFrom_events (m : t) (q : list Item) (ev : Event) :
ev ∈ snd (processFrom m q) ->
(exists it, it ∈ q /\ ev = rejected it)
\/ (exists it, it ∈ q /\ ev = EvCreate (ticket it) (nextRenderer m)
               /\ length (activeRenderers m) < maxConcurrent m).
Proof.
destruct (processFrom_cases m q)
  as [(_ & ->) | [(_ & _ & ->) | (Hcap & dead & it & rest & -> & _ & _ & ->)]];
  cbn [snd]; intros Hev.
- now apply elem_of_nil in Hev.
- left. apply list_elem_of_fmap in Hev as (it & -> & Hit). eauto.
- apply elem_of_app in Hev as [Hev|Hev].
  + left. apply list_elem_of_fmap in Hev as (d & -> & Hd).
    exists d. split; [|reflexivity]. apply elem_of_app. now left.
  + right. apply list_elem_of_singleton in Hev as ->.
    exists it. split; [|now split]. apply elem_of_app. right. now left.
Qed.

(** *** The invariant of the manager *)

Lemma setAdd_fresh (x : nat) (s : list nat) : x ∉ s -> setAdd x s = s ++ [x].
Proof. intros H. unfold setAdd. now rewrite bool_decide_eq_false_2. Qed.

Lemma length_setDelete (x : nat) (s : list nat) :
NoDup s -> x ∈ s -> S (length (setDelete x s)) = length s.
Proof.
unfold setDelete. induction 1 as [|y s Hy Hnd IH]; intros Hx.
- now apply elem_of_nil in Hx.
- apply elem_of_cons in Hx as [<-|Hx].
  + rewrite filter_cons_False by (intros H; now apply H).
    assert (Hid : filter (fun y => y ≠ x) s = s).
    { clear IH Hnd. induction s as [|z s IHs]; [reflexivity|].
      rewrite filter_cons_True.
      - f_equal. apply IHs. intros H. apply Hy. now right.
      - intros ->. apply Hy. now left. }
    now rewrite Hid.
  + rewrite filter_cons_True by (intros ->; contradiction).
    simpl. now rewrite IH.
Qed.

Lemma Inv_create (set : list nat) : Inv (create set).
Proof.
split; [split|]; simpl; try lia; try done.
- constructor.
- intros x Hx. now apply elem_of_nil in Hx.
- intros it Hit. now apply elem_of_nil in Hit.
Qed.

Lemma processQueue_Inv (m : t) :
Sound m ->
(1 < length (queue m) -> maxConcurrent m <= S (length (activeRenderers m))) ->
Inv (fst (processQueue m)).
Proof.
intros [Hb Hnd Hfr Htk] Hpre. unfold processQueue.
destruct (processFrom_cases m (queue m))
  as [(Hfull & ->) | [(_ & _ & ->) | (Hcap & dead & it & rest & Hq & _ & _ & ->)]];
  cbn [fst].
- split; [split|]; simpl; auto.
- split; [split|]; simpl; auto; [|done]. intros x Hx. now apply elem_of_nil in Hx.
- assert (Hnew : nextRenderer m ∉ activeRenderers m).
  { intros Hin. apply Hfr in Hin. lia. }
  split; [split|]; unfold started; rewrite (setAdd_fresh _ _ Hnew); simpl.
  + rewrite length_app. simpl. lia.
  + apply NoDup_app. split; [exact Hnd|]. split.
    * intros x Hx Hx'. apply list_elem_of_singleton in Hx' as ->. contradiction.
    * apply NoDup_singleton.
  + intros x Hx. apply elem_of_app in Hx as [Hx|Hx].
    * apply Hfr in Hx. lia.
    * apply list_elem_of_singleton in Hx as ->. lia.
  + intros x Hx. apply Htk. rewrite Hq. apply elem_of_app. right. now right.
  + intros Hrest. rewrite length_app. simpl.
    assert (1 < length (queue m)).
    { rewrite Hq, length_app. simpl. destruct rest; [done|simpl; lia]. }
    apply Hpre in H. lia.
Qed.

Lemma Inv_exportTask (tk : OffscreenRenderTask) (m : t) :
Inv m -> Inv (fst (exportTask tk m)).
Proof.
intros [[Hb Hnd Hfr Htk] Hbusy]. unfold exportTask.
set (m1 := mk _ _ (queue m ++ _) _ _ _ _).
pose proof (processQueue_Inv m1) as H.
destruct (processQueue m1) as [m2 evs]. cbn [fst] in *.
apply H.
- split; simpl; auto. intros it Hit. apply elem_of_app in Hit as [Hit|Hit].
  + apply Htk in Hit. lia.
  + apply list_elem_of_singleton in Hit as ->. simpl. lia.
- simpl. rewrite length_app. simpl. intros Hlen.
  assert (queue m ≠ []) by (destruct (queue m); [simpl in Hlen; lia|done]).
  apply Hbusy in H0. lia.
Qed.

Lemma Inv_settle (r : nat) (env : Host) (m : t) : Inv m -> Inv (fst (settle r env m)).
Proof.
intros Hinv. pose proof Hinv as [[Hb Hnd Hfr Htk] Hbusy]. unfold settle.
destruct (lookupRunning r m) as [it|]; [|exact Hinv].
destruct (OffscreenRenderer.renderToVideo env (task it) OffscreenRenderer.create)
  as [[r' calls] res].
set (m1 := mk _ (setDelete r (activeRenderers m)) _ _ _ _ _).
pose proof (processQueue_Inv m1) as H.
destruct (processQueue m1) as [m2 evs]. cbn [fst] in *.
apply H.
- split; simpl; auto.
  + unfold setDelete. pose proof (length_filter (fun y => y ≠ r) (activeRenderers m)). lia.
  + unfold setDelete. now apply NoDup_filter.
  + intros x Hx. unfold setDelete in Hx. apply list_elem_of_filter in Hx as [_ Hx]. auto.
- simpl. intros Hlen.
  assert (Hq : queue m ≠ []) by (destruct (queue m); [simpl in Hlen; lia|done]).
  apply Hbusy in Hq.
  destruct (decide (r ∈ activeRenderers m)) as [Hin|Hout].
  + pose proof (length_setDelete r _ Hnd Hin). lia.
  + assert (Hid : setDelete r (activeRenderers m) = activeRenderers m).
    { unfold setDelete. clear -Hout. induction (activeRenderers m) as [|z s IHs]; [reflexivity|].
      rewrite filter_cons_True.
      - f_equal. apply IHs. intros H. apply Hout. now right.
      - intros ->. apply Hout. now left. }
    rewrite Hid. lia.
Qed.

Lemma Inv_step (m : t) (c : Command) : Inv m -> Inv (fst (step m c)).
Proof.
intros Hinv. destruct c as [tk|r env| |sg]; cbn [step].
- now apply Inv_exportTask.
- now apply Inv_settle.
- destruct Hinv as [[Hb Hnd Hfr Htk] Hbusy].
  split; [split|]; simpl; try lia; try done.
  + constructor.
  + intros x Hx. now apply elem_of_nil in Hx.
  + intros it Hit. now apply elem_of_nil in Hit.
- destruct Hinv as [[Hb Hnd Hfr Htk] Hbusy]. split; [split|]; simpl; auto.
Qed.

Lemma run_app (m : t) (cs1 cs2 : list Command) :
run m (cs1 ++ cs2)
= (fst (run (fst (run m cs1)) cs2), snd (run m cs1) ++ snd (run (fst (run m cs1)) cs2)).
Proof.
revert m; induction cs1 as [|c cs1 IH]; intros m; cbn [app run fst snd].
- destruct (run m cs2); reflexivity.
- destruct (step m c) as [m1 evs1]. rewrite IH.
  destruct (run m1 cs1) as [m2 evs2]. cbn [fst snd].
  destruct (run m2 cs2) as [m3 evs3]. cbn [fst snd]. now rewrite app_assoc.
Qed.

Lemma Inv_run (m : t) (cs : list Command) : Inv m -> Inv (fst (run m cs)).
Proof.
revert m; induction cs as [|c cs IH]; intros m Hinv; cbn [run]; [exact Hinv|].
pose proof (Inv_step m c Hinv) as H1.
destruct (step m c) as [m1 evs1]. pose proof (IH m1 H1) as H2.
now destruct (run m1 cs).
Qed.

Lemma maxConcurrent_processFrom (m : t) (q : list Item) :
maxConcurrent (fst (processFrom m q)) = maxConcurrent m
/\ nextTicket (fst (processFrom m q)) = nextTicket m.
Proof.
now destruct (processFrom_cases m q)
  as [(_ & ->) | [(_ & _ & ->) | (_ & dead & it & rest & _ & _ & _ & ->)]].
Qed.

Lemma maxConcurrent_step (m : t) (c : Command) :
maxConcurrent (fst (step m c)) = maxConcurrent m
/\ nextTicket m <= nextTicket (fst (step m c)).
Proof.
destruct c as [tk|r env| |sg]; cbn [step]; try (split; [reflexivity|simpl; lia]).
- unfold exportTask, processQueue.
  set (m1 := mk _ _ (queue m ++ _) _ _ _ _).
  destruct (maxConcurrent_processFrom m1 (queue m1)) as [H1 H2].
  destruct (processFrom m1 (queue m1)) as [m2 evs]. cbn [fst] in *.
  rewrite H1, H2. simpl. split; [reflexivity|lia].
- unfold settle. destruct (lookupRunning r m) as [it|]; [|split; [reflexivity|simpl; lia]].
  destruct (OffscreenRenderer.renderToVideo env (task it) OffscreenRenderer.create)
    as [[r' calls] res].
  unfold processQueue. set (m1 := mk _ (setDelete r (activeRenderers m)) _ _ _ _ _).
  destruct (maxConcurrent_processFrom m1 (queue m1)) as [H1 H2].
  destruct (processFrom m1 (queue m1)) as [m2 evs]. cbn [fst] in *.
  rewrite H1, H2. simpl. split; [reflexivity|lia].
Qed.

Lemma maxConcurrent_run (m : t) (cs : list Command) :
maxConcurrent (fst (run m cs)) = maxConcurrent m
/\ nextTicket m <= nextTicket (fst (run m cs)).
Proof.
revert m; induction cs as [|c cs IH]; intros m; cbn [run]; [split; [reflexivity|simpl; lia]|].
destruct (maxConcurrent_step m c) as [H1 H2].
destruct (step m c) as [m1 evs1]. destruct (IH m1) as [H3 H4].
destruct (run m1 cs). cbn [fst] in *. split; [congruence|lia].
Qed.

(** *** Filling a new manager *)

Lemma live_isAborted (m : t) (it : Item) :
live (abortedSignals m) (task it) -> isAborted m it = false.
Proof.
unfold live, isAborted. destruct (abortSignal (task it)); [|reflexivity].
intros H. now apply bool_decide_eq_false_2.
Qed.

Lemma itemsOf_app (ts : list OffscreenRenderTask) (tk : OffscreenRenderTask) :
itemsOf (ts ++ [tk]) = itemsOf ts ++ [{| task := tk; ticket := length ts |}].
Proof. unfold itemsOf. rewrite imap_app. simpl. now rewrite Nat.add_0_r. Qed.

Lemma length_itemsOf (ts : list OffscreenRenderTask) : length (itemsOf ts) = length ts.
Proof. unfold itemsOf. apply length_imap. Qed.

Lemma exportTask_filled (set : list nat) (ts : list OffscreenRenderTask)
  (tk : OffscreenRenderTask) :
live set tk ->
exportTask tk (filled set ts) = (filled set (ts ++ [tk]), submission (length ts)).
Proof.
intros Hlive. unfold exportTask, processQueue.
set (it := {| task := tk; ticket := nextTicket (filled set ts) |}).
assert (Hit : isAborted (filled set ts) it = false) by now apply live_isAborted.
destruct ts as [|t0 [|t1 ts]].
- cbn -[processFrom]. rewrite processFrom_live; [reflexivity|simpl; lia|exact Hit].
- cbn -[processFrom]. rewrite processFrom_live; [reflexivity|simpl; lia|exact Hit].
- simpl queue. rewrite processFrom_full by (simpl; lia).
  unfold submission, filled, withQueue. cbn [fst snd].
  replace (length (t0 :: t1 :: ts) <? 2) with false
    by (symmetry; apply Nat.ltb_ge; simpl; lia).
  rewrite itemsOf_app, length_app.
  rewrite drop_app_le by (rewrite length_itemsOf; simpl; lia).
  rewrite take_app_le by (rewrite length_itemsOf; simpl; lia).
  simpl. rewrite !Nat.min_0_r, Nat.add_1_r. reflexivity.
Qed.

Lemma run_submits (set : list nat) (ts more : list OffscreenRenderTask) :
(forall tk, tk ∈ more -> live set tk) ->
run (filled set ts) (map Submit more)
= (filled set (ts ++ more), flat_map submission (seq (length ts) (length more))).
Proof.
revert ts; induction more as [|tk more IH]; intros ts Hlive.
- now rewrite app_nil_r.
- cbn [map run step]. rewrite exportTask_filled by (apply Hlive; now left).
  rewrite IH by (intros x Hx; apply Hlive; now right).
  rewrite <- app_assoc, length_app. cbn [app length flat_map seq].
  now rewrite Nat.add_1_r.
Qed.

Lemma create_filled (set : list nat) : create set = filled set [].
Proof. reflexivity. Qed.

Lemma creations_submission (i n : nat) :
2 <= i -> List.filter isCreate (flat_map submission (seq i n)) = [].
Proof.
revert i; induction n as [|n IH]; intros i Hi; [reflexivity|].
cbn [seq flat_map]. rewrite List.filter_app, IH by lia.
unfold submission. replace (i <? 2) with false by (symmetry; apply Nat.ltb_ge; lia).
reflexivity.
Qed.

(** *** When a renderer is constructed *)

(** A step constructs a renderer either for the task it submits, or, on the
    settlement of an active renderer, for an item that was waiting. *)
Lemma create_in_step (m : t) (c : Command) (k r : nat) :
Inv m -> EvCreate k r ∈ snd (step m c) ->
(exists tk, c = Submit tk /\ k = nextTicket m)
\/ (exists r' env, c = Settle r' env /\ r' ∈ activeRenderers m
                   /\ exists it, it ∈ queue m /\ ticket it = k).
Proof.
intros [[Hb Hnd Hfr Htk] Hbusy] Hev.
destruct c as [tk|r' env| |sg]; cbn [step] in Hev.
- left. exists tk. split; [reflexivity|].
  unfold exportTask, processQueue in Hev.
  set (m1 := mk _ _ (queue m ++ _) _ _ _ _) in Hev.
  pose proof (processFrom_events m1 (queue m1) (EvCreate k r)) as Hcases.
  destruct (processFrom m1 (queue m1)) as [m2 evs]. cbn [snd] in *.
  apply elem_of_cons in Hev as [Hev|Hev]; [discriminate|].
  destruct (Hcases Hev) as [(it & _ & Heq) | (it & Hit & Heq & Hcap)]; [discriminate|].
  injection Heq as -> _. simpl in Hit, Hcap.
  apply elem_of_app in Hit as [Hit|Hit].
  + assert (queue m ≠ []) by (intros E; rewrite E in Hit; now apply elem_of_nil in Hit).
    apply Hbusy in H. lia.
  + now apply list_elem_of_singleton in Hit as ->.
- right. exists r', env. split; [reflexivity|].
  unfold settle in Hev. destruct (lookupRunning r' m) as [it0|];
    [|now apply elem_of_nil in Hev].
  destruct (OffscreenRenderer.renderToVideo env (task it0) OffscreenRenderer.create)
    as [[r0 calls] res].
  unfold processQueue in Hev.
  set (m1 := mk _ (setDelete r' (activeRenderers m)) _ _ _ _ _) in Hev.
  pose proof (processFrom_events m1 (queue m1) (EvCreate k r)) as Hcases.
  destruct (processFrom m1 (queue m1)) as [m2 evs]. cbn [snd] in *.
  apply elem_of_app in Hev as [Hev|Hev].
  { apply list_elem_of_fmap in Hev as (c & Hc & _). discriminate. }
  apply elem_of_cons in Hev as [Hev|Hev]; [destruct res; discriminate|].
  apply elem_of_cons in Hev as [Hev|Hev]; [discriminate|].
  destruct (Hcases Hev) as [(it & _ & Heq) | (it & Hit & Heq & Hcap)]; [discriminate|].
  injection Heq as -> _. simpl in Hit, Hcap. split; [|eauto].
  destruct (decide (r' ∈ activeRenderers m)) as [Hin|Hout]; [exact Hin|exfalso].
  assert (Hid : setDelete r' (activeRenderers m) = activeRenderers m).
  { unfold setDelete. clear -Hout. induction (activeRenderers m) as [|z s IHs]; [reflexivity|].
    rewrite filter_cons_True.
    - f_equal. apply IHs. intros H. apply Hout. now right.
    - intros ->. apply Hout. now left. }
  rewrite Hid in Hcap.
  assert (queue m ≠ []) by (intros E; rewrite E in Hit; now apply elem_of_nil in Hit).
  apply Hbusy in H. lia.
- unfold cancelAll in Hev. cbn [snd] in Hev. apply elem_of_app in Hev as [Hev|Hev];
    apply list_elem_of_fmap in Hev as (x & Hx & _); discriminate.
- now apply elem_of_nil in Hev.
Qed.

(** *** Settlements *)

Lemma settle_running (r : nat) (env : Host) (m : t) (it : Item) :
lookupRunning r m = Some it ->
let job := OffscreenRenderer.renderToVideo env (task it) OffscreenRenderer.create in
settle r env m
= (fst (processQueue (released r m)),
   map (EvCall r) (snd (fst job))
   ++ [outcomeEvent (ticket it) (snd job); EvDispose r]
   ++ snd (processQueue (released r m))).
Proof.
intros Hrun job. unfold settle. rewrite Hrun. subst job.
destruct (OffscreenRenderer.renderToVideo env (task it) OffscreenRenderer.create)
  as [[r' calls] res].
fold (released r m). destruct (processQueue (released r m)) as [m2 evs].
now destruct res.
Qed.

Lemma processQueue_no_call (m : t) (r : nat) (c : Call) :
EvCall r c ∉ snd (processQueue m).
Proof.
intros Hin. apply processFrom_events in Hin as [(it & _ & H) | (it & _ & H & _)];
  discriminate.
Qed.

Lemma frameStep_no_stop (b : Backend) (fps : jsnum) (r0 : SpineRenderer.t) (n : nat) :
forallb (fun c => negb (isBackendStop c)) (flat_map (frameStep b fps r0) (seq 0 n)) = true.
Proof.
apply forallb_forall. intros c Hc. apply in_flat_map in Hc as (i & _ & Hc).
destruct Hc as [<-|[<-|[]]]; [reflexivity|]. now destruct b.
Qed.

(** C7: [cancelAll()] rejects every item that was queued with an abort
    error and empties the queue, and [getQueueLength()], the queued plus the
    active count, is 0 afterwards. *)
Theorem cancelAll_rejects_and_empties (m : t) :
(forall it, it ∈ queue m -> EvReject (ticket it) AbortError ∈ snd (cancelAll m))
/\ queue (fst (cancelAll m)) = []
/\ activeRenderers (fst (cancelAll m)) = []
/\ getQueueLength (fst (cancelAll m)) = 0.
Proof.
repeat split. intros it Hit. unfold cancelAll; cbn [snd].
apply elem_of_app. left. apply list_elem_of_fmap. now exists it.
Qed.

(** C6: when [processQueue] runs with a free slot and the items at the head
    of the queue have their signal aborted, each of them is rejected with an
    abort error and nothing else is done for it: no renderer is constructed
    for it.  The same call goes on with the item after them: if that item is
    not aborted its renderer is constructed at once; if nothing follows, the
    queue is empty and no renderer was constructed at all. *)
Theorem cancelled_before_start_never_stalls (m : t) (dead rest : list Item) :
queue m = dead ++ rest ->
length (activeRenderers m) < maxConcurrent m ->
(forall it, it ∈ dead -> isAborted m it = true) ->
processQueue m
= (fst (processFrom m rest), map rejected dead ++ snd (processFrom m rest))
/\ match rest with
   | [] => processQueue m = (withQueue [] m, map rejected dead)
   | it :: rest' =>
       isAborted m it = false ->
       processQueue m
       = (started it rest' m, map rejected dead ++ [EvCreate (ticket it) (nextRenderer m)])
   end.
Proof.
intros Hq Hcap Hdead. unfold processQueue. rewrite Hq.
rewrite (processFrom_skips m dead rest Hcap Hdead). split; [reflexivity|].
destruct rest as [|it rest'].
- rewrite processFrom_nil. cbn [fst snd]. now rewrite app_nil_r.
- intros Hlive. now rewrite (processFrom_live m it rest' Hcap Hlive).
Qed.

Lemma cancelled_before_start_never_stalls_witness :
let cancelled := Fixtures.taskOf png_sequence (Some 7) Fixtures.itemA "idle" in
let waiting := Fixtures.taskOf png_sequence None Fixtures.itemA "walk" in
let m := mk 2 [1] [{| task := cancelled; ticket := 2 |}; {| task := waiting; ticket := 3 |}]
            [] 2 4 [7] in
snd (processQueue m) = [EvReject 2 AbortError; EvCreate 3 2].
Proof.
intros cancelled waiting m.
destruct (cancelled_before_start_never_stalls m
            [{| task := cancelled; ticket := 2 |}] [{| task := waiting; ticket := 3 |}])
  as [_ H].
- reflexivity.
- simpl; lia.
- intros it Hit. apply list_elem_of_singleton in Hit as ->. reflexivity.
- rewrite H; reflexivity.
Defined.

Lemma tickets_itemsOf (ts : list OffscreenRenderTask) :
map ticket (itemsOf ts) = seq 0 (length ts).
Proof.
induction ts as [|tk ts IH] using rev_ind; [reflexivity|].
rewrite itemsOf_app, map_app, IH, length_app, seq_app. reflexivity.
Qed.

(** *** Settlements admit the waiting tasks *)

Lemma map_fst_filter (r : nat) (l : list (nat * Item)) :
map fst (filter (fun p => fst p ≠ r) l) = filter (fun y => y ≠ r) (map fst l).
Proof.
induction l as [|p l IH]; [reflexivity|]. cbn [map].
destruct (decide (fst p = r)) as [Heq|Hne].
- rewrite !filter_cons_False by (intros H; now apply H). exact IH.
- rewrite !filter_cons_True by exact Hne. cbn [map]. now rewrite IH.
Qed.

Lemma lookupRunning_active (r : nat) (m : t) :
map fst (running m) = activeRenderers m -> r ∈ activeRenderers m ->
exists it, lookupRunning r m = Some it.
Proof.
intros Htr Hin. rewrite <- Htr in Hin. clear Htr. unfold lookupRunning.
induction (running m) as [|p l IH]; cbn [map] in Hin; [now apply elem_of_nil in Hin|].
cbn [List.find]. destruct (fst p =? r) eqn:E; [now eexists|].
apply Nat.eqb_neq in E. apply elem_of_cons in Hin as [Hin|Hin]; [congruence|now apply IH].
Qed.

Lemma filter_isCreate_settlement (r : nat) (calls : list Call) (ev : Event) :
isCreate ev = false ->
List.filter isCreate (map (EvCall r) calls ++ [ev; EvDispose r]) = [].
Proof.
intros Hev. rewrite List.filter_app. cbn [List.filter]. rewrite Hev. cbn [isCreate].
rewrite app_nil_r. induction calls as [|c calls IH]; [reflexivity|exact IH].
Qed.

Lemma Serving_filled (set : list nat) (ts : list OffscreenRenderTask) :
2 < length ts -> Serving set ts 0 (filled set ts).
Proof.
intros Hlen. destruct ts as [|t0 [|t1 ts]]; cbn [length] in Hlen; try lia.
destruct ts as [|t2 ts]; cbn [length] in Hlen; try lia.
split; try reflexivity.
- apply NoDup_ListNoDup, List.seq_NoDup.
- intros r Hr. apply elem_of_seq in Hr. cbn in *. lia.
Qed.

Lemma settle_serving (set : list nat) (ts : list OffscreenRenderTask) (s r : nat) (env : Host)
  (m : t) :
(forall tk, tk ∈ ts -> live set tk) ->
Serving set ts s m -> r ∈ activeRenderers m ->
Serving set ts (S s) (fst (settle r env m))
/\ List.filter isCreate (snd (settle r env m))
   = (if s <? length ts - 2 then [EvCreate (2 + s) (2 + s)] else []).
Proof.
intros Hlive [Hcap Hset Hnext Hq Hact Hnd Hfr Hrun] Hr.
destruct (lookupRunning_active r m Hrun Hr) as [it0 Hlook].
rewrite (settle_running r env m it0 Hlook). cbn [fst snd].
pose proof (length_setDelete r _ Hnd Hr) as Hdel.
assert (Hs : s < length ts).
{ destruct (activeRenderers m); [now apply elem_of_nil in Hr|]. cbn [length] in Hact. lia. }
assert (Hnd' : NoDup (setDelete r (activeRenderers m))) by now apply NoDup_filter.
assert (Hfr' : forall x, x ∈ setDelete r (activeRenderers m) -> x < nextRenderer m).
{ intros x Hx. apply list_elem_of_filter in Hx as [_ Hx]. now apply Hfr. }
assert (Hrun' : map fst (filter (fun p => fst p ≠ r) (running m))
                = setDelete r (activeRenderers m)).
{ rewrite map_fst_filter, Hrun. reflexivity. }
rewrite app_assoc, List.filter_app.
rewrite filter_isCreate_settlement by now destruct (snd _).
cbn [app]. unfold processQueue. cbn [released queue].
destruct (s <? length ts - 2) eqn:E.
- apply Nat.ltb_lt in E.
  assert (Hmin : min s (length ts - 2) = s) by lia.
  assert (Hmin' : min (S s) (length ts - 2) = S s) by lia.
  rewrite Hmin in Hq, Hnext.
  assert (Hlk : itemsOf ts !! (2 + s) = Some {| task := default (task it0) (ts !! (2 + s));
                                                ticket := 2 + s |}).
  { unfold itemsOf. rewrite list_lookup_imap.
    destruct (ts !! (2 + s)) as [tk|] eqn:Etk; [reflexivity|].
    apply lookup_ge_None in Etk. lia. }
  rewrite Hq, (drop_S _ _ _ Hlk).
  rewrite processFrom_live.
  + cbn [fst snd List.filter isCreate ticket released nextRenderer].
    split; [|now rewrite Hnext].
    assert (Hnew : nextRenderer m ∉ setDelete r (activeRenderers m)).
    { intros H. apply Hfr' in H. lia. }
    split; cbn [started released maxConcurrent abortedSignals nextRenderer queue activeRenderers
                running]; rewrite ?(setAdd_fresh _ _ Hnew); try assumption.
    * rewrite Hmin'. lia.
    * rewrite Hmin'. reflexivity.
    * rewrite length_app. cbn [length]. lia.
    * apply NoDup_app. split; [exact Hnd'|].
      split; [|apply NoDup_singleton].
      intros x Hx Hx'. apply list_elem_of_singleton in Hx' as ->. contradiction.
    * intros x Hx.
      apply elem_of_app in Hx as [Hx|Hx]; [apply Hfr' in Hx; lia|].
      apply list_elem_of_singleton in Hx as ->. lia.
    * rewrite map_app, Hrun'. reflexivity.
  + cbn [released activeRenderers maxConcurrent]. lia.
  + apply live_isAborted. cbn [released abortedSignals task]. rewrite Hset.
    apply Hlive. destruct (ts !! (2 + s)) as [tk|] eqn:Etk.
    * cbn [default]. eapply list_elem_of_lookup_2. exact Etk.
    * apply lookup_ge_None in Etk. lia.
- apply Nat.ltb_ge in E.
  assert (Hmin : min s (length ts - 2) = length ts - 2) by lia.
  assert (Hmin' : min (S s) (length ts - 2) = length ts - 2) by lia.
  rewrite Hmin in Hq, Hnext.
  assert (Hnil : drop (2 + (length ts - 2)) (itemsOf ts) = []).
  { apply drop_ge. rewrite length_itemsOf. lia. }
  rewrite Hq, Hnil, processFrom_nil. cbn [fst snd List.filter]. split; [|reflexivity].
  split; cbn [withQueue released maxConcurrent abortedSignals nextRenderer queue activeRenderers
              running]; try assumption.
  + rewrite Hnext, Hmin'. reflexivity.
  + rewrite Hmin', Hnil. reflexivity.
  + lia.
Qed.

Lemma run_serving (set : list nat) (ts : list OffscreenRenderTask) (ss : list (nat * Host))
  (s : nat) (m : t) :
(forall tk, tk ∈ ts -> live set tk) ->
Serving set ts s m -> settling m ss ->
Serving set ts (s + length ss) (fst (run m (settlements ss)))
/\ List.filter isCreate (snd (run m (settlements ss)))
   = map (fun k => EvCreate k k)
         (seq (2 + min s (length ts - 2))
              (min (s + length ss) (length ts - 2) - min s (length ts - 2))).
Proof.
intros Hlive. revert s m. induction ss as [|[r env] ss IH]; intros s m Hserv Hsett.
- cbn [settlements map run fst snd length List.filter]. rewrite Nat.add_0_r, Nat.sub_diag.
  split; [exact Hserv|reflexivity].
- destruct Hsett as [Hr Hsett]. cbn [fst snd] in Hr, Hsett.
  cbn [settlements map run step fst snd].
  destruct (settle_serving set ts s r env m Hlive Hserv Hr) as [Hserv' Hcreate].
  destruct (settle r env m) as [m1 evs1]. cbn [fst snd] in *.
  destruct (IH (S s) m1 Hserv' Hsett) as [Hfin Hrest].
  fold (settlements ss). destruct (run m1 (settlements ss)) as [m2 evs2]. cbn [fst snd] in *.
  cbn [length]. replace (s + S (length ss)) with (S s + length ss) by lia.
  split; [exact Hfin|].
  rewrite List.filter_app, Hcreate, Hrest.
  destruct (s <? length ts - 2) eqn:E.
  + apply Nat.ltb_lt in E.
    replace (min s (length ts - 2)) with s by lia.
    replace (min (S s) (length ts - 2)) with (S s) by lia.
    replace (min (S s + length ss) (length ts - 2) - s)
      with (S (min (S s + length ss) (length ts - 2) - S s)) by lia.
    cbn [seq map app]. rewrite Nat.add_succ_r. reflexivity.
  + apply Nat.ltb_ge in E.
    replace (min s (length ts - 2)) with (length ts - 2) by lia.
    replace (min (S s) (length ts - 2)) with (length ts - 2) by lia.
    reflexivity.
Qed.

(** C2: in every run of a new manager the active set holds at most
    [maxConcurrent] = 2 renderers.  When more than two tasks whose signals
    are not aborted are submitted to a new manager, the submissions construct
    exactly two renderers, for the first two tasks; the others wait in
    submission order; whatever happens next, a renderer for one of those
    is constructed only in the step in which an active renderer settles and
    leaves the active set; and when active renderers settle one after the
    other, each settlement frees a slot and admits the task that has waited
    longest, on a new renderer, until none waits: [j] settlements construct
    renderers for the tickets 2, 3, ... below [2 + min j (N - 2)] in this
    order, the rest waits in submission order, and two renderers stay
    active until the queue is empty. *)
Theorem active_renderers_bounded (set : list nat) (tasks : list OffscreenRenderTask) :
2 < length tasks ->
(forall tk, tk ∈ tasks -> live set tk) ->
(forall set' cmds,
    length (activeRenderers (fst (run (create set') cmds)))
    <= maxConcurrent (fst (run (create set') cmds))
    /\ maxConcurrent (fst (run (create set') cmds)) = 2)
/\ let m := fst (run (create set) (map Submit tasks)) in
   List.filter isCreate (snd (run (create set) (map Submit tasks)))
   = [EvCreate 0 0; EvCreate 1 1]
   /\ activeRenderers m = [0; 1]
   /\ map ticket (queue m) = seq 2 (length tasks - 2)
   /\ (forall cmds c k r,
        2 <= k < length tasks ->
        EvCreate k r ∈ snd (step (fst (run m cmds)) c) ->
        exists r' env, c = Settle r' env /\ r' ∈ activeRenderers (fst (run m cmds)))
   /\ forall ss,
        settling m ss ->
        let admitted := min (length ss) (length tasks - 2) in
        List.filter isCreate (snd (run m (settlements ss)))
        = map (fun k => EvCreate k k) (seq 2 admitted)
        /\ map ticket (queue (fst (run m (settlements ss))))
           = seq (2 + admitted) (length tasks - 2 - admitted)
        /\ length (activeRenderers (fst (run m (settlements ss))))
           = min 2 (length tasks - length ss).
Proof.
intros Hlen Hlive. split.
{ intros set' cmds. split.
  - apply (Inv_run (create set') cmds (Inv_create set')).
  - apply (maxConcurrent_run (create set') cmds). }
rewrite create_filled, (run_submits set [] tasks Hlive). cbn [fst snd app length].
destruct tasks as [|t0 [|t1 rest]]; [simpl in Hlen; lia..|].
repeat split.
- cbn [length seq flat_map]. rewrite !List.filter_app.
  rewrite creations_submission by lia. reflexivity.
- unfold filled; simpl. now rewrite Nat.min_0_r.
- unfold filled; cbn [queue]. rewrite <- skipn_map, tickets_itemsOf, skipn_seq.
  reflexivity.
- intros cmds c k r Hk Hev.
  set (m := filled set (t0 :: t1 :: rest)) in *.
  assert (Hinv : Inv (fst (run m cmds))).
  { apply Inv_run. subst m. rewrite <- (app_nil_l (t0 :: t1 :: rest)).
    pose proof (run_submits set [] (t0 :: t1 :: rest) Hlive) as Hrun.
    pose proof (Inv_run (filled set []) (map Submit (t0 :: t1 :: rest)) (Inv_create set)) as H.
    now rewrite Hrun in H. }
  destruct (create_in_step _ c k r Hinv Hev)
    as [(tk & _ & ->) | (r' & env & -> & Hin & _)]; [|eauto].
  destruct (maxConcurrent_run m cmds) as [_ Hmono].
  subst m. simpl in Hmono, Hk. lia.
- destruct (run_serving set _ ss 0 _ Hlive (Serving_filled set _ Hlen) H) as [_ Hcreate].
  rewrite Hcreate. cbn [min Nat.add]. now rewrite Nat.sub_0_r.
- destruct (run_serving set _ ss 0 _ Hlive (Serving_filled set _ Hlen) H) as [Hserv _].
  rewrite (serving_queue _ _ _ _ Hserv), <- skipn_map, tickets_itemsOf, skipn_seq.
  cbn [Nat.add]. f_equal. cbn [length]. lia.
- destruct (run_serving set _ ss 0 _ Hlive (Serving_filled set _ Hlen) H) as [Hserv _].
  exact (serving_active _ _ _ _ Hserv).
Qed.

Lemma active_renderers_bounded_witness :
let tasks := [Fixtures.taskOf png_sequence (Some 0) Fixtures.itemC "pose";
              Fixtures.taskOf png_sequence (Some 0) Fixtures.itemC "run";
              Fixtures.taskOf png_sequence (Some 0) Fixtures.itemC "jump"] in
let m := fst (run (create []) (map Submit tasks)) in
let ss := [(1, Fixtures.quiet true); (0, Fixtures.quiet true)] in
activeRenderers m = [0; 1]
/\ map ticket (queue m) = [2]
/\ List.filter isCreate (snd (run m (settlements ss))) = [EvCreate 2 2]
/\ queue (fst (run m (settlements ss))) = []
/\ length (activeRenderers (fst (run m (settlements ss)))) = 1.
Proof.
intros tasks m ss.
destruct (active_renderers_bounded [] tasks) as (_ & _ & Hactive & Hqueue & _ & Hsettle).
- simpl; lia.
- intros tk _. unfold live. destruct (abortSignal tk); [|exact I].
  intros H. now apply elem_of_nil in H.
- destruct (Hsettle ss) as (Hcreate & Hrest & Hsize).
  + vm_compute. repeat split; repeat constructor.
  + split; [exact Hactive|]. split; [exact Hqueue|]. split; [exact Hcreate|].
    split; [|exact Hsize]. apply (map_eq_nil ticket). exact Hrest.
Defined.

(** *** Cancellation in the frame loop *)

(** C5, as stated, fails: a PNG job of ten frames whose signal is set when
    iteration 3 polls it renders and captures three frames and is rejected
    with an abort error; the renderer is stopped and disposed, but the image
    exporter that was started never receives [stop]. *)
Lemma cancelled_job_leaves_backend_running :
let task := Fixtures.taskOf png_sequence (Some 7) Fixtures.itemA "idle" in
let evs := snd (run (create []) [Submit task; Settle 0 (Fixtures.abortingAt 5)]) in
let calls := flat_map (fun ev => match ev with EvCall 0 c => [c] | _ => [] end) evs in
List.filter isSettlement evs = [EvReject 0 AbortError; EvDispose 0]
/\ length (List.filter isRender calls) = 3
/\ List.filter isBackendCall calls
   = BackendStart (ImageSequenceExporter true)
     :: map Capture (OffscreenRenderer.stills calls)
/\ length (OffscreenRenderer.stills calls) = 3
/\ existsb isBackendStop calls = false.
Proof.
cbv zeta. repeat match goal with |- _ /\ _ => split end; vm_compute; reflexivity.
Qed.

(** C5, amended: when the job on an active renderer finds its signal set at
    the poll of iteration [k] (and not before), its calls are the load and the
    configuration, the backend's start, [k] iterations of one
    [updateAndRender] and one capture each, and the renderer's [stop]: no
    call follows the poll that saw the flag, and the backend's [stop] is
    not among them.  The item is rejected with an abort error and the renderer
    is disposed.  On every exit of every job, the renderer's [stop] ends the
    calls of a job that got past its first poll, and the scheduler disposes
    the renderer after the last call of the job. *)
Theorem cancelled_job_unwinds (m : t) (r : nat) (it : Item) (env : Host)
  (anims : list Animation) (a : Animation) (k : nat) :
lookupRunning r m = Some it ->
skeleton (files (task it)) ≠ None -> atlas (files (task it)) ≠ None ->
content (files (task it)) = Some anims ->
SpineRenderer.findAnimation (animation (task it)) anims = Some a ->
(format (task it) = mp4_h264 -> webCodecs env = true) ->
startThrows env = false ->
(forall j, j < k -> captureThrows env j = false) ->
k < iterations (OffscreenRenderer.totalFrames
                  (OffscreenRenderer.recordDuration (duration (task it))
                     (OffscreenRenderer.animDuration (ready (task it))))
                  (fps (task it))) ->
(forall j, j < 2 + k -> OffscreenRenderer.aborted env (task it) j = false) ->
OffscreenRenderer.aborted env (task it) (2 + k) = true ->
let b := OffscreenRenderer.backendOf (format (task it)) in
let calls :=
  Load (files (task it))
  :: snd (OffscreenRenderer.configure (task it)
            (fst (SpineRenderer.load (files (task it)) OffscreenRenderer.create)))
  ++ BackendStart b
  :: flat_map (frameStep b (fps (task it)) (ready (task it))) (seq 0 k)
  ++ [RendererStop] in
(exists evs,
    snd (settle r env m)
    = map (EvCall r) calls ++ [EvReject (ticket it) AbortError; EvDispose r] ++ evs
    /\ (forall c, EvCall r c ∉ evs))
/\ forallb (fun c => negb (isBackendStop c)) calls = true
/\ forall env',
     let job := OffscreenRenderer.renderToVideo env' (task it) OffscreenRenderer.create in
     (exists evs,
         snd (settle r env' m)
         = map (EvCall r) (snd (fst job))
           ++ [outcomeEvent (ticket it) (snd job); EvDispose r] ++ evs
         /\ (forall c, EvCall r c ∉ evs))
     /\ (snd (fst job) = [] \/ exists cs, snd (fst job) = cs ++ [RendererStop]).
Proof.
intros Hrun Hs Ha Hc Hf Hmp4 Hst Hcap Hk Hbefore Hat b calls.
assert (Hjob : OffscreenRenderer.renderToVideo env (task it) OffscreenRenderer.create
               = (SpineRenderer.stop (Nat.iter k (advance (fps (task it))) (ready (task it))),
                  calls, inl AbortError)).
{ rewrite (renderToVideo_reaches_record env (task it) anims a Hs Ha Hc Hf)
    by (apply Hbefore; lia).
  rewrite (record_capture env (task it) _ Hmp4).
  rewrite (capture_aborted env (task it) _ _ k Hst Hk); [reflexivity| |exact Hat].
  intros j Hj. split; [apply Hbefore; lia|].
  unfold OffscreenRenderer.captureFails. subst b.
  destruct (OffscreenRenderer.backendOf (format (task it))); auto. }
split; [|split].
- exists (snd (processQueue (released r m))). split.
  + rewrite (settle_running r env m it Hrun). cbn zeta. now rewrite Hjob.
  + intros c. apply processQueue_no_call.
- subst calls. cbn [forallb]. rewrite forallb_app. cbn [forallb].
  rewrite forallb_app, frameStep_no_stop. cbn [forallb isBackendStop negb andb].
  rewrite andb_true_r. apply forallb_forall. intros c Hin.
  apply list_elem_of_In in Hin.
  assert (Hq : isFrameCall c = false).
  { apply (configure_calls_quiet (task it)
             (fst (SpineRenderer.load (files (task it)) OffscreenRenderer.create))).
    apply elem_of_cons. now right. }
  now destruct c.
- intros env' job. split.
  + exists (snd (processQueue (released r m))). split.
    * now rewrite (settle_running r env' m it Hrun).
    * intros c. apply processQueue_no_call.
  + destruct (renderToVideo_stops env' (task it)) as [[_ Hnone] | [_ (cs & Hcs & _)]].
    * left. subst job. now rewrite Hnone.
    * right. now exists cs.
Qed.

Lemma cancelled_job_unwinds_witness :
let task := Fixtures.taskOf png_sequence (Some 7) Fixtures.itemA "idle" in
let m := fst (run (create []) [Submit task]) in
exists evs, snd (settle 0 (Fixtures.abortingAt 5) m)
            = map (EvCall 0)
                (Load (files task)
                 :: snd (OffscreenRenderer.configure task
                           (fst (SpineRenderer.load (files task) OffscreenRenderer.create)))
                 ++ BackendStart (ImageSequenceExporter true)
                 :: flat_map (frameStep (ImageSequenceExporter true) (fps task) (ready task))
                             (seq 0 3)
                 ++ [RendererStop])
              ++ [EvReject 0 AbortError; EvDispose 0] ++ evs.
Proof.
intros task m.
destruct (cancelled_job_unwinds m 0 {| task := task; ticket := 0 |} (Fixtures.abortingAt 5)
            (Fixtures.anims [("idle", 1 # 1); ("walk", 3 # 2)])
            {| anim_name := "idle"; anim_duration := Num (1 # 1) |} 3)
  as [(evs & Hevs & _) _].
- reflexivity.
- discriminate.
- discriminate.
- reflexivity.
- reflexivity.
- discriminate.
- reflexivity.
- reflexivity.
- vm_compute. lia.
- intros j Hj. simpl. apply Nat.leb_gt. lia.
- reflexivity.
- exists evs. exact Hevs.
Defined.

(** *** A job on a host without WebCodecs *)

Lemma run_two_settle (set : list nat) (t1 t2 : OffscreenRenderTask) (env1 env2 : Host)
  (first second : nat) :
live set t1 -> live set t2 ->
(first = 0 /\ second = 1) \/ (first = 1 /\ second = 0) ->
let envOf := fun r => if r =? 0 then env1 else env2 in
let taskOf := fun r => if r =? 0 then t1 else t2 in
let job := fun r => OffscreenRenderer.renderToVideo (envOf r) (taskOf r) OffscreenRenderer.create in
snd (run (create set) [Submit t1; Submit t2; Settle first (envOf first);
                       Settle second (envOf second)])
= [EvQueued 0; EvCreate 0 0; EvQueued 1; EvCreate 1 1]
  ++ map (EvCall first) (snd (fst (job first)))
  ++ [outcomeEvent first (snd (job first)); EvDispose first]
  ++ map (EvCall second) (snd (fst (job second)))
  ++ [outcomeEvent second (snd (job second)); EvDispose second].
Proof.
intros Hl1 Hl2 Horder envOf taskOf job.
change [Submit t1; Submit t2; Settle first (envOf first); Settle second (envOf second)]
  with (map Submit [t1; t2] ++ [Settle first (envOf first); Settle second (envOf second)]).
rewrite run_app, create_filled, run_submits.
2:{ intros tk Htk. apply elem_of_cons in Htk as [->|Htk]; [exact Hl1|].
    apply list_elem_of_singleton in Htk as ->. exact Hl2. }
cbn [fst snd app length seq flat_map submission Nat.ltb Nat.leb].
destruct Horder as [[-> ->] | [-> ->]]; subst envOf taskOf job; cbn [Nat.eqb].
- cbn [run step].
  erewrite (settle_running 0 env1); [|reflexivity].
  cbn [fst snd].
  erewrite (settle_running 1 env2); [|reflexivity].
  cbn [fst snd ticket task]. rewrite !app_nil_r.
  rewrite <- !app_assoc. reflexivity.
- cbn [run step].
  erewrite (settle_running 1 env2); [|reflexivity].
  cbn [fst snd].
  erewrite (settle_running 0 env1); [|reflexivity].
  cbn [fst snd ticket task]. rewrite !app_nil_r.
  rewrite <- !app_assoc. reflexivity.
Qed.

(** C8: every mp4-h264 job on a host without WebCodecs fails, and none of
    its calls renders a frame or starts, feeds or stops a backend; when the
    job reaches the choice of its backend (its asset loads and holds the
    animation, and its signal is not set) the error is the unsupported-encoder
    error.  When the job runs next to a second job in the same manager, in
    either order of settlement the events of the second job are the calls and
    the outcome of that job run alone, so a sibling that succeeds alone
    succeeds here. *)
Theorem unsupported_encoder_is_confined (set : list nat) (t1 t2 : OffscreenRenderTask)
  (env1 env2 : Host) :
format t1 = mp4_h264 -> webCodecs env1 = false ->
let job1 := OffscreenRenderer.renderToVideo env1 t1 OffscreenRenderer.create in
let job2 := OffscreenRenderer.renderToVideo env2 t2 OffscreenRenderer.create in
(exists e, snd job1 = inl e)
/\ (forall c, c ∈ snd (fst job1) -> isFrameCall c = false)
/\ (forall anims a,
      skeleton (files t1) ≠ None -> atlas (files t1) ≠ None ->
      content (files t1) = Some anims ->
      SpineRenderer.findAnimation (animation t1) anims = Some a ->
      OffscreenRenderer.aborted env1 t1 0 = false ->
      OffscreenRenderer.aborted env1 t1 1 = false ->
      snd job1 = inl WebCodecsUnsupported)
/\ (live set t1 -> live set t2 ->
    snd (run (create set) [Submit t1; Submit t2; Settle 0 env1; Settle 1 env2])
    = [EvQueued 0; EvCreate 0 0; EvQueued 1; EvCreate 1 1]
      ++ map (EvCall 0) (snd (fst job1)) ++ [outcomeEvent 0 (snd job1); EvDispose 0]
      ++ map (EvCall 1) (snd (fst job2)) ++ [outcomeEvent 1 (snd job2); EvDispose 1]
    /\ snd (run (create set) [Submit t1; Submit t2; Settle 1 env2; Settle 0 env1])
       = [EvQueued 0; EvCreate 0 0; EvQueued 1; EvCreate 1 1]
         ++ map (EvCall 1) (snd (fst job2)) ++ [outcomeEvent 1 (snd job2); EvDispose 1]
         ++ map (EvCall 0) (snd (fst job1)) ++ [outcomeEvent 0 (snd job1); EvDispose 0]).
Proof.
intros Hfmt Hwc job1 job2.
destruct (renderToVideo_unsupported env1 t1 OffscreenRenderer.create Hfmt Hwc) as [Herr Hquiet].
split; [exact Herr|]. split; [exact Hquiet|]. split.
{ intros anims a Hs Ha Hc Hf H0 H1.
  exact (renderToVideo_unsupported_error env1 t1 anims a Hfmt Hwc Hs Ha Hc Hf H0 H1). }
intros Hl1 Hl2. split.
- pose proof (run_two_settle set t1 t2 env1 env2 0 1 Hl1 Hl2
                (or_introl (conj eq_refl eq_refl))) as H.
  cbv zeta in H. cbn [Nat.eqb] in H. exact H.
- pose proof (run_two_settle set t1 t2 env1 env2 1 0 Hl1 Hl2
                (or_intror (conj eq_refl eq_refl))) as H.
  cbv zeta in H. cbn [Nat.eqb] in H. exact H.
Qed.

Lemma unsupported_encoder_is_confined_witness :
let video := Fixtures.taskOf mp4_h264 None Fixtures.itemA "idle" in
let images := Fixtures.taskOf png_sequence None Fixtures.itemA "walk" in
let host := Fixtures.quiet false in
exists stills,
  snd (OffscreenRenderer.renderToVideo host images OffscreenRenderer.create)
  = inr (ImageArchive true stills)
  /\ List.filter isSettlement
       (snd (run (create []) [Submit video; Submit images; Settle 0 host; Settle 1 host]))
     = [EvReject 0 WebCodecsUnsupported; EvDispose 0;
        EvResolve 1 (ImageArchive true stills); EvDispose 1].
Proof.
intros video images host.
destruct (unsupported_encoder_is_confined [] video images host host eq_refl eq_refl)
  as (_ & _ & _ & Hrun).
destruct (Hrun I I) as [Hfirst _].
eexists. split; [vm_compute; reflexivity|].
rewrite Hfirst. vm_compute. reflexivity.
Defined.

End Scheduler.

(** ** The batch export *)

Section BatchExport.

Import ExportManager ExportProcessor.

(** C4 on the code: asset A loads with the animations idle and walk, the
    scan of asset B fails, both jobs succeed.  The run returns 2, two
    renderers are constructed, the archive has the two entries and is
    downloaded, and A ends [completed]; but the last pass over the selected
    items reports [completed] for B as well, over its [failed]. *)
Theorem scan_failure_is_overwritten :
let run := processExportWithOffscreen [Fixtures.itemA; Fixtures.itemB]
             (Fixtures.config png_sequence) None None
             [JobSettles 0 (Fixtures.quiet true); JobSettles 1 (Fixtures.quiet true)] in
fst run = Returned 2
/\ List.filter isCreate (snd run) = [EvCreate 0 0; EvCreate 1 1]
/\ flat_map zipped (snd run) = ["hero_idle.zip"; "hero_walk.zip"]
/\ List.filter (fun ev => match ev with EvDownload _ => true | _ => false end) (snd run)
   = [EvDownload 2]
/\ List.filter (statusOf "B") (snd run)
   = [EvStatus "B" waiting; EvStatus "B" failed; EvStatus "B" completed]
/\ statusBoard (snd run) !! "A" = Some completed
/\ statusBoard (snd run) !! "B" = Some completed.
Proof.
cbv zeta. repeat match goal with |- _ /\ _ => split end; vm_compute; reflexivity.
Qed.

(** *** The submission phase *)

Lemma submitAll_filled (signal : option nat) (set : list nat) (totalTasks : nat)
  (jobs : list Job) (ts : list OffscreenRenderTask) (c : nat) (z : gmap string Blob)
  (aw : list (nat * Job)) :
clear signal set ->
(forall j, j ∈ jobs -> abortSignal (job_task j) = signal) ->
submitAll signal totalTasks jobs (mk (filled set ts) c z aw)
= (mk (filled set (ts ++ map job_task jobs)) c z (aw ++ ticketed (length ts) jobs),
   submissionLog c totalTasks (length ts) jobs).
Proof.
intros Hclear. revert ts aw; induction jobs as [|j jobs IH]; intros ts aw Hsig.
- cbn [submitAll map ticketed submissionLog]. now rewrite !app_nil_r.
- cbn [submitAll].
  assert (Hnot : isAborted signal (mk (filled set ts) c z aw) = false).
  { unfold isAborted, clear in *. destruct signal; [|reflexivity].
    now apply bool_decide_eq_false_2. }
  rewrite Hnot. cbn [manager completedJobs zip awaiting].
  rewrite exportTask_filled.
  2:{ unfold live. rewrite (Hsig j) by now left. exact Hclear. }
  rewrite IH by (intros x Hx; apply Hsig; now right).
  cbn [map ticketed submissionLog ExportManager.nextTicket filled].
  rewrite length_app, <- !app_assoc. cbn [length app].
  now rewrite Nat.add_1_r.
Qed.

Lemma scan_signal (config : ExportConfig) (signal scanAbort : option nat) (k : nat)
  (items : list AnimationItem) (temp : SpineRenderer.t) (j : Job) :
j ∈ fst (scan config signal scanAbort k items temp) -> abortSignal (job_task j) = signal.
Proof.
revert k temp; induction items as [|it items IH]; intros k temp; cbn [scan].
- intros H. now apply elem_of_nil in H.
- destruct (abortedInScan signal scanAbort k); [intros H; now apply elem_of_nil in H|].
  destruct (SpineRenderer.load (item_files it) temp) as [temp' loaded].
  specialize (IH (S k) temp').
  destruct (scan config signal scanAbort (S k) items temp') as [jobs evs].
  destruct loaded as [e|animations]; cbn [fst] in *; [exact IH|].
  intros H. apply elem_of_app in H as [H|H]; [|now apply IH].
  apply list_elem_of_fmap in H as (a & -> & _). reflexivity.
Qed.

(** *** What is reported outside the submission phase *)

Lemma scan_events (config : ExportConfig) (signal scanAbort : option nat) (k : nat)
  (items : list AnimationItem) (temp : SpineRenderer.t) (ev : Event) :
ev ∈ snd (scan config signal scanAbort k items temp) ->
exists i, ev = EvStatus i failed.
Proof.
revert k temp; induction items as [|it items IH]; intros k temp; cbn [scan].
- intros H. now apply elem_of_nil in H.
- destruct (abortedInScan signal scanAbort k); [intros H; now apply elem_of_nil in H|].
  destruct (SpineRenderer.load (item_files it) temp) as [temp' loaded].
  specialize (IH (S k) temp').
  destruct (scan config signal scanAbort (S k) items temp') as [jobs evs].
  destruct loaded as [e|animations]; cbn [snd] in *; [|exact IH].
  intros H. apply elem_of_cons in H as [->|H]; [now eexists|now apply IH].
Qed.

Lemma resume_events (config : ExportConfig) (signal : option nat) (totalTasks : nat)
  (st : t) (ev0 ev : Event) :
ev ∈ snd (resume config signal totalTasks st ev0) -> quietEvent ev.
Proof.
unfold resume.
destruct ev0 as [i s|c tot n|k|k r|r c|tk blob|tk e|r|f b|n];
  try (intros H; now apply elem_of_nil in H).
- destruct (lookupAwaiting tk st); [|intros H; now apply elem_of_nil in H].
  destruct (isAborted signal st); cbn [snd]; [intros H; now apply elem_of_nil in H|].
  intros H. apply elem_of_cons in H as [->|H]; [reflexivity|].
  apply list_elem_of_singleton in H as ->. reflexivity.
- destruct (lookupAwaiting tk st); [|intros H; now apply elem_of_nil in H].
  cbn [snd]. intros H. apply list_elem_of_singleton in H as ->. reflexivity.
Qed.

Lemma resumeAll_events (config : ExportConfig) (signal : option nat) (totalTasks : nat)
  (evs : list Event) (st : t) (ev : Event) :
ev ∈ snd (resumeAll config signal totalTasks evs st) -> quietEvent ev.
Proof.
revert st; induction evs as [|ev0 evs IH]; intros st; cbn [resumeAll].
- intros H. now apply elem_of_nil in H.
- pose proof (resume_events config signal totalTasks st ev0 ev) as H0.
  destruct (resume config signal totalTasks st ev0) as [st1 evs1].
  specialize (IH st1).
  destruct (resumeAll config signal totalTasks evs st1) as [st2 evs2]. cbn [snd] in *.
  intros H. apply elem_of_app in H as [H|H]; auto.
Qed.

Lemma settle_events (r : nat) (env : Host) (m : ExportManager.t) (ev : Event) :
ev ∈ snd (settle r env m) -> quietEvent ev.
Proof.
unfold settle. destruct (lookupRunning r m) as [it|]; [|intros H; now apply elem_of_nil in H].
destruct (OffscreenRenderer.renderToVideo env (ExportManager.task it) OffscreenRenderer.create)
  as [[r' calls] res].
pose proof (processFrom_events
              (ExportManager.mk (maxConcurrent m) (setDelete r (activeRenderers m)) (queue m)
                 (filter (fun p => fst p ≠ r) (running m))
                 (nextRenderer m) (ExportManager.nextTicket m) (abortedSignals m))
              (queue m) ev) as Hq.
unfold processQueue. cbn [queue] in *.
destruct (processFrom _ (queue m)) as [m2 evs]. cbn [snd] in *.
intros H. apply elem_of_app in H as [H|H].
{ apply list_elem_of_fmap in H as (c & -> & _). reflexivity. }
apply elem_of_cons in H as [->|H]; [now destruct res|].
apply elem_of_cons in H as [->|H]; [reflexivity|].
destruct (Hq H) as [(it' & _ & ->) | (it' & _ & -> & _)]; reflexivity.
Qed.

Lemma awaitAll_events (config : ExportConfig) (signal : option nat) (totalTasks : nat)
  (acts : list Action) (st : t) (ev : Event) :
ev ∈ snd (awaitAll config signal totalTasks acts st) -> quietEvent ev.
Proof.
revert st; induction acts as [|a acts IH]; intros st; cbn [awaitAll].
- destruct (awaiting st); intros H; now apply elem_of_nil in H.
- destruct (awaiting st) as [|p aw]; [intros H; now apply elem_of_nil in H|].
  assert (Hact : forall e, e ∈ snd (act config signal totalTasks a st) -> quietEvent e).
  { unfold act. destruct a as [|r env].
    - destruct signal; intros e H; now apply elem_of_nil in H.
    - pose proof (settle_events r env (manager st)) as Hs.
      destruct (settle r env (manager st)) as [m mevs].
      pose proof (resumeAll_events config signal totalTasks mevs
                    (mk m (completedJobs st) (zip st) (awaiting st))) as Hr.
      destruct (resumeAll config signal totalTasks mevs _) as [st1 evs]. cbn [snd] in *.
      intros e H. apply elem_of_app in H as [H|H]; auto. }
  destruct (act config signal totalTasks a st) as [st1 evs1].
  specialize (IH st1).
  destruct (awaitAll config signal totalTasks acts st1) as [st2 evs2]. cbn [snd] in *.
  intros H. apply elem_of_app in H as [H|H]; auto.
Qed.

Lemma finish_events (selectedItems : list AnimationItem) (signal : option nat)
  (totalTasks : nat) (st : t) (ev : Event) :
ev ∈ snd (finish selectedItems signal totalTasks st) -> quietEvent ev.
Proof.
unfold finish. destruct (awaiting st); [|intros H; now apply elem_of_nil in H].
destruct (isAborted signal st); cbn [snd]; [intros H; now apply elem_of_nil in H|].
intros H. apply elem_of_app in H as [H|H].
- destruct (bool_decide (0 < completedJobs st)); [|now apply elem_of_nil in H].
  apply elem_of_cons in H as [->|H]; [reflexivity|].
  apply list_elem_of_singleton in H as ->. reflexivity.
- apply list_elem_of_fmap in H as (it & -> & _). reflexivity.
Qed.

Lemma resumeAll_idle (config : ExportConfig) (signal : option nat) (totalTasks : nat)
  (evs : list Event) (st : t) :
Forall (fun ev => isSettlement ev = false) evs ->
resumeAll config signal totalTasks evs st = (st, []).
Proof.
induction 1 as [|ev evs Hev _ IH]; [reflexivity|].
cbn [resumeAll]. destruct ev; try discriminate; cbn [resume]; now rewrite IH.
Qed.

Lemma submissionLog_idle (c n k : nat) (jobs : list Job) :
Forall (fun ev => isSettlement ev = false) (submissionLog c n k jobs).
Proof.
revert k; induction jobs as [|j jobs IH]; intros k; cbn [submissionLog app].
- constructor.
- repeat constructor. unfold submission. destruct (k <? 2); repeat constructor; apply IH.
Qed.

(** C10, as stated, fails: asset C yields three jobs, more than
    [maxConcurrent], and the scan of asset B fails.  When the three jobs are
    submitted and the third still waits, C has been reported [exporting] three
    times, but B, which is selected too, never is: its status stays
    [failed]. *)
Lemma failed_scan_is_never_exporting :
let log := snd (processExportWithOffscreen [Fixtures.itemC; Fixtures.itemB]
                  (Fixtures.config png_sequence) (Some 0) None []) in
List.filter (fun ev => match ev with EvQueued _ => true | _ => false end) log
= [EvQueued 0; EvQueued 1; EvQueued 2]
/\ List.filter isCreate log = [EvCreate 0 0; EvCreate 1 1]
/\ List.filter isExporting log
   = [EvStatus "C" exporting; EvStatus "C" exporting; EvStatus "C" exporting]
/\ List.filter (statusOf "B") log = [EvStatus "B" waiting; EvStatus "B" failed]
/\ statusBoard log !! "B" = Some failed.
Proof.
cbv zeta. repeat match goal with |- _ /\ _ => split end; vm_compute; reflexivity.
Qed.

(** C10, amended: when the signal of the run is not set during the scan, the
    jobs found by the scan are submitted in one block of events: for each
    job in turn the start progress event, the [exporting] status of its
    asset, its entry into the queue and, for the first two jobs only, the
    construction of its renderer.  At the end of that block two renderers at
    most are active and all the other jobs wait in the queue.  No [exporting]
    status is reported outside that block, so each asset with a job is
    reported [exporting] before the renderer of any of its jobs is
    constructed, and an asset without a job never is. *)
Theorem exporting_reported_at_submission (selectedItems : list AnimationItem)
  (config : ExportConfig) (signal : option nat) (acts : list Action) :
let jobs := fst (scan config signal None 0 selectedItems tempRenderer) in
let total := length jobs in
let st := fst (submitAll signal total jobs (start signal None)) in
snd (submitAll signal total jobs (start signal None)) = submissionLog 0 total 0 jobs
/\ activeRenderers (manager st) = seq 0 (min total 2)
/\ map ticket (queue (manager st)) = seq 2 (total - 2)
/\ exists before after,
     snd (processExportWithOffscreen selectedItems config signal None acts)
     = before ++ submissionLog 0 total 0 jobs ++ after
     /\ (forall ev, ev ∈ before -> isExporting ev = false /\ isCreate ev = false)
     /\ (forall ev, ev ∈ after -> isExporting ev = false).
Proof.
cbv zeta.
pose proof (scan_events config signal None 0 selectedItems tempRenderer) as Hscan.
pose proof (scan_signal config signal None 0 selectedItems tempRenderer) as Hsig.
unfold processExportWithOffscreen. fold tempRenderer.
destruct (scan config signal None 0 selectedItems tempRenderer) as [jobs evs1].
cbn [fst snd] in *.
assert (Hstart : start signal None = mk (filled [] []) 0 ∅ []) by now destruct signal.
assert (Hsub : submitAll signal (length jobs) jobs (start signal None)
               = (mk (filled [] (map job_task jobs)) 0 ∅ (ticketed 0 jobs),
                  submissionLog 0 (length jobs) 0 jobs)).
{ rewrite Hstart.
  rewrite (submitAll_filled signal [] (length jobs) jobs [] 0 ∅ []); [reflexivity| |].
  - destruct signal; [|exact I]. intros H. now apply elem_of_nil in H.
  - intros j Hj. now apply Hsig. }
rewrite Hsub. cbn [fst snd manager].
split; [reflexivity|]. split.
{ unfold filled; cbn [activeRenderers]. now rewrite length_map. }
split.
{ unfold filled; cbn [queue]. rewrite <- skipn_map, tickets_itemsOf, skipn_seq.
  now rewrite length_map. }
assert (Hbefore : forall ev,
          ev ∈ map (fun it => EvStatus (id it) waiting) selectedItems ++ evs1 ->
          isExporting ev = false /\ isCreate ev = false).
{ intros ev H. apply elem_of_app in H as [H|H].
  - apply list_elem_of_fmap in H as (it & -> & _). now split.
  - destruct (Hscan ev H) as [i ->]. now split. }
destruct (length jobs =? 0) eqn:Hzero.
- apply Nat.eqb_eq in Hzero. destruct jobs; [|discriminate].
  exists (map (fun it => EvStatus (id it) waiting) selectedItems ++ evs1), [].
  cbn [submissionLog app fst snd]. rewrite app_nil_r.
  split; [reflexivity|]. split; [exact Hbefore|].
  intros ev H. now apply elem_of_nil in H.
- rewrite (resumeAll_idle config signal (length jobs) _ _ (submissionLog_idle 0 _ 0 jobs)).
  pose proof (awaitAll_events config signal (length jobs) acts
                (mk (filled [] (map job_task jobs)) 0 ∅ (ticketed 0 jobs))) as Hawait.
  destruct (awaitAll config signal (length jobs) acts _) as [st3 evs5].
  pose proof (finish_events selectedItems signal (length jobs) st3) as Hfinish.
  destruct (finish selectedItems signal (length jobs) st3) as [out evs6].
  cbn [fst snd] in *.
  exists (map (fun it => EvStatus (id it) waiting) selectedItems ++ evs1
          ++ [EvProgress 0 (length jobs) "准备导出..."]), (evs5 ++ evs6).
  split; [|split].
  + cbn [app]. now rewrite <- !app_assoc.
  + intros ev H. rewrite app_assoc in H. apply elem_of_app in H as [H|H]; [now apply Hbefore|].
    apply list_elem_of_singleton in H as ->. now split.
  + intros ev H. apply elem_of_app in H as [H|H]; [now apply Hawait|now apply Hfinish].
Qed.

End BatchExport.

(** ** More on the render job *)

Section RenderJobEdges.

Import SpineRenderer OffscreenRenderer.

(** *** A frame rate of zero *)

Lemma iterations_falsy_fps (d f : jsnum) : truthy f = false -> iterations (totalFrames d f) = 0.
Proof.
intros Hf. destruct f as [|q]; destruct d as [|a]; try reflexivity.
cbn [truthy] in Hf. apply negb_false_iff, Qeq_bool_iff in Hf.
unfold totalFrames, mul.
assert (H : (a * q == 0)%Q) by (rewrite Hf; ring).
now rewrite (double_zero _ H).
Qed.

Lemma capture_empty (env : Host) (task : OffscreenRenderTask) (b : Backend) (r : t) :
iterations (totalFrames (recordDuration (duration task) (animDuration r)) (fps task)) = 0 ->
startThrows env = false -> stopThrows env = false ->
capture env task b r
= (stop r, [BackendStart b; BackendStop b; RendererStop], inr (payload b [])).
Proof.
intros Hn Hst Hsp. unfold capture. rewrite Hn, Hst. cbn [frameLoop]. now rewrite Hsp.
Qed.

(** X1: a job whose frame rate is 0 (what the frame-rate field gives when it
    is cleared) or [NaN] does not fail: no frame is rendered, the backend is
    started and stopped at once, and the promise resolves with an export that
    holds no frame. *)
Theorem renderToVideo_without_frame_rate (env : Host) (task : OffscreenRenderTask)
  (anims : list Animation) (a : Animation) :
skeleton (files task) ≠ None -> atlas (files task) ≠ None ->
content (files task) = Some anims ->
findAnimation (animation task) anims = Some a ->
aborted env task 0 = false -> aborted env task 1 = false ->
startThrows env = false -> stopThrows env = false ->
(format task = mp4_h264 -> webCodecs env = true) ->
truthy (fps task) = false ->
let run := renderToVideo env task create in
let b := backendOf (format task) in
snd run = inr (payload b [])
/\ payload b [] = match b with
                  | ImageSequenceExporter png => ImageArchive png []
                  | MP4Recorder => Mp4File []
                  | CanvasRecorder f => StreamFile f
                  end
/\ List.filter isFrameCall (snd (fst run)) = [BackendStart b; BackendStop b].
Proof.
intros Hs Ha Hc Hf H0 H1 Hst Hsp Hw Hfps run b. subst run.
rewrite (renderToVideo_reaches_record env task anims a Hs Ha Hc Hf H0 H1).
rewrite (record_capture env task _ Hw). fold b.
rewrite (capture_empty env task b _ (iterations_falsy_fps _ _ Hfps) Hst Hsp).
cbn [prepend fst snd]. split; [reflexivity|]. split; [now destruct b|].
assert (Hq : forall cs, (forall c, c ∈ cs -> isFrameCall c = false) -> List.filter isFrameCall cs = []).
{ induction cs as [|c cs IH]; intros H; [reflexivity|]. cbn [List.filter].
  rewrite (H c) by now left. apply IH. intros c' Hc'. apply H. now right. }
change (Load (files task) :: ?l ++ ?k) with ((Load (files task) :: l) ++ k).
rewrite List.filter_app, Hq.
- reflexivity.
- intros c Hc'. eapply configure_calls_quiet. exact Hc'.
Qed.

Lemma renderToVideo_without_frame_rate_witness :
let task := Fixtures.taskOf png_sequence None Fixtures.itemA "idle" in
let still := {| assetName := assetName task; animation := animation task; files := files task;
                width := width task; height := height task; fps := ofZ 0;
                format := format task; duration := duration task;
                backgroundColor := backgroundColor task; abortSignal := abortSignal task |} in
snd (renderToVideo (Fixtures.quiet true) still create) = inr (ImageArchive true []).
Proof.
cbv zeta.
refine (proj1 (renderToVideo_without_frame_rate (Fixtures.quiet true) _
                 (Fixtures.anims [("idle", 1 # 1); ("walk", 3 # 2)])
                 {| anim_name := "idle"; anim_duration := Num (1 # 1) |}
                 _ _ _ _ _ _ _ _ _ _)); try reflexivity; try discriminate.
Defined.

(** *** The export covers the duration *)



End RenderJobEdges.

(** ** More on the background colour *)

Section BackgroundColorDecoding.

Import SpineRenderer OffscreenRenderer.

Lemma digit16_range (c : ascii) (v : Z) : digit16 c = Some v -> (0 <= v < 16)%Z.
Proof.
unfold digit16. generalize (Z.of_nat (nat_of_ascii c)). intros n.
destruct ((48 <=? n)%Z && (n <=? 57)%Z) eqn:E1.
{ intros [= <-]. lia. }
destruct ((97 <=? n)%Z && (n <=? 102)%Z) eqn:E2.
{ intros [= <-]. lia. }
destruct ((65 <=? n)%Z && (n <=? 70)%Z) eqn:E3.
{ intros [= <-]. lia. }
discriminate.
Qed.

Lemma digit16_plain (c : ascii) (v : Z) (s : string) :
digit16 c = Some v ->
trimStart (String c s) = String c s /\ stripSign (String c s) = (1%Z, String c s).
Proof.
destruct c as [[] [] [] [] [] [] [] []]; vm_compute; intros H; try discriminate H;
  split; reflexivity.
Qed.

Lemma digit16_no_prefix (c1 c2 : ascii) (v2 : Z) (s : string) :
digit16 c2 = Some v2 ->
stripPrefix (String c1 (String c2 s)) = String c1 (String c2 s).
Proof.
intros H2.
destruct c1 as [[] [] [] [] [] [] [] []]; try reflexivity.
destruct c2 as [[] [] [] [] [] [] [] []]; vm_compute in H2; try discriminate H2; reflexivity.
Qed.

Lemma parseInt16_pair (c1 c2 : ascii) (v1 v2 : Z) :
digit16 c1 = Some v1 -> digit16 c2 = Some v2 ->
parseInt16 (String c1 (String c2 "")) = ofZ (16 * v1 + v2).
Proof.
intros H1 H2. unfold parseInt16.
destruct (digit16_plain c1 v1 (String c2 "") H1) as [-> ->].
rewrite (digit16_no_prefix c1 c2 v2 "" H2).
cbn [digitPrefix]. rewrite H1, H2. unfold mathInt. cbn [fold_left].
f_equal. ring.
Qed.

Lemma channel_pair (c1 c2 : ascii) (v1 v2 : Z) :
digit16 c1 = Some v1 -> digit16 c2 = Some v2 ->
div (parseInt16 (String c1 (String c2 ""))) (ofZ 255) = channel v1 v2
/\ unitRange (channel v1 v2).
Proof.
intros H1 H2. rewrite (parseInt16_pair c1 c2 v1 v2 H1 H2).
apply digit16_range in H1, H2. split; [reflexivity|].
unfold channel, div, ofZ. change (Qeq_bool (inject_Z 255) 0) with false. cbv iota.
unfold unitRange.
assert (H255 : (0 < inject_Z 255)%Q) by reflexivity.
assert (Hk0 : (0 <= inject_Z (16 * v1 + v2))%Q).
{ change 0%Q with (inject_Z 0). rewrite <- Zle_Qle. lia. }
assert (Hk1 : (inject_Z (16 * v1 + v2) <= inject_Z 255)%Q) by (rewrite <- Zle_Qle; lia).
split.
- apply double_nonneg. apply Qle_shift_div_l; [exact H255|]. lra.
- apply (double_le_integer _ 1); [lia| |reflexivity].
  apply Qle_shift_div_r; [exact H255|]. change (inject_Z 1) with 1%Q. lra.
Qed.

(** X3: a colour written as [#rrggbb], with six hexadecimal digits in either
    case, is decoded to the three channel values over 255 with alpha 1, and
    written as [#rrggbbaa] to four; every component then lies between 0 and
    1.  The first code unit is not looked at. *)
Theorem setBackgroundColor_decodes_hex_digits (c0 c1 c2 c3 c4 c5 c6 c7 c8 : ascii)
  (v1 v2 v3 v4 v5 v6 v7 v8 : Z) (r : t) :
digit16 c1 = Some v1 -> digit16 c2 = Some v2 -> digit16 c3 = Some v3 ->
digit16 c4 = Some v4 -> digit16 c5 = Some v5 -> digit16 c6 = Some v6 ->
bgColor (setBackgroundColor (hex7 c0 c1 c2 c3 c4 c5 c6) r)
= RGBA (channel v1 v2) (channel v3 v4) (channel v5 v6) (ofZ 1)
/\ unitRange (channel v1 v2) /\ unitRange (channel v3 v4) /\ unitRange (channel v5 v6)
/\ (digit16 c7 = Some v7 -> digit16 c8 = Some v8 ->
    bgColor (setBackgroundColor (hex9 c0 c1 c2 c3 c4 c5 c6 c7 c8) r)
    = RGBA (channel v1 v2) (channel v3 v4) (channel v5 v6) (channel v7 v8)
    /\ unitRange (channel v7 v8)).
Proof.
intros H1 H2 H3 H4 H5 H6.
destruct (channel_pair c1 c2 v1 v2 H1 H2) as [E12 R12].
destruct (channel_pair c3 c4 v3 v4 H3 H4) as [E34 R34].
destruct (channel_pair c5 c6 v5 v6 H5 H6) as [E56 R56].
assert (N7 : String.eqb (hex7 c0 c1 c2 c3 c4 c5 c6) "transparent" = false).
{ apply String.eqb_neq. intros E. apply (f_equal String.length) in E. discriminate E. }
assert (N9 : String.eqb (hex9 c0 c1 c2 c3 c4 c5 c6 c7 c8) "transparent" = false).
{ apply String.eqb_neq. intros E. apply (f_equal String.length) in E. discriminate E. }
split; [|split; [exact R12|split; [exact R34|split; [exact R56|]]]].
- unfold setBackgroundColor. rewrite N7. cbn [bgColor].
  change (slice 1 3 (hex7 c0 c1 c2 c3 c4 c5 c6)) with (String c1 (String c2 "")).
  change (slice 3 5 (hex7 c0 c1 c2 c3 c4 c5 c6)) with (String c3 (String c4 "")).
  change (slice 5 7 (hex7 c0 c1 c2 c3 c4 c5 c6)) with (String c5 (String c6 "")).
  rewrite E12, E34, E56. reflexivity.
- intros H7 H8. destruct (channel_pair c7 c8 v7 v8 H7 H8) as [E78 R78].
  split; [|exact R78].
  unfold setBackgroundColor. rewrite N9. cbn [bgColor].
  change (slice 1 3 (hex9 c0 c1 c2 c3 c4 c5 c6 c7 c8)) with (String c1 (String c2 "")).
  change (slice 3 5 (hex9 c0 c1 c2 c3 c4 c5 c6 c7 c8)) with (String c3 (String c4 "")).
  change (slice 5 7 (hex9 c0 c1 c2 c3 c4 c5 c6 c7 c8)) with (String c5 (String c6 "")).
  change (slice 7 9 (hex9 c0 c1 c2 c3 c4 c5 c6 c7 c8)) with (String c7 (String c8 "")).
  rewrite E12, E34, E56, E78. reflexivity.
Qed.

Lemma setBackgroundColor_decodes_hex_digits_witness :
bgColor (setBackgroundColor "#1a2B3c" create)
= RGBA (div (ofZ 26) (ofZ 255)) (div (ofZ 43) (ofZ 255)) (div (ofZ 60) (ofZ 255)) (ofZ 1).
Proof.
refine (proj1 (setBackgroundColor_decodes_hex_digits
                 "#" "1" "a" "2" "B" "3" "c" "0" "0" 1 10 2 11 3 12 0 0 create
                 _ _ _ _ _ _)); reflexivity.
Defined.

(** *** The colour of the frames of a job *)

Lemma bgColor_load (fs : SpineFiles) (r : t) : bgColor (fst (load fs r)) = bgColor r.
Proof.
unfold load. destruct (skeleton fs), (atlas fs); try reflexivity.
now destruct (content fs).
Qed.

Lemma bgColor_setAnimation (n : string) (l : bool) (r : t) :
bgColor (setAnimation n l r) = bgColor r.
Proof.
unfold setAnimation. destruct (data r) as [anims|]; [|reflexivity].
now destruct (findAnimation n anims).
Qed.

Lemma bgColor_resetAnimation (r : t) : bgColor (resetAnimation r) = bgColor r.
Proof. unfold resetAnimation. now destruct (data r), (track r). Qed.

Lemma bgColor_configure (task : OffscreenRenderTask) (r : t) :
bgColor r = bgColor create -> bgColor (fst (configure task r)) = jobColor task.
Proof.
intros Hr. unfold configure, jobColor.
assert (H5 : bgColor (resetAnimation (setTargetFPS (fps task) (setPaused false
               (setAnimation (animation task) false (resize (width task) (height task) r)))))
             = bgColor create).
{ rewrite bgColor_resetAnimation. cbn [setTargetFPS setPaused bgColor].
  rewrite bgColor_setAnimation. exact Hr. }
destruct (backgroundColor task) as [hex|]; [|exact H5].
destruct (String.eqb hex ""); cbn [negb fst]; [exact H5|].
unfold setBackgroundColor. reflexivity.
Qed.

Lemma frameLoop_frames (env : Host) (task : OffscreenRenderTask) (b : Backend)
  (n i : nat) (r : t) (c : Call) (p : option Picture) :
c ∈ snd (fst (frameLoop env task b n i r)) -> frameOf c = Some p ->
cleared <$> p = Some (bgColor r).
Proof.
revert i r; induction n as [|n IH]; intros i r Hc Hp; cbn [frameLoop] in Hc.
- now apply elem_of_nil in Hc.
- destruct (aborted env task (2 + i)); [now apply elem_of_nil in Hc|].
  assert (Hcap : forall r1, frameOf (captureCall b (fps task) i r1) = Some p ->
                            p = picture r1).
  { intros r1. destruct b; cbn; congruence. }
  destruct (captureFails env b i).
  + cbn [fst snd] in Hc. apply elem_of_cons in Hc as [->|Hc]; [discriminate|].
    apply list_elem_of_singleton in Hc as ->. rewrite (Hcap _ Hp).
    apply cleared_updateAndRender.
  + destruct (frameLoop env task b n (S i) _) as [[r2 rest] e] eqn:E. cbn [fst snd] in Hc.
    apply elem_of_cons in Hc as [->|Hc]; [discriminate|].
    apply elem_of_cons in Hc as [->|Hc].
    * rewrite (Hcap _ Hp). apply cleared_updateAndRender.
    * rewrite <- (bgColor_updateAndRender (frameDelta (fps task)) r).
      apply (IH (S i) _). rewrite E. exact Hc. exact Hp.
Qed.

Lemma capture_frames (env : Host) (task : OffscreenRenderTask) (b : Backend) (r : t)
  (c : Call) (p : option Picture) :
c ∈ snd (fst (capture env task b r)) -> frameOf c = Some p ->
cleared <$> p = Some (bgColor r).
Proof.
unfold capture. intros Hc Hp.
assert (Hloop : forall cs : list Call, c ∈ cs -> frameOf c = Some p ->
          (forall c', c' ∈ cs -> c' ∈ snd (fst (frameLoop env task b
               (iterations (totalFrames (recordDuration (duration task) (animDuration r))
                              (fps task))) 0 r))
             \/ frameOf c' = None) ->
          cleared <$> p = Some (bgColor r)).
{ intros cs Hin Hf Hall. destruct (Hall c Hin) as [H|H]; [|congruence].
  eapply frameLoop_frames; eassumption. }
destruct (startThrows env).
{ cbn in Hc. apply elem_of_cons in Hc as [->|Hc]; [discriminate|].
  apply list_elem_of_singleton in Hc as ->. discriminate. }
destruct (frameLoop env task b _ 0 r) as [[r1 loop] e] eqn:E. cbn [fst snd] in Hloop.
apply (Hloop _ Hc Hp). intros c' Hc'.
destruct e as [err|]; [|destruct (stopThrows env)]; cbn [catch fst snd] in Hc, Hc'.
- apply elem_of_app in Hc' as [Hc'|Hc'].
  + apply elem_of_cons in Hc' as [->|Hc']; [now right|now left].
  + apply list_elem_of_singleton in Hc' as ->. now right.
- apply elem_of_app in Hc' as [Hc'|Hc'].
  + apply elem_of_cons in Hc' as [->|Hc']; [now right|].
    apply elem_of_app in Hc' as [Hc'|Hc']; [now left|].
    apply list_elem_of_singleton in Hc' as ->. now right.
  + apply list_elem_of_singleton in Hc' as ->. now right.
- apply elem_of_cons in Hc' as [->|Hc']; [now right|].
  apply elem_of_app in Hc' as [Hc'|Hc']; [now left|].
  apply elem_of_cons in Hc' as [->|Hc']; [now right|].
  apply list_elem_of_singleton in Hc' as ->. now right.
Qed.

Lemma record_frames (env : Host) (task : OffscreenRenderTask) (r : t)
  (c : Call) (p : option Picture) :
c ∈ snd (fst (record env task r)) -> frameOf c = Some p ->
cleared <$> p = Some (bgColor r).
Proof.
unfold record. intros Hc Hp.
destruct (format task); try (eapply capture_frames; eassumption).
destruct (webCodecs env); cbn [negb] in Hc; [eapply capture_frames; eassumption|].
cbn in Hc. apply list_elem_of_singleton in Hc as ->. discriminate.
Qed.

(** X4: whatever course a job takes, every picture that it hands to a capture
    backend was cleared with the colour of the job: the one decoded from the
    task's [backgroundColor], and the green of a new renderer when the task
    has none or an empty one. *)
Theorem every_frame_has_the_job_background (env : Host) (task : OffscreenRenderTask)
  (c : Call) (p : option Picture) :
c ∈ snd (fst (renderToVideo env task create)) -> frameOf c = Some p ->
cleared <$> p = Some (jobColor task).
Proof.
unfold renderToVideo. intros Hc Hp.
destruct (aborted env task 0); [now apply elem_of_nil in Hc|].
pose proof (bgColor_load (files task) create) as Hbg.
destruct (load (files task) create) as [r1 loaded]. cbn [fst] in Hbg.
assert (Hshort : forall e, c ∈ snd (fst (catch r1 [Load (files task)] e)) -> False).
{ intros e H. cbn in H. apply elem_of_cons in H as [->|H]; [discriminate|].
  apply list_elem_of_singleton in H as ->. discriminate. }
destruct loaded as [e|animations]; [now apply Hshort in Hc|].
destruct (negb (includes (animation task) animations)); [now apply Hshort in Hc|].
destruct (aborted env task 1); [now apply Hshort in Hc|].
pose proof (bgColor_configure task r1 Hbg) as Hconf.
pose proof (configure_calls_quiet task r1) as Hquiet.
destruct (configure task r1) as [r2 calls]. cbn [fst snd] in Hconf, Hquiet.
pose proof (record_frames env task r2 c p) as Hrec.
destruct (record env task r2) as [[r3 cs] res]. cbn [prepend fst snd] in Hc, Hrec.
change (Load (files task) :: calls ++ cs) with ((Load (files task) :: calls) ++ cs) in Hc.
apply elem_of_app in Hc as [Hc|Hc].
- apply Hquiet in Hc. destruct c; discriminate.
- rewrite <- Hconf. now apply Hrec.
Qed.

Lemma every_frame_has_the_job_background_witness :
let task := Fixtures.taskOf png_sequence None Fixtures.itemA "idle" in
jobColor task = RGBA (Num 0) (Num 1) (Num 0) (Num 1).
Proof.
cbv zeta. symmetry.
assert (H : forall x y : Color, Some x = Some y -> x = y) by (intros x y [= ->]; reflexivity).
apply H.
apply (every_frame_has_the_job_background (Fixtures.quiet true)
         (Fixtures.taskOf png_sequence None Fixtures.itemA "idle")
         (Capture (Some {| cleared := RGBA (Num 0) (Num 1) (Num 0) (Num 1);
                           posedAt := Some (Num (3602879701896397 # 36028797018963968)) |}))
         (Some {| cleared := RGBA (Num 0) (Num 1) (Num 0) (Num 1);
                  posedAt := Some (Num (3602879701896397 # 36028797018963968)) |})).
- apply list_elem_of_In. vm_compute. do 9 right. left. reflexivity.
- reflexivity.
Defined.

(** *** A load that fails *)

(** X5: a [load] that throws leaves the renderer without the asset it held
    before: no skeleton, no track and no bounds, so that [setAnimation] has
    no effect and every frame rendered afterwards shows the background
    alone; colour, size and play state are kept. *)
Theorem failed_load_unloads_the_asset (fs : SpineFiles) (r : t) (e : Error) :
snd (load fs r) = inl e ->
let r' := fst (load fs r) in
data r' = None /\ track r' = None /\ bounds r' = false
/\ bgColor r' = bgColor r /\ isPlaying r' = isPlaying r
/\ (e = MissingFiles <-> skeleton fs = None \/ atlas fs = None)
/\ (forall n l, setAnimation n l r' = r')
/\ forall deltas, deltas ≠ [] ->
     picture (renderFrames deltas r') = Some {| cleared := bgColor r; posedAt := None |}.
Proof.
intros He r'.
assert (Hr : r' = mk (canvas_width r) (canvas_height r) (picture r) None false None
                     (bgColor r) (isPlaying r) (timeScale r) (isRunning r)
                     (targetFPS r) (totalTime r)
             /\ (e = MissingFiles <-> skeleton fs = None \/ atlas fs = None)).
{ subst r'. unfold load in *. destruct (skeleton fs), (atlas fs); cbn in *.
  - destruct (content fs); [discriminate|]. injection He as <-. split; [reflexivity|].
    split; [discriminate|]. now intros [|].
  - injection He as <-. split; [reflexivity|]. split; auto.
  - injection He as <-. split; [reflexivity|]. split; auto.
  - injection He as <-. split; [reflexivity|]. split; auto. }
destruct Hr as [Hr Hm]. rewrite Hr. cbn [data track bounds bgColor isPlaying].
repeat match goal with |- _ /\ _ => split end; try reflexivity; try exact Hm.
intros deltas Hne. destruct deltas as [|d deltas]; [done|]. clear Hne.
unfold renderFrames. cbn [fold_left]. unfold updateAndRender at 2. cbn [data bounds].
generalize d. clear d. induction deltas as [|d' deltas IH]; intros d; [reflexivity|].
cbn [fold_left]. unfold updateAndRender at 2.
cbn [data bounds canvas_width canvas_height bgColor track isPlaying timeScale isRunning
     targetFPS totalTime].
apply (IH d').
Qed.

Lemma failed_load_unloads_the_asset_witness :
let r := fst (load Fixtures.filesA create) in
data (fst (load Fixtures.filesB r)) = None.
Proof.
cbv zeta.
refine (proj1 (failed_load_unloads_the_asset Fixtures.filesB
                 (fst (load Fixtures.filesA create)) LoadFailed _)).
reflexivity.
Defined.

End BackgroundColorDecoding.

(** ** The ledger of the scheduler *)

Section Ledger.

Import ExportManager.

Lemma settledTickets_app (a b : list Event) :
settledTickets (a ++ b) = settledTickets a ++ settledTickets b.
Proof. apply flat_map_app. Qed.

Lemma createdTickets_app (a b : list Event) :
createdTickets (a ++ b) = createdTickets a ++ createdTickets b.
Proof. apply flat_map_app. Qed.

Lemma createdRenderers_app (a b : list Event) :
createdRenderers (a ++ b) = createdRenderers a ++ createdRenderers b.
Proof. apply flat_map_app. Qed.

Lemma settledTickets_rejected (q : list Item) :
settledTickets (map rejected q) = map ticket q.
Proof. induction q as [|it q IH]; [reflexivity|]. simpl. now rewrite IH. Qed.

Lemma createdTickets_rejected (q : list Item) : createdTickets (map rejected q) = [].
Proof. induction q as [|it q IH]; [reflexivity|]. exact IH. Qed.

Lemma createdRenderers_rejected (q : list Item) : createdRenderers (map rejected q) = [].
Proof. induction q as [|it q IH]; [reflexivity|]. exact IH. Qed.

Lemma settledTickets_calls (r : nat) (calls : list Call) :
settledTickets (map (EvCall r) calls) = [].
Proof. induction calls as [|c calls IH]; [reflexivity|]. exact IH. Qed.

Lemma createdTickets_calls (r : nat) (calls : list Call) :
createdTickets (map (EvCall r) calls) = [].
Proof. induction calls as [|c calls IH]; [reflexivity|]. exact IH. Qed.

Lemma createdRenderers_calls (r : nat) (calls : list Call) :
createdRenderers (map (EvCall r) calls) = [].
Proof. induction calls as [|c calls IH]; [reflexivity|]. exact IH. Qed.

Lemma settledTickets_disposals (rs : list nat) : settledTickets (map EvDispose rs) = [].
Proof. induction rs as [|r rs IH]; [reflexivity|]. exact IH. Qed.

Lemma createdTickets_disposals (rs : list nat) : createdTickets (map EvDispose rs) = [].
Proof. induction rs as [|r rs IH]; [reflexivity|]. exact IH. Qed.

Lemma createdRenderers_disposals (rs : list nat) : createdRenderers (map EvDispose rs) = [].
Proof. induction rs as [|r rs IH]; [reflexivity|]. exact IH. Qed.

Lemma settledTickets_outcome (k : nat) (res : Error + Blob) :
settledTickets [outcomeEvent k res] = [k].
Proof. now destruct res. Qed.

Lemma createdTickets_outcome (k : nat) (res : Error + Blob) :
createdTickets [outcomeEvent k res] = [].
Proof. now destruct res. Qed.

Lemma createdRenderers_outcome (k : nat) (res : Error + Blob) :
createdRenderers [outcomeEvent k res] = [].
Proof. now destruct res. Qed.

(** *** Jobs begin in submission order *)

Lemma processFrom_ordered (b : nat) (m : t) (q : list Item) :
Ordered b (withQueue q m) ->
exists b' n, Ordered b' (fst (processFrom m q)) /\ b <= b'
           /\ StronglySorted Nat.lt (createdTickets (snd (processFrom m q)))
           /\ (forall k, k ∈ createdTickets (snd (processFrom m q)) -> b <= k < b')
           /\ nextRenderer (fst (processFrom m q)) = nextRenderer m + n
           /\ createdRenderers (snd (processFrom m q)) = seq (nextRenderer m) n.
Proof.
intros [Hs Hr Hn]. unfold queuedTickets in Hs, Hr. cbn [withQueue queue nextTicket] in Hs, Hr, Hn.
assert (Hnil : forall k : nat, k ∈ @nil nat -> b <= k < b).
{ intros k Hk. now apply elem_of_nil in Hk. }
destruct (processFrom_cases m q) as [[_ ->]|[(_ & _ & ->)|(_ & dead & it & rest & -> & _ & _ & ->)]];
  cbn [fst snd].
- exists b, 0. split; [|split; [|split; [|split; [|split]]]].
  + split; assumption.
  + lia.
  + constructor.
  + exact Hnil.
  + cbn [withQueue nextRenderer]. lia.
  + reflexivity.
- exists b, 0. rewrite createdTickets_rejected, createdRenderers_rejected.
  split; [|split; [|split; [|split; [|split]]]].
  + split; [constructor| |exact Hn].
    intros k Hk. now apply elem_of_nil in Hk.
  + lia.
  + constructor.
  + exact Hnil.
  + cbn [withQueue nextRenderer]. lia.
  + reflexivity.
- rewrite map_app in Hs, Hr. cbn [map] in Hs, Hr.
  pose proof (StronglySorted_app_1_r _ _ _ Hs) as Hs2.
  apply StronglySorted_inv in Hs2 as [Hs3 Hall].
  assert (Hit : b <= ticket it < nextTicket m).
  { apply Hr. apply elem_of_app. right. now left. }
  exists (S (ticket it)), 1.
  rewrite createdTickets_app, createdRenderers_app, createdTickets_rejected,
    createdRenderers_rejected. cbn [app createdTickets createdRenderers flat_map].
  split; [|split; [|split; [|split; [|split]]]].
  + split; unfold queuedTickets; cbn [started queue nextTicket].
    * exact Hs3.
    * intros k Hk. rewrite Forall_forall in Hall.
      assert (Nat.lt (ticket it) k) by (apply Hall, Hk). unfold Nat.lt in *.
      assert (b <= k < nextTicket m).
      { apply Hr. apply elem_of_app. right. now right. }
      lia.
    * lia.
  + lia.
  + repeat constructor.
  + intros k Hk. apply list_elem_of_singleton in Hk. lia.
  + cbn [started nextRenderer]. lia.
  + reflexivity.
Qed.

Lemma step_ordered (b : nat) (m : t) (c : Command) :
Ordered b m ->
exists b' n, Ordered b' (fst (step m c)) /\ b <= b'
           /\ StronglySorted Nat.lt (createdTickets (snd (step m c)))
           /\ (forall k, k ∈ createdTickets (snd (step m c)) -> b <= k < b')
           /\ nextRenderer (fst (step m c)) = nextRenderer m + n
           /\ createdRenderers (snd (step m c)) = seq (nextRenderer m) n.
Proof.
intros Hord.
assert (Hnil : forall k : nat, k ∈ @nil nat -> b <= k < b).
{ intros k Hk. now apply elem_of_nil in Hk. }
destruct c as [tk|r env| |sg]; cbn [step].
- unfold exportTask, processQueue. cbn [queue].
  set (m1 := mk _ _ _ _ _ _ _).
  assert (H1 : Ordered b (withQueue (queue m ++ [{| task := tk; ticket := nextTicket m |}]) m1)).
  { destruct Hord as [Hs Hr Hn]. unfold queuedTickets in Hs, Hr.
    split; unfold queuedTickets; cbn [withQueue queue nextTicket m1].
    - rewrite map_app. cbn [map ticket]. apply StronglySorted_app_2.
      + intros x1 x2 H1 H2. apply list_elem_of_singleton in H2 as ->.
        apply Hr in H1. unfold Nat.lt. lia.
      + exact Hs.
      + repeat constructor.
    - intros k Hk. rewrite map_app in Hk. apply elem_of_app in Hk as [Hk|Hk].
      + apply Hr in Hk. lia.
      + cbn [map ticket] in Hk. apply list_elem_of_singleton in Hk as ->. lia.
    - lia. }
  destruct (processFrom_ordered b m1 _ H1) as (b' & n & H).
  destruct (processFrom m1 _) as [m2 evs]. cbn [fst snd] in *.
  exists b', n. exact H.
- destruct (lookupRunning r m) as [it|] eqn:Hlook.
  + rewrite (settle_running r env m it Hlook). cbn [fst snd].
    rewrite !createdTickets_app, !createdRenderers_app, createdTickets_calls,
      createdRenderers_calls.
    change [outcomeEvent (ticket it) (snd (OffscreenRenderer.renderToVideo env (task it)
                                             OffscreenRenderer.create)); EvDispose r]
      with ([outcomeEvent (ticket it) (snd (OffscreenRenderer.renderToVideo env (task it)
                                              OffscreenRenderer.create))] ++ [EvDispose r]).
    rewrite !createdTickets_app, !createdRenderers_app, createdTickets_outcome,
      createdRenderers_outcome. cbn [app createdTickets createdRenderers flat_map].
    unfold processQueue.
    apply (processFrom_ordered b (released r m) (queue (released r m))).
    destruct Hord as [Hs Hr Hn]. split; assumption.
  + unfold settle. rewrite Hlook. cbn [fst snd]. exists b, 0.
    split; [exact Hord|]. split; [lia|]. split; [constructor|].
    split; [exact Hnil|]. split; [lia|reflexivity].
- unfold cancelAll. cbn [fst snd]. exists b, 0.
  rewrite createdTickets_app, createdRenderers_app, createdTickets_disposals,
    createdRenderers_disposals.
  change (map (fun it => EvReject (ticket it) AbortError) (queue m))
    with (map rejected (queue m)).
  rewrite createdTickets_rejected, createdRenderers_rejected. cbn [app].
  split.
  { destruct Hord as [Hs Hr Hn]. split; unfold queuedTickets; cbn [queue nextTicket map].
    - constructor.
    - intros k Hk. now apply elem_of_nil in Hk.
    - exact Hn. }
  split; [lia|]. split; [constructor|]. split; [exact Hnil|].
  split; [cbn [nextRenderer]; lia|reflexivity].
- cbn [fst snd]. exists b, 0.
  split.
  { destruct Hord as [Hs Hr Hn]. split; assumption. }
  split; [lia|]. split; [constructor|]. split; [exact Hnil|].
  split; [cbn [abort nextRenderer]; lia|reflexivity].
Qed.

Lemma run_ordered (b : nat) (m : t) (cs : list Command) :
Ordered b m ->
exists n, StronglySorted Nat.lt (createdTickets (snd (run m cs)))
          /\ (forall k, k ∈ createdTickets (snd (run m cs)) -> b <= k)
          /\ nextRenderer (fst (run m cs)) = nextRenderer m + n
          /\ createdRenderers (snd (run m cs)) = seq (nextRenderer m) n.
Proof.
revert b m; induction cs as [|c cs IH]; intros b m Hord; cbn [run].
- exists 0. cbn [fst snd]. split; [constructor|]. split.
  + intros k Hk. now apply elem_of_nil in Hk.
  + split; [lia|reflexivity].
- destruct (step_ordered b m c Hord) as (b' & n1 & Hord' & Hb & Hs1 & Hr1 & Hn1 & Hc1).
  destruct (step m c) as [m1 evs1]. cbn [fst snd] in *.
  destruct (IH b' m1 Hord') as (n2 & Hs2 & Hr2 & Hn2 & Hc2).
  destruct (run m1 cs) as [m2 evs2]. cbn [fst snd] in *.
  exists (n1 + n2). rewrite createdTickets_app, createdRenderers_app.
  split; [|split; [|split]].
  + apply StronglySorted_app_2; [|exact Hs1|exact Hs2].
    intros x1 x2 H1 H2. apply Hr1 in H1. apply Hr2 in H2. unfold Nat.lt. lia.
  + intros k Hk. apply elem_of_app in Hk as [Hk|Hk].
    * apply Hr1 in Hk. lia.
    * apply Hr2 in Hk. lia.
  + lia.
  + rewrite Hc1, Hc2, Hn1. now rewrite seq_app.
Qed.

Lemma Ordered_create (set : list nat) : Ordered 0 (create set).
Proof.
split; unfold queuedTickets; cbn [create queue nextTicket map].
- constructor.
- intros k Hk. now apply elem_of_nil in Hk.
- lia.
Qed.

(** X6: the jobs begin in the order in which their tasks were submitted,
    whatever else happens to the manager (settlements in any order,
    [cancelAll], aborted signals), and the renderers constructed for them are
    new ones: the [k]-th job begun runs on the [k]-th renderer. *)
Theorem jobs_begin_in_submission_order (set : list nat) (cmds : list Command) :
let log := snd (run (create set) cmds) in
StronglySorted Nat.lt (createdTickets log)
/\ createdRenderers log = seq 0 (nextRenderer (fst (run (create set) cmds))).
Proof.
cbv zeta. destruct (run_ordered 0 (create set) cmds (Ordered_create set))
  as (n & Hs & _ & Hn & Hc).
split; [exact Hs|]. rewrite Hc, Hn. reflexivity.
Qed.

(** *** Every promise is settled at most once *)

Lemma filter_fresh (r : nat) (l : list (nat * Item)) :
r ∉ map fst l -> filter (fun p => fst p ≠ r) l = l.
Proof.
induction l as [|p l IH]; intros Hr; [reflexivity|].
rewrite filter_cons_True.
- f_equal. apply IH. intros H. apply Hr. cbn [map]. now right.
- intros Heq. apply Hr. rewrite <- Heq. cbn [map]. now left.
Qed.

Lemma running_split (r : nat) (l : list (nat * Item)) (it : Item) :
NoDup (map fst l) ->
snd <$> List.find (fun p => fst p =? r) l = Some it ->
map (fun p => ticket (snd p)) l
≡ₚ ticket it :: map (fun p => ticket (snd p)) (filter (fun p => fst p ≠ r) l).
Proof.
induction l as [|p l IH]; intros Hnd Hfind; [discriminate|].
cbn [map] in Hnd. apply NoDup_cons in Hnd as [Hp Hnd].
cbn [List.find] in Hfind. destruct (fst p =? r) eqn:Heq.
- apply Nat.eqb_eq in Heq. cbn in Hfind. injection Hfind as <-.
  rewrite filter_cons_False by (intros H; now apply H).
  rewrite filter_fresh by (now rewrite <- Heq). reflexivity.
- apply Nat.eqb_neq in Heq. rewrite filter_cons_True by exact Heq.
  cbn [map]. rewrite (IH Hnd Hfind). apply Permutation_swap.
Qed.

Lemma processFrom_ledger (m : t) (q : list Item) :
let m' := fst (processFrom m q) in
settledTickets (snd (processFrom m q)) ++ queuedTickets m' ++ runningTickets m'
≡ₚ map ticket q ++ runningTickets m
/\ nextTicket m' = nextTicket m
/\ (NoDup (map fst (running m)) ->
    (forall r, r ∈ map fst (running m) -> r < nextRenderer m) ->
    NoDup (map fst (running m'))
    /\ forall r, r ∈ map fst (running m') -> r < nextRenderer m').
Proof.
cbv zeta. unfold queuedTickets, runningTickets.
destruct (processFrom_cases m q) as [[_ ->]|[(_ & _ & ->)|(_ & dead & it & rest & -> & _ & _ & ->)]];
  cbn [fst snd withQueue started queue running nextTicket nextRenderer].
- split; [reflexivity|]. split; [reflexivity|]. intros; split; assumption.
- rewrite settledTickets_rejected. cbn [map app].
  split; [reflexivity|]. split; [reflexivity|]. intros; split; assumption.
- rewrite settledTickets_app, settledTickets_rejected. cbn [settledTickets flat_map app].
  rewrite app_nil_r, !map_app. cbn [map snd fst].
  split; [|split; [reflexivity|]].
  + rewrite <- !app_assoc. apply Permutation_app_head. cbn [app].
    rewrite (Permutation_app_comm (map _ (running m)) [ticket it]). cbn [app].
    symmetry. apply Permutation_middle.
  + intros Hnd Hfr. split.
    * apply NoDup_app. split; [exact Hnd|]. split; [|repeat constructor; apply not_elem_of_nil].
      intros x Hx Hx'. apply list_elem_of_singleton in Hx' as ->. apply Hfr in Hx. lia.
    * intros r Hr. apply elem_of_app in Hr as [Hr|Hr].
      -- apply Hfr in Hr. lia.
      -- apply list_elem_of_singleton in Hr as ->. lia.
Qed.

Lemma step_ledger (settled : list nat) (m : t) (c : Command) :
Ledger settled m ->
Ledger (settled ++ settledTickets (snd (step m c))) (fst (step m c))
/\ nextTicket (fst (step m c)) = nextTicket m + (if isSubmit c then 1 else 0).
Proof.
intros [Hp Hnd Hfr]. destruct c as [tk|r env| |sg]; cbn [step isSubmit].
- unfold exportTask, processQueue. cbn [queue].
  set (m1 := mk _ _ _ _ _ _ _).
  destruct (processFrom_ledger m1 (queue m ++ [{| task := tk; ticket := nextTicket m |}]))
    as (Hq & Hn & Hr).
  destruct (Hr Hnd Hfr) as [Hnd' Hfr'].
  destruct (processFrom m1 _) as [m2 evs]. cbn [fst snd] in *.
  split; [split|]; [|exact Hnd'|exact Hfr'|rewrite Hn; cbn [nextTicket m1]; lia].
  cbn [settledTickets flat_map app]. fold (settledTickets evs).
  rewrite <- app_assoc, Hq, Hn. cbn [nextTicket m1 runningTickets running].
  rewrite map_app. cbn [map ticket]. rewrite seq_S. cbn [Nat.add].
  rewrite <- Hp. unfold queuedTickets, runningTickets.
  rewrite <- !app_assoc. apply Permutation_app_head. apply Permutation_app_head.
  apply Permutation_app_comm.
- destruct (lookupRunning r m) as [it|] eqn:Hlook.
  + rewrite (settle_running r env m it Hlook). cbn [fst snd]. unfold processQueue.
    destruct (processFrom_ledger (released r m) (queue (released r m))) as (Hq & Hn & Hr).
    assert (Hnd1 : NoDup (map fst (running (released r m)))).
    { cbn [released running]. rewrite map_fst_filter. now apply NoDup_filter. }
    assert (Hfr1 : forall x, x ∈ map fst (running (released r m)) ->
                             x < nextRenderer (released r m)).
    { cbn [released running nextRenderer]. intros x Hx. rewrite map_fst_filter in Hx.
      apply list_elem_of_filter in Hx as [_ Hx]. now apply Hfr. }
    destruct (Hr Hnd1 Hfr1) as [Hnd' Hfr'].
    split; [split|]; [|exact Hnd'|exact Hfr'|rewrite Hn; cbn [released nextTicket]; lia].
    rewrite !settledTickets_app, settledTickets_calls.
    change [outcomeEvent (ticket it) (snd (OffscreenRenderer.renderToVideo env (task it)
                                             OffscreenRenderer.create)); EvDispose r]
      with ([outcomeEvent (ticket it) (snd (OffscreenRenderer.renderToVideo env (task it)
                                              OffscreenRenderer.create))] ++ [EvDispose r]).
    rewrite settledTickets_app, settledTickets_outcome. cbn [app settledTickets flat_map].
    rewrite Hn. cbn [released nextTicket].
    rewrite <- app_assoc. cbn [app]. rewrite <- Permutation_middle.
    rewrite Hq, <- Hp. unfold queuedTickets, runningTickets.
    cbn [released queue running]. unfold lookupRunning in Hlook.
    rewrite (running_split r (running m) it Hnd Hlook).
    rewrite <- !Permutation_middle. reflexivity.
  + unfold settle. rewrite Hlook. cbn [fst snd settledTickets flat_map].
    rewrite app_nil_r. split; [split; assumption|lia].
- unfold cancelAll. cbn [fst snd]. split; [split|cbn [nextTicket]; lia];
    cbn [running nextRenderer nextTicket]; [|exact Hnd|exact Hfr].
  rewrite settledTickets_app, settledTickets_disposals.
  change (map (fun it => EvReject (ticket it) AbortError) (queue m))
    with (map rejected (queue m)).
  rewrite settledTickets_rejected, app_nil_r. unfold queuedTickets, runningTickets.
  cbn [queue running map app]. rewrite <- Hp. unfold queuedTickets, runningTickets.
  now rewrite <- app_assoc.
- cbn [fst snd settledTickets flat_map]. rewrite app_nil_r.
  split; [split; assumption|cbn [abort nextTicket]; lia].
Qed.

Lemma run_ledger (settled : list nat) (m : t) (cs : list Command) :
Ledger settled m ->
Ledger (settled ++ settledTickets (snd (run m cs))) (fst (run m cs))
/\ nextTicket (fst (run m cs)) = nextTicket m + length (List.filter isSubmit cs).
Proof.
revert settled m; induction cs as [|c cs IH]; intros settled m Hl; cbn [run].
- cbn [fst snd settledTickets flat_map List.filter length]. rewrite app_nil_r.
  split; [exact Hl|lia].
- destruct (step_ledger settled m c Hl) as [H1 Hn1].
  destruct (step m c) as [m1 evs1]. cbn [fst snd] in *.
  destruct (IH _ m1 H1) as [H2 Hn2].
  destruct (run m1 cs) as [m2 evs2]. cbn [fst snd] in *.
  rewrite settledTickets_app, app_assoc. split; [exact H2|].
  rewrite Hn2, Hn1. cbn [List.filter]. destruct (isSubmit c); cbn [length]; lia.
Qed.

Lemma Ledger_create (set : list nat) : Ledger [] (create set).
Proof.
split; cbn.
- reflexivity.
- constructor.
- intros r Hr. now apply elem_of_nil in Hr.
Qed.

(** X7: at every moment of every run of a manager the tickets handed out, one
    per call of [exportTask], are accounted for exactly once: each promise is
    either settled, or waits in the queue, or belongs to a job in flight.  So
    no promise is resolved or rejected twice, and none is settled that
    [exportTask] did not return. *)
Theorem promises_are_settled_at_most_once (set : list nat) (cmds : list Command) :
let m := fst (run (create set) cmds) in
let log := snd (run (create set) cmds) in
settledTickets log ++ queuedTickets m ++ runningTickets m ≡ₚ seq 0 (nextTicket m)
/\ nextTicket m = length (List.filter isSubmit cmds)
/\ NoDup (settledTickets log)
/\ forall k, k ∈ settledTickets log -> k < nextTicket m.
Proof.
cbv zeta. destruct (run_ledger [] (create set) cmds (Ledger_create set)) as [[Hp _ _] Hn].
cbn [app create nextTicket Nat.add] in Hp, Hn.
split; [exact Hp|]. split; [exact Hn|].
assert (Hnd : NoDup (settledTickets (snd (run (create set) cmds))
                     ++ queuedTickets (fst (run (create set) cmds))
                     ++ runningTickets (fst (run (create set) cmds)))).
{ rewrite Hp. apply NoDup_seq. }
split.
- now apply NoDup_app in Hnd as [Hnd _].
- intros k Hk.
  assert (Hin : k ∈ seq 0 (nextTicket (fst (run (create set) cmds)))).
  { rewrite <- Hp. apply elem_of_app. now left. }
  apply elem_of_seq in Hin. lia.
Qed.

(** *** The jobs in flight *)

Lemma processFrom_tracked (m : t) (q : list Item) :
Tracked m -> Tracked (fst (processFrom m q)).
Proof.
intros [Ha Hf].
destruct (processFrom_cases m q) as [[_ ->]|[(_ & _ & ->)|(_ & dead & it & rest & -> & _ & _ & ->)]];
  cbn [fst]; split; cbn [withQueue started running activeRenderers nextRenderer];
  try assumption.
- rewrite setAdd_fresh.
  + rewrite map_app. cbn [map fst]. now rewrite Ha.
  + intros H. apply Hf in H. lia.
- intros r Hr. rewrite setAdd_fresh in Hr.
  + apply elem_of_app in Hr as [Hr|Hr].
    * apply Hf in Hr. lia.
    * apply list_elem_of_singleton in Hr as ->. lia.
  + intros H. apply Hf in H. lia.
Qed.

Lemma step_tracked (m : t) (c : Command) :
isCancelAll c = false -> Tracked m -> Tracked (fst (step m c)).
Proof.
intros Hc Ht. destruct c as [tk|r env| |sg]; cbn [step]; [| | discriminate |].
- unfold exportTask, processQueue. cbn [queue].
  set (m1 := mk _ _ _ _ _ _ _).
  assert (H1 : Tracked m1) by (destruct Ht; split; assumption).
  pose proof (processFrom_tracked m1 (queue m ++ [{| task := tk; ticket := nextTicket m |}]) H1) as H.
  destruct (processFrom m1 _) as [m2 evs]. exact H.
- destruct (lookupRunning r m) as [it|] eqn:Hlook.
  + rewrite (settle_running r env m it Hlook). cbn [fst]. unfold processQueue.
    apply processFrom_tracked. destruct Ht as [Ha Hf].
    split; cbn [released running activeRenderers nextRenderer].
    * rewrite map_fst_filter, Ha. reflexivity.
    * intros x Hx. unfold setDelete in Hx. apply list_elem_of_filter in Hx as [_ Hx].
      now apply Hf.
  + unfold settle. rewrite Hlook. exact Ht.
- destruct Ht; split; assumption.
Qed.

Lemma run_tracked (m : t) (cs : list Command) :
forallb (fun c => negb (isCancelAll c)) cs = true -> Tracked m -> Tracked (fst (run m cs)).
Proof.
revert m; induction cs as [|c cs IH]; intros m Hcs Ht; cbn [run]; [exact Ht|].
cbn [forallb] in Hcs. apply andb_true_iff in Hcs as [Hc Hcs].
apply negb_true_iff in Hc.
pose proof (step_tracked m c Hc Ht) as H1.
destruct (step m c) as [m1 evs1]. pose proof (IH m1 Hcs H1) as H2.
now destruct (run m1 cs).
Qed.

Lemma Tracked_create (set : list nat) : Tracked (create set).
Proof. split; cbn; [reflexivity|]. intros r Hr. now apply elem_of_nil in Hr. Qed.

(** X8: as long as [cancelAll] is not called, the jobs in flight are exactly
    those of the renderers in the active set, so at most two run at a time,
    and [getQueueLength] counts exactly the promises that are not settled
    yet. *)
Theorem jobs_in_flight_are_the_active_renderers (set : list nat) (cmds : list Command) :
forallb (fun c => negb (isCancelAll c)) cmds = true ->
let m := fst (run (create set) cmds) in
let log := snd (run (create set) cmds) in
map fst (running m) = activeRenderers m
/\ length (running m) <= 2
/\ getQueueLength m + length (settledTickets log) = length (List.filter isSubmit cmds).
Proof.
intros Hcs. cbv zeta.
destruct (run_tracked (create set) cmds Hcs (Tracked_create set)) as [Ha _].
destruct (run_ledger [] (create set) cmds (Ledger_create set)) as [[Hp _ _] Hn].
cbn [app create nextTicket Nat.add] in Hp, Hn.
destruct (Inv_run (create set) cmds (Inv_create set)) as [[Hb _ _ _] _].
destruct (maxConcurrent_run (create set) cmds) as [Hmax _]. cbn [create maxConcurrent] in Hmax.
split; [exact Ha|]. split.
- rewrite <- (length_map fst), Ha. lia.
- apply Permutation_length in Hp. rewrite !length_app, length_seq in Hp.
  unfold queuedTickets, runningTickets in Hp. rewrite !length_map in Hp.
  unfold getQueueLength. rewrite <- Ha, length_map. lia.
Qed.

Lemma jobs_in_flight_are_the_active_renderers_witness :
let tk := Fixtures.taskOf png_sequence None Fixtures.itemA "idle" in
let cmds := [Submit tk; Submit tk; Submit tk; Settle 1 (Fixtures.quiet true)] in
getQueueLength (fst (run (create []) cmds))
+ length (settledTickets (snd (run (create []) cmds))) = 3.
Proof.
cbv zeta.
apply (jobs_in_flight_are_the_active_renderers []
         [Submit (Fixtures.taskOf png_sequence None Fixtures.itemA "idle");
          Submit (Fixtures.taskOf png_sequence None Fixtures.itemA "idle");
          Submit (Fixtures.taskOf png_sequence None Fixtures.itemA "idle");
          Settle 1 (Fixtures.quiet true)]).
reflexivity.
Defined.

(** *** [cancelAll] and the jobs in flight *)

Lemma run_orphaning (tk : OffscreenRenderTask) (n : nat) (m : t) :
live (abortedSignals m) tk -> maxConcurrent m = 2 ->
activeRenderers m = [] -> queue m = [] ->
let m' := fst (run m (orphaning tk n)) in
length (running m') = length (running m) + n
/\ activeRenderers m' = [] /\ queue m' = []
/\ running m = take (length (running m)) (running m').
Proof.
revert m; induction n as [|n IH]; intros m Hlive Hmax Ha Hq; cbv zeta.
- cbn [orphaning replicate concat run fst]. rewrite firstn_all.
  repeat split; try assumption. lia.
- unfold orphaning. cbn [replicate concat app]. fold (orphaning tk n).
  cbn [run step]. unfold exportTask, processQueue. cbn [queue].
  rewrite Hq. cbn [app].
  rewrite processFrom_live.
  2:{ cbn [activeRenderers maxConcurrent]. rewrite Ha, Hmax. cbn. lia. }
  2:{ apply live_isAborted. exact Hlive. }
  cbn [cancelAll started fst snd running nextRenderer nextTicket abortedSignals
       maxConcurrent queue activeRenderers].
  set (m1 := mk _ _ _ _ _ _ _).
  specialize (IH m1 Hlive Hmax eq_refl eq_refl). cbv zeta in IH.
  destruct (run m1 (orphaning tk n)) as [m2 evs2]. cbn [fst snd] in *.
  destruct IH as (Hlen & Ha2 & Hq2 & Htake).
  cbn [m1 running] in Hlen, Htake. rewrite length_app in Hlen, Htake. cbn [length] in Hlen, Htake.
  split; [lia|]. split; [exact Ha2|]. split; [exact Hq2|].
  apply (f_equal (take (length (running m)))) in Htake.
  rewrite take_app_length, take_take in Htake.
  replace (length (running m) `min` (length (running m) + 1)) with (length (running m))
    in Htake by lia.
  exact Htake.
Qed.

(** X9: [cancelAll] empties the active set but not the jobs in flight, which
    go on until their own [renderToVideo] settles; submissions that follow
    begin at once beside them.  So for every [n] there is a run of the manager
    with [n] jobs in flight at the same time, whatever [maxConcurrent] says. *)
Theorem cancelAll_forgets_the_jobs_in_flight (set : list nat) (tk : OffscreenRenderTask)
  (n : nat) :
live set tk ->
let m := fst (run (create set) (orphaning tk n)) in
length (running m) = n /\ activeRenderers m = [] /\ getQueueLength m = 0.
Proof.
intros Hlive. cbv zeta.
destruct (run_orphaning tk n (create set) Hlive eq_refl eq_refl eq_refl) as (Hlen & Ha & Hq & _).
cbn [create running length Nat.add] in Hlen.
split; [exact Hlen|]. split; [exact Ha|]. unfold getQueueLength. now rewrite Ha, Hq.
Qed.

Lemma cancelAll_forgets_the_jobs_in_flight_witness :
length (running (fst (run (create [])
                        (orphaning (Fixtures.taskOf png_sequence None Fixtures.itemA "idle") 5))))
= 5.
Proof.
apply (cancelAll_forgets_the_jobs_in_flight []
         (Fixtures.taskOf png_sequence None Fixtures.itemA "idle") 5).
exact I.
Defined.

(** *** Work conservation *)

(** X10: the scheduler is work conserving: at no moment of a run does a task
    wait in the queue while fewer than two renderers are active. *)
Theorem no_task_waits_beside_a_free_slot (set : list nat) (cmds : list Command) :
let m := fst (run (create set) cmds) in
queue m ≠ [] -> length (activeRenderers m) = 2.
Proof.
cbv zeta. intros Hq.
destruct (Inv_run (create set) cmds (Inv_create set)) as [[Hb _ _ _] Hbusy].
destruct (maxConcurrent_run (create set) cmds) as [Hmax _]. cbn [create maxConcurrent] in Hmax.
specialize (Hbusy Hq). lia.
Qed.

Lemma no_task_waits_beside_a_free_slot_witness :
let tk := Fixtures.taskOf png_sequence None Fixtures.itemA "idle" in
length (activeRenderers (fst (run (create []) [Submit tk; Submit tk; Submit tk]))) = 2.
Proof.
cbv zeta.
apply (no_task_waits_beside_a_free_slot []
         [Submit (Fixtures.taskOf png_sequence None Fixtures.itemA "idle");
          Submit (Fixtures.taskOf png_sequence None Fixtures.itemA "idle");
          Submit (Fixtures.taskOf png_sequence None Fixtures.itemA "idle")]).
vm_compute. discriminate.
Defined.

End Ledger.

(** ** The outcome of a batch export *)

Section Outcome.

Import ExportManager ExportProcessor.

(** *** The status board *)

Lemma statuses_app (i : string) (a b : list Event) :
statuses i (a ++ b) = statuses i a ++ statuses i b.
Proof. apply flat_map_app. Qed.

Lemma statusBoard_from (evs : list Event) (board : gmap string Status) (i : string) :
fold_left (fun board ev => match ev with
                           | EvStatus i s => <[i := s]> board
                           | _ => board
                           end) evs board !! i
= match last (statuses i evs) with
  | Some s => Some s
  | None => board !! i
  end.
Proof.
revert board; induction evs as [|ev evs IH]; intros board; [reflexivity|].
cbn [fold_left]. rewrite IH. unfold statuses. cbn [flat_map]. fold (statuses i evs).
destruct ev as [j s|c tot n|k|k r|r c|tk blob|tk e|r|f b|n]; cbn [app]; try reflexivity.
destruct (String.eqb i j) eqn:E.
- apply String.eqb_eq in E as <-. cbn [app]. rewrite last_cons.
  destruct (last (statuses i evs)); [reflexivity|]. now rewrite lookup_insert_eq.
- apply String.eqb_neq in E. cbn [app].
  destruct (last (statuses i evs)); [reflexivity|]. rewrite lookup_insert_ne; [reflexivity|].
  intros ->. now apply E.
Qed.

Lemma statusBoard_last (evs : list Event) (i : string) :
statusBoard evs !! i = last (statuses i evs).
Proof.
unfold statusBoard. rewrite statusBoard_from. destruct (last (statuses i evs)); [reflexivity|].
apply lookup_empty.
Qed.

Lemma statuses_marked (s : Status) (items : list AnimationItem) (it : AnimationItem) :
it ∈ items ->
last (statuses (id it) (map (fun x => EvStatus (id x) s) items)) = Some s.
Proof.
intros Hit.
assert (Hall : Forall (eq s) (statuses (id it) (map (fun x => EvStatus (id x) s) items))).
{ clear Hit. induction items as [|x items IH]; [constructor|].
  cbn [map statuses flat_map]. fold (statuses (id it) (map (fun x => EvStatus (id x) s) items)).
  destruct (String.eqb (id it) (id x)); cbn [app]; [constructor; [reflexivity|exact IH]|exact IH]. }
assert (Hne : statuses (id it) (map (fun x => EvStatus (id x) s) items) ≠ []).
{ induction items as [|x items IH]; [now apply elem_of_nil in Hit|].
  cbn [map statuses flat_map]. fold (statuses (id it) (map (fun x => EvStatus (id x) s) items)).
  intros H. apply app_eq_nil in H as [H1 H2].
  apply elem_of_cons in Hit as [->|Hit].
  - rewrite String.eqb_refl in H1. discriminate.
  - apply IH; [exact Hit| |exact H2].
    cbn [map statuses flat_map] in Hall.
    fold (statuses (id it) (map (fun x => EvStatus (id x) s) items)) in Hall.
    rewrite H2. constructor. }
destruct (last _) as [s'|] eqn:E.
- apply last_Some_elem_of in E. rewrite Forall_forall in Hall. now rewrite (Hall s' E).
- apply last_None in E. contradiction.
Qed.

(** *** The signal of a run that nobody aborts *)

Lemma abortedSignals_processFrom (m : ExportManager.t) (q : list Item) :
abortedSignals (fst (processFrom m q)) = abortedSignals m.
Proof.
destruct (processFrom_cases m q) as [[_ ->]|[(_ & _ & ->)|(_ & dead & it & rest & -> & _ & _ & ->)]];
  reflexivity.
Qed.

Lemma abortedSignals_exportTask (tk : OffscreenRenderTask) (m : ExportManager.t) :
abortedSignals (fst (exportTask tk m)) = abortedSignals m.
Proof.
unfold exportTask, processQueue. cbn [queue].
set (m1 := ExportManager.mk _ _ _ _ _ _ _).
pose proof (abortedSignals_processFrom m1
              (queue m ++ [{| task := tk; ticket := ExportManager.nextTicket m |}])) as H.
destruct (processFrom m1 _) as [m2 evs]. exact H.
Qed.

Lemma abortedSignals_settle (r : nat) (env : Host) (m : ExportManager.t) :
abortedSignals (fst (settle r env m)) = abortedSignals m.
Proof.
destruct (lookupRunning r m) as [it|] eqn:Hlook.
- rewrite (settle_running r env m it Hlook). cbn [fst]. unfold processQueue.
  now rewrite abortedSignals_processFrom.
- unfold settle. now rewrite Hlook.
Qed.

Lemma processFrom_fromManager (m : ExportManager.t) (q : list Item) :
Forall (fun ev => fromManager ev = true) (snd (processFrom m q)).
Proof.
apply Forall_forall. intros ev H.
destruct (processFrom_events m q ev H) as [(it & _ & ->)|(it & _ & -> & _)]; reflexivity.
Qed.

Lemma exportTask_fromManager (tk : OffscreenRenderTask) (m : ExportManager.t) :
Forall (fun ev => fromManager ev = true) (snd (exportTask tk m)).
Proof.
unfold exportTask, processQueue. cbn [queue].
set (m1 := ExportManager.mk _ _ _ _ _ _ _).
pose proof (processFrom_fromManager m1
              (queue m ++ [{| task := tk; ticket := ExportManager.nextTicket m |}])) as H.
destruct (processFrom m1 _) as [m2 evs]. cbn [snd] in *. now constructor.
Qed.

Lemma settle_fromManager (r : nat) (env : Host) (m : ExportManager.t) :
Forall (fun ev => fromManager ev = true) (snd (settle r env m)).
Proof.
destruct (lookupRunning r m) as [it|] eqn:Hlook.
- rewrite (settle_running r env m it Hlook). cbn [snd].
  apply Forall_app. split.
  + apply Forall_forall. intros ev H. apply list_elem_of_fmap in H as (c & -> & _). reflexivity.
  + constructor; [now destruct (snd (OffscreenRenderer.renderToVideo _ _ _))|].
    constructor; [reflexivity|]. apply processFrom_fromManager.
- unfold settle. rewrite Hlook. constructor.
Qed.

Lemma fromManager_quiet (evs : list Event) :
Forall (fun ev => fromManager ev = true) evs -> zipNames evs = [] /\ downloads evs = [].
Proof.
induction 1 as [|ev evs Hev _ [IH1 IH2]]; [split; reflexivity|].
unfold zipNames, downloads in *. cbn [flat_map]. rewrite IH1, IH2.
destruct ev; try discriminate Hev; split; reflexivity.
Qed.

Lemma zipNames_app (a b : list Event) : zipNames (a ++ b) = zipNames a ++ zipNames b.
Proof. apply flat_map_app. Qed.

Lemma downloads_app (a b : list Event) : downloads (a ++ b) = downloads a ++ downloads b.
Proof. apply flat_map_app. Qed.

Lemma statuses_quiet (s : Status) (items : list AnimationItem) :
zipNames (map (fun it => EvStatus (id it) s) items) = []
/\ downloads (map (fun it => EvStatus (id it) s) items) = [].
Proof. induction items as [|it items [IH1 IH2]]; split; auto. Qed.

Lemma submitAll_keeps (signal : option nat) (totalTasks : nat) (jobs : list Job) (st : t) :
let st' := fst (submitAll signal totalTasks jobs st) in
let evs := snd (submitAll signal totalTasks jobs st) in
completedJobs st' = completedJobs st /\ zip st' = zip st
/\ abortedSignals (manager st') = abortedSignals (manager st)
/\ zipNames evs = [] /\ downloads evs = [].
Proof.
cbv zeta. revert st; induction jobs as [|j jobs IH]; intros st; cbn [submitAll].
- repeat split; reflexivity.
- destruct (isAborted signal st); [apply IH|].
  pose proof (abortedSignals_exportTask (job_task j) (manager st)) as Hab.
  pose proof (exportTask_fromManager (job_task j) (manager st)) as Hev.
  apply fromManager_quiet in Hev as [Hz Hd].
  destruct (exportTask (job_task j) (manager st)) as [m mevs]. cbn [fst snd] in *.
  set (st1 := mk m _ _ _).
  destruct (IH st1) as (Hc & Hzip & Habs & Hz2 & Hd2).
  destruct (submitAll signal totalTasks jobs st1) as [st2 evs2]. cbn [fst snd] in *.
  rewrite Hc, Hzip, Habs. cbn [st1 completedJobs zip manager].
  rewrite !zipNames_app, !downloads_app, Hz, Hd, Hz2, Hd2.
  repeat split; try reflexivity; assumption.
Qed.

Lemma resume_manager (config : ExportConfig) (signal : option nat) (totalTasks : nat)
  (st : t) (ev : Event) :
manager (fst (resume config signal totalTasks st ev)) = manager st.
Proof.
unfold resume. destruct ev; try reflexivity.
- destruct (lookupAwaiting _ st); [|reflexivity]. now destruct (isAborted signal st).
- now destruct (lookupAwaiting _ st).
Qed.

Lemma resumeAll_manager (config : ExportConfig) (signal : option nat) (totalTasks : nat)
  (evs : list Event) (st : t) :
manager (fst (resumeAll config signal totalTasks evs st)) = manager st.
Proof.
revert st; induction evs as [|ev evs IH]; intros st; cbn [resumeAll]; [reflexivity|].
pose proof (resume_manager config signal totalTasks st ev) as H.
destruct (resume config signal totalTasks st ev) as [st1 evs1].
specialize (IH st1). destruct (resumeAll config signal totalTasks evs st1) as [st2 evs2].
cbn [fst] in *. congruence.
Qed.

Lemma awaitAll_signals (config : ExportConfig) (signal : option nat) (totalTasks : nat)
  (acts : list Action) (st : t) :
forallb (fun a => negb (isUserAbort a)) acts = true ->
abortedSignals (manager (fst (awaitAll config signal totalTasks acts st)))
= abortedSignals (manager st).
Proof.
revert st; induction acts as [|a acts IH]; intros st Hacts; cbn [awaitAll].
- now destruct (awaiting st).
- destruct (awaiting st) as [|p aw]; [reflexivity|].
  cbn [forallb] in Hacts. apply andb_true_iff in Hacts as [Ha Hacts].
  destruct a as [|r env]; [discriminate|]. cbn [act].
  pose proof (abortedSignals_settle r env (manager st)) as Hs.
  destruct (settle r env (manager st)) as [m mevs]. cbn [fst] in Hs.
  pose proof (resumeAll_manager config signal totalTasks mevs
                (mk m (completedJobs st) (zip st) (awaiting st))) as Hr.
  destruct (resumeAll config signal totalTasks mevs _) as [st1 evs]. cbn [fst manager] in Hr.
  specialize (IH st1 Hacts).
  destruct (awaitAll config signal totalTasks acts st1) as [st2 evs2]. cbn [fst] in *.
  congruence.
Qed.

Lemma isAborted_clear (signal : option nat) (st : t) :
signal = None \/ abortedSignals (manager st) = [] -> isAborted signal st = false.
Proof.
intros [->|H]; [reflexivity|]. unfold isAborted. destruct signal as [sg|]; [|reflexivity].
rewrite H. apply bool_decide_eq_false_2. apply not_elem_of_nil.
Qed.

(** X11: a run that returns without the signal having been set, and that found
    at least one animation, ends with every selected item [completed] in the
    caller's state, whatever became of the item's own jobs and of its scan:
    the final pass reports [completed] for each selected item, after all
    other reports. *)
Theorem finished_export_marks_every_item_completed (items : list AnimationItem)
  (config : ExportConfig) (signal scanAbort : option nat) (acts : list Action)
  (c : nat) (it : AnimationItem) :
neverAborted signal scanAbort acts ->
fst (scan config signal scanAbort 0 items tempRenderer) ≠ [] ->
fst (processExportWithOffscreen items config signal scanAbort acts) = Returned c ->
it ∈ items ->
statusBoard (snd (processExportWithOffscreen items config signal scanAbort acts)) !! id it
= Some completed.
Proof.
intros Hnever Hjobs Hret Hit. unfold processExportWithOffscreen in *.
fold tempRenderer in Hret |- *.
destruct (scan config signal scanAbort 0 items tempRenderer) as [jobs evs1]. cbn [fst] in Hjobs.
destruct (length jobs =? 0) eqn:El.
{ apply Nat.eqb_eq in El. destruct jobs; [contradiction|discriminate]. }
pose proof (submitAll_keeps signal (length jobs) jobs (start signal scanAbort))
  as (_ & _ & Hab1 & _ & _).
destruct (submitAll signal (length jobs) jobs (start signal scanAbort)) as [st1 evs3].
pose proof (resumeAll_manager config signal (length jobs) evs3 st1) as Hm2.
destruct (resumeAll config signal (length jobs) evs3 st1) as [st2 evs4].
pose proof (awaitAll_signals config signal (length jobs) acts st2) as Hab3.
destruct (awaitAll config signal (length jobs) acts st2) as [st3 evs5].
cbn [fst snd] in *.
assert (Hclear : isAborted signal st3 = false).
{ apply isAborted_clear. destruct Hnever as [->|[-> Hacts]]; [now left|right].
  rewrite (Hab3 Hacts), Hm2, Hab1. unfold start. cbn. now destruct signal. }
unfold finish in *. destruct (awaiting st3); [|discriminate].
rewrite Hclear in *. cbn [fst snd] in *.
rewrite statusBoard_last, !statuses_app, !last_app.
now rewrite (statuses_marked completed items it Hit).
Qed.

Lemma finished_export_marks_every_item_completed_witness :
statusBoard (snd (processExportWithOffscreen [Fixtures.itemB; Fixtures.itemA]
                    (Fixtures.config png_sequence) (Some 0) None
                    [JobSettles 1 (Fixtures.quiet true); JobSettles 0 (Fixtures.abortingAt 3)]))
!! id Fixtures.itemB = Some completed.
Proof.
apply (finished_export_marks_every_item_completed [Fixtures.itemB; Fixtures.itemA]
         (Fixtures.config png_sequence) (Some 0) None
         [JobSettles 1 (Fixtures.quiet true); JobSettles 0 (Fixtures.abortingAt 3)] 1).
- right. split; reflexivity.
- vm_compute. discriminate.
- vm_compute. reflexivity.
- apply elem_of_cons. now left.
Defined.

(** *** Assets that cannot be loaded *)

Lemma load_result (fs : SpineFiles) (r : SpineRenderer.t) :
snd (SpineRenderer.load fs r)
= match skeleton fs, atlas fs with
  | Some _, Some _ => match content fs with
                      | Some anims => inr (map anim_name anims)
                      | None => inl LoadFailed
                      end
  | _, _ => inl MissingFiles
  end.
Proof.
unfold SpineRenderer.load. destruct (skeleton fs), (atlas fs); try reflexivity.
now destruct (content fs).
Qed.

Lemma scan_unloadable (config : ExportConfig) (signal scanAbort : option nat) (k : nat)
  (items : list AnimationItem) (temp : SpineRenderer.t) :
(forall it, it ∈ items -> loadable (item_files it) = false) ->
signal = None \/ scanAbort = None ->
scan config signal scanAbort k items temp
= ([], map (fun it => EvStatus (id it) failed) items).
Proof.
intros Hall Hclear. revert k temp; induction items as [|it items IH]; intros k temp;
  cbn [scan map]; [reflexivity|].
assert (Hk : abortedInScan signal scanAbort k = false).
{ unfold abortedInScan. destruct Hclear as [-> | ->]; [reflexivity|now destruct signal]. }
rewrite Hk.
pose proof (load_result (item_files it) temp) as Hl.
destruct (SpineRenderer.load (item_files it) temp) as [temp' loaded]. cbn [snd] in Hl.
rewrite IH by (intros x Hx; apply Hall; now right).
assert (Hit : loadable (item_files it) = false) by (apply Hall; now left).
unfold loadable in Hit. subst loaded.
destruct (skeleton (item_files it)), (atlas (item_files it)); try reflexivity.
destruct (content (item_files it)); [discriminate|reflexivity].
Qed.

(** X12: when none of the selected assets can be loaded (a file is missing or
    the runtime cannot decode the bundle) and the signal is not set during
    the scan, the run reports every item [waiting], then every item [failed],
    and returns 0: the log holds no event of a manager (nothing is queued,
    no renderer is constructed), no progress is reported, nothing is
    downloaded, and every item is left [failed]. *)
Theorem unloadable_assets_export_nothing (items : list AnimationItem) (config : ExportConfig)
  (signal scanAbort : option nat) (acts : list Action) :
(forall it, it ∈ items -> loadable (item_files it) = false) ->
signal = None \/ scanAbort = None ->
processExportWithOffscreen items config signal scanAbort acts
= (Returned 0, map (fun it => EvStatus (id it) waiting) items
               ++ map (fun it => EvStatus (id it) failed) items)
/\ forall it, it ∈ items ->
     statusBoard (snd (processExportWithOffscreen items config signal scanAbort acts)) !! id it
     = Some failed.
Proof.
intros Hall Hclear.
assert (E : processExportWithOffscreen items config signal scanAbort acts
            = (Returned 0, map (fun it => EvStatus (id it) waiting) items
                           ++ map (fun it => EvStatus (id it) failed) items)).
{ unfold processExportWithOffscreen.
  now rewrite (scan_unloadable config signal scanAbort 0 items _ Hall Hclear). }
split; [exact E|]. intros it Hit. rewrite E. cbn [snd].
rewrite statusBoard_last, statuses_app, last_app.
now rewrite (statuses_marked failed items it Hit).
Qed.

Lemma unloadable_assets_export_nothing_witness :
processExportWithOffscreen [Fixtures.itemB] (Fixtures.config png_sequence) (Some 0) None []
= (Returned 0, [EvStatus "B" waiting; EvStatus "B" failed]).
Proof.
refine (proj1 (unloadable_assets_export_nothing [Fixtures.itemB] (Fixtures.config png_sequence)
                 (Some 0) None [] _ _)).
- intros it Hit. apply list_elem_of_singleton in Hit as ->. reflexivity.
- now right.
Defined.

(** *** Cancelling during the scan *)

Lemma scan_aborted (config : ExportConfig) (sg n k : nat) (items : list AnimationItem)
  (temp : SpineRenderer.t) :
scan config (Some sg) (Some n) k items temp
= scan config (Some sg) None k (take (n - k) items) temp.
Proof.
revert k temp; induction items as [|it items IH]; intros k temp.
- now rewrite take_nil.
- cbn [scan abortedInScan]. destruct (decide (n ≤ k)) as [Hle|Hgt].
  + rewrite bool_decide_eq_true_2 by exact Hle.
    replace (n - k) with 0 by lia. reflexivity.
  + rewrite bool_decide_eq_false_2 by exact Hgt.
    replace (n - k) with (S (n - S k)) by lia. cbn [take scan abortedInScan].
    destruct (SpineRenderer.load (item_files it) temp) as [temp' loaded].
    now rewrite IH.
Qed.

Lemma submitAll_aborted (signal : option nat) (totalTasks : nat) (jobs : list Job) (st : t) :
isAborted signal st = true -> submitAll signal totalTasks jobs st = (st, []).
Proof.
intros H. induction jobs as [|j jobs IH]; cbn [submitAll]; [reflexivity|]. now rewrite H.
Qed.

Lemma awaitAll_idle (config : ExportConfig) (signal : option nat) (totalTasks : nat)
  (acts : list Action) (st : t) :
awaiting st = [] -> awaitAll config signal totalTasks acts st = (st, []).
Proof. intros H. destruct acts; cbn [awaitAll]; now rewrite H. Qed.

(** X13: when the signal is set during the scan, before item [n] is looked at,
    the scan is that of the first [n] items alone and nothing is exported:
    whatever jobs the scan had collected, none is submitted, no renderer is
    constructed, the run returns 0 and the items keep the status the scan
    gave them. *)
Theorem cancelled_during_scan_exports_nothing (items : list AnimationItem)
  (config : ExportConfig) (sg n : nat) (acts : list Action) :
let scanned := scan config (Some sg) None 0 (take n items) tempRenderer in
processExportWithOffscreen items config (Some sg) (Some n) acts
= (Returned 0,
   map (fun it => EvStatus (id it) waiting) items ++ snd scanned
   ++ (if length (fst scanned) =? 0 then []
       else [EvProgress 0 (length (fst scanned)) "准备导出..."])).
Proof.
cbv zeta. unfold processExportWithOffscreen. fold tempRenderer.
rewrite scan_aborted, Nat.sub_0_r.
destruct (scan config (Some sg) None 0 (take n items) tempRenderer) as [jobs evs1].
cbn [fst snd]. destruct (length jobs =? 0); [now rewrite app_nil_r|].
rewrite submitAll_aborted.
2:{ unfold isAborted, start. cbn. apply bool_decide_eq_true_2. now left. }
cbn [resumeAll]. rewrite awaitAll_idle by reflexivity.
unfold start, finish, isAborted. cbn [awaiting manager ExportManager.create abortedSignals].
rewrite bool_decide_eq_true_2 by now left.
cbn [completedJobs]. now rewrite !app_nil_r.
Qed.

(** *** The count that is returned and the archive that is downloaded *)

Lemma flat_map_nil {A B : Type} (f : A -> list B) (l : list A) :
(forall x, x ∈ l -> f x = []) -> flat_map f l = [].
Proof.
induction l as [|x l IH]; intros H; [reflexivity|]. cbn [flat_map].
rewrite (H x) by now left. apply IH. intros y Hy. apply H. now right.
Qed.

Lemma size_list_to_set_le (l : list string) :
size (list_to_set (C := gset string) l) <= length l.
Proof.
induction l as [|x l IH]; [now rewrite list_to_set_nil, size_empty|].
rewrite list_to_set_cons, size_union_alt, size_singleton. cbn [length].
assert (size (list_to_set (C := gset string) l ∖ {[x]}) <= size (list_to_set (C := gset string) l)).
{ apply subseteq_size. apply subseteq_difference_l. reflexivity. }
lia.
Qed.

Lemma size_list_to_set_NoDup (l : list string) :
size (list_to_set (C := gset string) l) = length l <-> NoDup l.
Proof.
split; [|apply size_list_to_set].
induction l as [|x l IH]; intros H; [constructor|].
pose proof (size_list_to_set_le l) as Hle.
rewrite list_to_set_cons in H. cbn [length] in H.
destruct (decide (x ∈ l)) as [Hin|Hout].
- replace ({[x]} ∪ list_to_set l) with (list_to_set (C := gset string) l) in H; [lia|].
  apply set_eq. intros y. rewrite elem_of_union, elem_of_singleton, elem_of_list_to_set.
  split; [now right|]. intros [->|Hy]; assumption.
- constructor; [exact Hout|]. apply IH.
  rewrite size_union in H.
  + rewrite size_singleton in H. lia.
  + apply disjoint_singleton_l. now rewrite elem_of_list_to_set.
Qed.

Lemma resume_archived (config : ExportConfig) (signal : option nat) (totalTasks : nat)
  (names : list string) (st : t) (ev : Event) :
Archived names st ->
Archived (names ++ zipNames (snd (resume config signal totalTasks st ev)))
         (fst (resume config signal totalTasks st ev))
/\ downloads (snd (resume config signal totalTasks st ev)) = [].
Proof.
intros [Hc Hn].
assert (Hsame : Archived (names ++ []) st) by (rewrite app_nil_r; now split).
unfold resume.
destruct ev as [i s|c tot n|k|k r|r c|tk blob|tk e|r|f b|n]; try (split; [exact Hsame|reflexivity]).
- destruct (lookupAwaiting tk st) as [j|]; [|split; [exact Hsame|reflexivity]].
  destruct (isAborted signal st); cbn [fst snd zipNames flat_map zipped app downloads].
  + split; [|reflexivity]. rewrite app_nil_r. now split.
  + split; [|reflexivity]. split; cbn [completedJobs zip].
    * rewrite length_app. cbn [length]. lia.
    * rewrite dom_insert_L, Hn, list_to_set_snoc_L. apply (comm_L (∪)).
- destruct (lookupAwaiting tk st) as [j|]; [|split; [exact Hsame|reflexivity]].
  cbn [fst snd zipNames flat_map zipped app downloads].
  split; [|reflexivity]. rewrite app_nil_r. now split.
Qed.

Lemma resumeAll_archived (config : ExportConfig) (signal : option nat) (totalTasks : nat)
  (names : list string) (evs : list Event) (st : t) :
Archived names st ->
Archived (names ++ zipNames (snd (resumeAll config signal totalTasks evs st)))
         (fst (resumeAll config signal totalTasks evs st))
/\ downloads (snd (resumeAll config signal totalTasks evs st)) = [].
Proof.
revert names st; induction evs as [|ev evs IH]; intros names st Ha; cbn [resumeAll].
- cbn [fst snd zipNames flat_map downloads]. rewrite app_nil_r. now split.
- destruct (resume_archived config signal totalTasks names st ev Ha) as [H1 D1].
  destruct (resume config signal totalTasks st ev) as [st1 evs1]. cbn [fst snd] in *.
  destruct (IH _ st1 H1) as [H2 D2].
  destruct (resumeAll config signal totalTasks evs st1) as [st2 evs2]. cbn [fst snd] in *.
  rewrite zipNames_app, downloads_app, D1, D2, app_assoc. now split.
Qed.

Lemma act_archived (config : ExportConfig) (signal : option nat) (totalTasks : nat)
  (names : list string) (a : Action) (st : t) :
Archived names st ->
Archived (names ++ zipNames (snd (act config signal totalTasks a st)))
         (fst (act config signal totalTasks a st))
/\ downloads (snd (act config signal totalTasks a st)) = [].
Proof.
intros [Hc Hn]. unfold act. destruct a as [|r env].
- destruct signal; cbn [fst snd zipNames flat_map downloads]; rewrite app_nil_r;
    split; try reflexivity; now split.
- pose proof (settle_fromManager r env (manager st)) as Hev.
  apply fromManager_quiet in Hev as [Hz Hd].
  destruct (settle r env (manager st)) as [m mevs]. cbn [snd] in Hz, Hd.
  assert (Ha : Archived names (mk m (completedJobs st) (zip st) (awaiting st))) by now split.
  destruct (resumeAll_archived config signal totalTasks names mevs _ Ha) as [H1 D1].
  destruct (resumeAll config signal totalTasks mevs _) as [st1 evs]. cbn [fst snd] in *.
  rewrite zipNames_app, downloads_app, Hz, Hd, D1. now split.
Qed.

Lemma awaitAll_archived (config : ExportConfig) (signal : option nat) (totalTasks : nat)
  (names : list string) (acts : list Action) (st : t) :
Archived names st ->
Archived (names ++ zipNames (snd (awaitAll config signal totalTasks acts st)))
         (fst (awaitAll config signal totalTasks acts st))
/\ downloads (snd (awaitAll config signal totalTasks acts st)) = [].
Proof.
revert names st; induction acts as [|a acts IH]; intros names st Ha; cbn [awaitAll].
- destruct (awaiting st); cbn [fst snd zipNames flat_map downloads]; rewrite app_nil_r;
    now split.
- destruct (awaiting st) as [|p aw].
  { cbn [fst snd zipNames flat_map downloads]. rewrite app_nil_r. now split. }
  destruct (act_archived config signal totalTasks names a st Ha) as [H1 D1].
  destruct (act config signal totalTasks a st) as [st1 evs1]. cbn [fst snd] in *.
  destruct (IH _ st1 H1) as [H2 D2].
  destruct (awaitAll config signal totalTasks acts st1) as [st2 evs2]. cbn [fst snd] in *.
  rewrite zipNames_app, downloads_app, D1, D2, app_assoc. now split.
Qed.

Lemma scan_quiet (config : ExportConfig) (signal scanAbort : option nat) (k : nat)
  (items : list AnimationItem) (temp : SpineRenderer.t) :
zipNames (snd (scan config signal scanAbort k items temp)) = []
/\ downloads (snd (scan config signal scanAbort k items temp)) = [].
Proof.
split; apply flat_map_nil; intros ev Hev;
  destruct (scan_events config signal scanAbort k items temp ev Hev) as [i ->]; reflexivity.
Qed.

(** X14: the number that a run returns is the number of blobs put into the
    archive, one per job that resolved while the signal was clear.  The
    archive is downloaded at most once, and only when that number is
    positive; it holds one entry per distinct file name, so it has as many
    entries as the run counts exactly when no two exported jobs share the
    name [<item name>_<animation>.<ext>], and fewer otherwise. *)
Theorem returned_count_and_archive (items : list AnimationItem) (config : ExportConfig)
  (signal scanAbort : option nat) (acts : list Action) (c : nat) :
fst (processExportWithOffscreen items config signal scanAbort acts) = Returned c ->
let log := snd (processExportWithOffscreen items config signal scanAbort acts) in
let entries := size (list_to_set (C := gset string) (zipNames log)) in
c = length (zipNames log)
/\ (downloads log = [] \/ (0 < c /\ downloads log = [entries]))
/\ entries <= c
/\ (entries = c <-> NoDup (zipNames log)).
Proof.
intros Hret. cbv zeta.
assert (Hmain : c = length (zipNames (snd (processExportWithOffscreen items config signal
                                             scanAbort acts)))
                /\ (downloads (snd (processExportWithOffscreen items config signal
                                      scanAbort acts)) = []
                    \/ (0 < c /\ downloads (snd (processExportWithOffscreen items config signal
                                                   scanAbort acts))
                                 = [size (list_to_set (C := gset string)
                                            (zipNames (snd (processExportWithOffscreen items
                                                              config signal scanAbort acts))))]))).
{ unfold processExportWithOffscreen in *.
  destruct (statuses_quiet waiting items) as [Z0 D0].
  destruct (scan_quiet config signal scanAbort 0 items (SpineRenderer.create (ofZ 300) (ofZ 150)))
    as [Z1 D1].
  destruct (scan config signal scanAbort 0 items _) as [jobs evs1]. cbn [snd] in Z1, D1.
  destruct (length jobs =? 0).
  { cbn [fst snd] in *. injection Hret as <-.
    rewrite zipNames_app, downloads_app, Z0, Z1, D0, D1. split; [reflexivity|now left]. }
  pose proof (submitAll_keeps signal (length jobs) jobs (start signal scanAbort))
    as (Hc3 & Hz3 & _ & Z3 & D3).
  destruct (submitAll signal (length jobs) jobs (start signal scanAbort)) as [st1 evs3].
  cbn [fst snd] in Hc3, Hz3, Z3, D3.
  assert (A1 : Archived [] st1).
  { split; [rewrite Hc3; reflexivity|rewrite Hz3]. unfold start. cbn [zip].
    now rewrite dom_empty_L, list_to_set_nil. }
  destruct (resumeAll_archived config signal (length jobs) [] evs3 st1 A1) as [A2 D4].
  destruct (resumeAll config signal (length jobs) evs3 st1) as [st2 evs4].
  cbn [fst snd app] in A2, D4.
  destruct (awaitAll_archived config signal (length jobs) _ acts st2 A2) as [[Hc Hn] D5].
  destruct (awaitAll config signal (length jobs) acts st2) as [st3 evs5].
  cbn [fst snd] in Hc, Hn, D5.
  destruct (statuses_quiet completed items) as [Z6 D6].
  unfold finish in *. destruct (awaiting st3); [|discriminate].
  destruct (isAborted signal st3); cbn [fst snd] in *; injection Hret as <-.
  - rewrite !zipNames_app, !downloads_app, Z0, Z1, Z3, D0, D1, D3, D4, D5.
    cbn [zipNames downloads flat_map zipped app]. rewrite !app_nil_r.
    split; [exact Hc|now left].
  - rewrite !zipNames_app, !downloads_app, Z0, Z1, Z3, D0, D1, D3, D4, D5, Z6, D6.
    cbn [zipNames downloads flat_map zipped app]. rewrite !app_nil_r.
    destruct (bool_decide (0 < completedJobs st3)) eqn:Epos;
      cbn [zipNames downloads flat_map zipped app]; rewrite ?app_nil_r.
    + split; [exact Hc|right]. apply bool_decide_eq_true_1 in Epos.
      split; [exact Epos|]. now rewrite <- Hn, size_dom.
    + split; [exact Hc|now left]. }
destruct Hmain as [Hc Hd]. split; [exact Hc|]. split; [exact Hd|].
rewrite Hc. split; [apply size_list_to_set_le|apply size_list_to_set_NoDup].
Qed.

Lemma returned_count_and_archive_witness :
let twin := {| id := "A2"; name := "hero"; item_files := Fixtures.filesA |} in
let log := snd (processExportWithOffscreen [Fixtures.itemA; twin]
                  (Fixtures.config png_sequence) None None
                  [JobSettles 0 (Fixtures.quiet true); JobSettles 1 (Fixtures.quiet true);
                   JobSettles 2 (Fixtures.quiet true); JobSettles 3 (Fixtures.quiet true)]) in
4 = length (zipNames log) /\ downloads log = [2].
Proof.
cbv zeta.
destruct (returned_count_and_archive
            [Fixtures.itemA; {| id := "A2"; name := "hero"; item_files := Fixtures.filesA |}]
            (Fixtures.config png_sequence) None None
            [JobSettles 0 (Fixtures.quiet true); JobSettles 1 (Fixtures.quiet true);
             JobSettles 2 (Fixtures.quiet true); JobSettles 3 (Fixtures.quiet true)] 4)
  as (Hc & Hd & _).
- vm_compute. reflexivity.
- split; [exact Hc|]. vm_compute. reflexivity.
Defined.

End Outcome.

(** ** The bounds of an asset and the view of a frame *)

Section FramingProperties.

Import Framing.

Lemma sampleLoop_measured (getBounds : Runtime) (a : Animation) (samples n i k : nat)
  (e : Extremes) :
sampleLoop getBounds a samples n i k e
= (k + n,
   fold_left include
     (measuredFrom getBounds k
        (map (fun j => (a, timeOf samples (anim_duration a) j)) (seq i n))) e).
Proof.
revert i k e; induction n as [|n IH]; intros i k e; cbn [sampleLoop seq map measuredFrom fold_left].
- now rewrite Nat.add_0_r.
- rewrite IH. f_equal. lia.
Qed.

Lemma measuredFrom_app (getBounds : Runtime) (k : nat) (s1 s2 : list (Animation * jsnum)) :
measuredFrom getBounds k (s1 ++ s2)
= measuredFrom getBounds k s1 ++ measuredFrom getBounds (k + length s1) s2.
Proof.
revert k; induction s1 as [|[a t] s1 IH]; intros k; cbn [app measuredFrom length].
- now rewrite Nat.add_0_r.
- rewrite IH. do 3 f_equal. lia.
Qed.

Lemma animationLoop_measured (getBounds : Runtime) (animations : list Animation) (k : nat)
  (e : Extremes) :
animationLoop getBounds animations k e
= (k + length (samplesTaken animations),
   fold_left include (measuredFrom getBounds k (samplesTaken animations)) e).
Proof.
revert k e; induction animations as [|a rest IH]; intros k e; cbn [animationLoop].
- cbn. now rewrite Nat.add_0_r.
- rewrite sampleLoop_measured, IH. unfold samplesTaken. cbn [flat_map].
  fold (samplesTaken rest). rewrite measuredFrom_app, fold_left_app, length_app, length_map,
    length_seq.
  f_equal. lia.
Qed.

Lemma include_bounding_kept (e : Extremes) (b c : Box) :
bounding e b -> bounding (include e c) b.
Proof.
intros ((x0 & Hx0 & Lx0) & (y0 & Hy0 & Ly0) & (x1 & Hx1 & Lx1) & (y1 & Hy1 & Ly1)).
unfold bounding, include, least, greatest. cbn. rewrite Hx0, Hy0, Hx1, Hy1.
repeat split; eexists; (split; [reflexivity|]).
- eapply Qle_trans; [apply Q.le_min_l|exact Lx0].
- eapply Qle_trans; [apply Q.le_min_l|exact Ly0].
- eapply Qle_trans; [exact Lx1|apply Q.le_max_l].
- eapply Qle_trans; [exact Ly1|apply Q.le_max_l].
Qed.

Lemma include_bounding_new (e : Extremes) (b : Box) : bounding (include e b) b.
Proof.
unfold bounding, include, least, greatest. cbn.
repeat split; eexists; (split; [reflexivity|]).
- destruct (minX e); [apply Q.le_min_r|apply Qle_refl].
- destruct (minY e); [apply Q.le_min_r|apply Qle_refl].
- destruct (maxX e); [apply Q.le_max_r|apply Qle_refl].
- destruct (maxY e); [apply Q.le_max_r|apply Qle_refl].
Qed.

Lemma fold_include_bounding (boxes : list Box) (e : Extremes) (b : Box) :
bounding e b \/ b ∈ boxes -> bounding (fold_left include boxes e) b.
Proof.
revert e; induction boxes as [|c boxes IH]; intros e [H|H]; cbn [fold_left].
- exact H.
- now apply elem_of_nil in H.
- apply IH. left. now apply include_bounding_kept.
- apply elem_of_cons in H as [->|H]; apply IH.
  + left. apply include_bounding_new.
  + now right.
Qed.

Lemma padded_inside (fraction : Q) (e : Extremes) (b : Box) :
(0 <= fraction)%Q -> bounding e b -> (0 <= size_x b)%Q -> (0 <= size_y b)%Q ->
exists box, padded fraction e = Some box /\ inside box b
  /\ exists x0 y0 x1 y1, minX e = Some x0 /\ minY e = Some y0
       /\ maxX e = Some x1 /\ maxY e = Some y1
       /\ (size_x box == (x1 - x0) * (1 + 2 * fraction))%Q
       /\ (size_y box == (y1 - y0) * (1 + 2 * fraction))%Q
       /\ (offset_x box + size_x box / 2 == (x0 + x1) / 2)%Q
       /\ (offset_y box + size_y box / 2 == (y0 + y1) / 2)%Q.
Proof.
intros Hf ((x0 & Hx0 & Lx0) & (y0 & Hy0 & Ly0) & (x1 & Hx1 & Lx1) & (y1 & Hy1 & Ly1)) Hw Hh.
unfold padded. rewrite Hx0, Hy0, Hx1, Hy1. eexists. split; [reflexivity|].
assert (Wx : (0 <= (x1 - x0) * fraction)%Q).
{ apply Qmult_le_0_compat; [lra|exact Hf]. }
assert (Wy : (0 <= (y1 - y0) * fraction)%Q).
{ apply Qmult_le_0_compat; [lra|exact Hf]. }
split.
- unfold inside. cbn [offset_x offset_y size_x size_y].
  set (px := ((x1 - x0) * fraction)%Q) in *. set (py := ((y1 - y0) * fraction)%Q) in *.
  repeat split; lra.
- exists x0, y0, x1, y1. cbn [offset_x offset_y size_x size_y].
  repeat split; try reflexivity; try ring; field.
Qed.

Lemma measured_nonempty (getBounds : Runtime) (animations : list Animation) (b : Box) :
b ∈ measured getBounds animations -> animations ≠ [].
Proof. intros H ->. now apply elem_of_nil in H. Qed.

Lemma computeGlobalBounds_inside (getBounds : Runtime) (animations : list Animation) (b : Box) :
b ∈ measured getBounds animations -> (0 <= size_x b)%Q -> (0 <= size_y b)%Q ->
exists bounds, computeGlobalBounds getBounds animations = Some bounds /\ inside bounds b.
Proof.
intros Hb Hw Hh. pose proof (measured_nonempty _ _ _ Hb) as Hne.
unfold computeGlobalBounds. destruct animations as [|a rest]; [contradiction|].
rewrite animationLoop_measured. cbn [snd].
destruct (padded_inside (15 # 100) _ b (ltac:(discriminate))
            (fold_include_bounding _ start b (or_intror Hb)) Hw Hh) as (box & Hbox & Hin & _).
exists box. split; assumption.
Qed.

Lemma length_measuredFrom (getBounds : Runtime) (k : nat) (samples : list (Animation * jsnum)) :
length (measuredFrom getBounds k samples) = length samples.
Proof.
revert k; induction samples as [|[a t] samples IH]; intros k; cbn; [reflexivity|].
now rewrite IH.
Qed.

Lemma length_samplesTaken (animations : list Animation) :
length (samplesTaken animations)
= list_sum (map (fun a => if gt (anim_duration a) (ofZ 0) then 6 else 2) animations).
Proof.
induction animations as [|a rest IH]; [reflexivity|].
unfold samplesTaken. cbn [flat_map map list_sum]. fold (samplesTaken rest).
rewrite length_app, IH, length_map, length_seq. unfold samplesOf.
now destruct (gt (anim_duration a) (ofZ 0)).
Qed.

Lemma least_lowest (f : Box -> Q) (seen : list Box) (acc : option Q) (c : Box) :
lowestSoFar f seen acc -> lowestSoFar f (seen ++ [c]) (least acc (f c)).
Proof.
unfold lowestSoFar, least. destruct acc as [a|].
- intros [Hall (w & Hw & Ew)].
  destruct (Q.min_spec a (f c)) as [[Hlt Hm]|[Hle Hm]]; split.
  + intros b Hb. apply elem_of_app in Hb as [Hb|Hb].
    * specialize (Hall b Hb). lra.
    * apply list_elem_of_singleton in Hb as ->. lra.
  + exists w. split; [apply elem_of_app; now left|lra].
  + intros b Hb. apply elem_of_app in Hb as [Hb|Hb].
    * specialize (Hall b Hb). lra.
    * apply list_elem_of_singleton in Hb as ->. lra.
  + exists c. split; [apply elem_of_app; right; now left|exact Hm].
- intros ->. split.
  + intros b Hb. apply list_elem_of_singleton in Hb as ->. apply Qle_refl.
  + exists c. split; [now left|reflexivity].
Qed.

Lemma greatest_highest (f : Box -> Q) (seen : list Box) (acc : option Q) (c : Box) :
highestSoFar f seen acc -> highestSoFar f (seen ++ [c]) (greatest acc (f c)).
Proof.
unfold highestSoFar, greatest. destruct acc as [a|].
- intros [Hall (w & Hw & Ew)].
  destruct (Q.max_spec a (f c)) as [[Hlt Hm]|[Hle Hm]]; split.
  + intros b Hb. apply elem_of_app in Hb as [Hb|Hb].
    * specialize (Hall b Hb). lra.
    * apply list_elem_of_singleton in Hb as ->. lra.
  + exists c. split; [apply elem_of_app; right; now left|exact Hm].
  + intros b Hb. apply elem_of_app in Hb as [Hb|Hb].
    * specialize (Hall b Hb). lra.
    * apply list_elem_of_singleton in Hb as ->. lra.
  + exists w. split; [apply elem_of_app; now left|lra].
- intros ->. split.
  + intros b Hb. apply list_elem_of_singleton in Hb as ->. apply Qle_refl.
  + exists c. split; [now left|reflexivity].
Qed.

Lemma fold_include_scanned (boxes seen : list Box) (e : Extremes) :
scanned seen e -> scanned (seen ++ boxes) (fold_left include boxes e).
Proof.
revert seen e; induction boxes as [|c boxes IH]; intros seen e H; cbn [fold_left].
- now rewrite app_nil_r.
- replace (seen ++ c :: boxes) with ((seen ++ [c]) ++ boxes) by now rewrite <- app_assoc.
  apply IH. destruct H as (H1 & H2 & H3 & H4). unfold scanned, include.
  cbn [minX minY maxX maxY]. split; [|split; [|split]].
  + now apply least_lowest.
  + now apply least_lowest.
  + now apply (greatest_highest edge_x).
  + now apply (greatest_highest edge_y).
Qed.

Lemma measured_cons (getBounds : Runtime) (animations : list Animation) :
animations ≠ [] -> measured getBounds animations ≠ [].
Proof.
intros Hne Hnil. apply (f_equal length) in Hnil.
unfold measured in Hnil. rewrite length_measuredFrom, length_samplesTaken in Hnil.
destruct animations as [|a rest]; [contradiction|]. cbn [map] in Hnil.
destruct (gt (anim_duration a) (ofZ 0)); simpl in Hnil; lia.
Qed.

(** X16: on an asset with animations [computeGlobalBounds] measures the box
    of the skeleton six times for each animation of positive duration and
    twice for each other one, and sets the bounds to the hull of the boxes
    it measured, widened by 15% of its width and of its height on each
    side: with [x0], [y0] the least offsets of the boxes and [x1], [y1] the
    greatest far edges, each that of a measured box, the bounds begin at
    [x0 - (x1 - x0) * 0.15] and are [(x1 - x0) + (x1 - x0) * 0.15 * 2] wide,
    and so in the height.  The bounds hold every box that was measured (of
    a size that is not negative). *)
Theorem global_bounds_hold_every_sample (getBounds : Runtime) (animations : list Animation) :
animations ≠ [] ->
let boxes := measured getBounds animations in
length boxes = list_sum (map (fun a => if gt (anim_duration a) (ofZ 0) then 6 else 2) animations)
/\ exists x0 y0 x1 y1 bounds,
     lowest offset_x boxes x0 /\ lowest offset_y boxes y0
     /\ highest edge_x boxes x1 /\ highest edge_y boxes y1
     /\ computeGlobalBounds getBounds animations = Some bounds
     /\ (offset_x bounds == x0 - (x1 - x0) * (15 # 100))%Q
     /\ (offset_y bounds == y0 - (y1 - y0) * (15 # 100))%Q
     /\ (size_x bounds == (x1 - x0) + (x1 - x0) * (15 # 100) * 2)%Q
     /\ (size_y bounds == (y1 - y0) + (y1 - y0) * (15 # 100) * 2)%Q
     /\ forall b, b ∈ boxes -> (0 <= size_x b)%Q -> (0 <= size_y b)%Q -> inside bounds b.
Proof.
intros Hne boxes. split.
{ unfold boxes, measured. now rewrite length_measuredFrom, length_samplesTaken. }
pose proof (measured_cons getBounds animations Hne) as Hbox. fold boxes in Hbox.
pose proof (fold_include_scanned boxes [] start (conj eq_refl (conj eq_refl (conj eq_refl eq_refl))))
  as (H1 & H2 & H3 & H4).
cbn [app] in H1, H2, H3, H4.
assert (Hcgb : computeGlobalBounds getBounds animations
               = padded (15 # 100) (fold_left include boxes start)).
{ unfold computeGlobalBounds. destruct animations as [|a rest]; [contradiction|].
  now rewrite animationLoop_measured. }
unfold lowestSoFar, highestSoFar in H1, H2, H3, H4.
destruct (minX (fold_left include boxes start)) as [x0|] eqn:Ex0; [|contradiction].
destruct (minY (fold_left include boxes start)) as [y0|] eqn:Ey0; [|contradiction].
destruct (maxX (fold_left include boxes start)) as [x1|] eqn:Ex1; [|contradiction].
destruct (maxY (fold_left include boxes start)) as [y1|] eqn:Ey1; [|contradiction].
exists x0, y0, x1, y1.
eexists. split; [exact H1|]. split; [exact H2|]. split; [exact H3|]. split; [exact H4|].
split. { rewrite Hcgb. unfold padded. rewrite Ex0, Ey0, Ex1, Ey1. reflexivity. }
cbn [offset_x offset_y size_x size_y].
split; [reflexivity|]. split; [reflexivity|]. split; [reflexivity|]. split; [reflexivity|].
intros b Hb Hw Hh.
destruct H1 as [L1 _], H2 as [L2 _], H3 as [L3 _], H4 as [L4 _].
specialize (L1 b Hb). specialize (L2 b Hb). specialize (L3 b Hb). specialize (L4 b Hb).
unfold edge_x in L3. unfold edge_y in L4.
unfold inside. cbn [offset_x offset_y size_x size_y].
assert (Wx : (0 <= (x1 - x0) * (15 # 100))%Q) by (apply Qmult_le_0_compat; [lra|discriminate]).
assert (Wy : (0 <= (y1 - y0) * (15 # 100))%Q) by (apply Qmult_le_0_compat; [lra|discriminate]).
set (px := ((x1 - x0) * (15 # 100))%Q) in *. set (py := ((y1 - y0) * (15 # 100))%Q) in *.
repeat split; lra.
Qed.

Lemma global_bounds_hold_every_sample_witness :
let getBounds : Runtime := fun k a t => {| offset_x := - inject_Z (Z.of_nat k); offset_y := 0;
                                           size_x := 10; size_y := 20 |} in
let animations := Fixtures.anims [("idle", 1 # 1); ("pose", 0 # 1)] in
exists bounds, computeGlobalBounds getBounds animations = Some bounds
               /\ inside bounds {| offset_x := -7; offset_y := 0; size_x := 10; size_y := 20 |}.
Proof.
intros getBounds animations.
destruct (global_bounds_hold_every_sample getBounds animations)
  as (_ & x0 & y0 & x1 & y1 & bounds & _ & _ & _ & _ & Hb & _ & _ & _ & _ & Hin).
- discriminate.
- exists bounds. split; [exact Hb|]. apply Hin.
  + apply list_elem_of_In. vm_compute. do 7 right. left. reflexivity.
  + discriminate.
  + discriminate.
Defined.

(** *** The view *)

Lemma view_spec (b : Box) (canvasW canvasH scale : Q) :
(0 < size_x b)%Q -> (0 < size_y b)%Q -> (0 < canvasW)%Q -> (0 < canvasH)%Q -> (0 < scale)%Q ->
exists v, view b canvasW canvasH scale = Some v
  /\ (size_x v * canvasH == size_y v * canvasW)%Q
  /\ (offset_x v + size_x v / 2 == offset_x b + size_x b / 2)%Q
  /\ (offset_y v + size_y v / 2 == offset_y b + size_y b / 2)%Q
  /\ (size_x b <= size_x v * scale)%Q /\ (size_y b <= size_y v * scale)%Q
  /\ ((size_x b == size_x v * scale)%Q \/ (size_y b == size_y v * scale)%Q).
Proof.
intros Hw Hh Hcw Hch Hs. unfold view.
assert (Nw : ~ (canvasW == 0)%Q) by lra. assert (Nh : ~ (canvasH == 0)%Q) by lra.
assert (Nc : ~ (size_y b == 0)%Q) by lra. assert (Ns : ~ (scale == 0)%Q) by lra.
assert (Na : ~ (canvasW / canvasH == 0)%Q).
{ intros H. apply (Qmult_inj_r _ _ canvasH Nh) in H.
  assert (E1 : (canvasW / canvasH * canvasH == canvasW)%Q) by (field; exact Nh).
  rewrite E1, Qmult_0_l in H. contradiction. }
unfold quotient. rewrite !Qeq_bool_false by assumption. cbn [exceeds].
destruct (Qle_bool (canvasW / canvasH) (size_x b / size_y b)) eqn:E;
  cbn [negb times over zoomed]; unfold quotient; rewrite !Qeq_bool_false by assumption;
  cbn [zoomed]; unfold quotient; rewrite ?Qeq_bool_false by assumption.
- apply Qle_bool_iff in E. eexists. split; [reflexivity|]. cbn [offset_x offset_y size_x size_y].
  assert (Hfit : (size_y b * canvasW <= size_x b * canvasH)%Q).
  { apply (Qmult_le_compat_r _ _ (canvasH * size_y b)) in E.
    - assert (E1 : (canvasW / canvasH * (canvasH * size_y b) == size_y b * canvasW)%Q)
        by (field; exact Nh).
      assert (E2 : (size_x b / size_y b * (canvasH * size_y b) == size_x b * canvasH)%Q)
        by (field; exact Nc).
      now rewrite E1, E2 in E.
    - apply Qlt_le_weak. rewrite <- (Qmult_0_l (size_y b)). now apply Qmult_lt_compat_r. }
  repeat split.
  + field. repeat split; assumption.
  + field. exact Ns.
  + field. repeat split; assumption.
  + assert (E1 : (size_x b / scale * scale == size_x b)%Q) by (field; exact Ns).
    rewrite E1. apply Qle_refl.
  + assert (E1 : (size_x b / (canvasW / canvasH) / scale * scale
                  == size_x b * canvasH / canvasW)%Q) by (field; repeat split; assumption).
    rewrite E1. apply Qle_shift_div_l; assumption.
  + left. field. exact Ns.
- assert (E' : ~ (canvasW / canvasH <= size_x b / size_y b)%Q).
  { intros H. apply Qle_bool_iff in H. congruence. }
  apply Qnot_le_lt in E'. eexists. split; [reflexivity|].
  cbn [offset_x offset_y size_x size_y].
  assert (Hfit : (size_x b * canvasH < size_y b * canvasW)%Q).
  { apply (Qmult_lt_compat_r _ _ (canvasH * size_y b)) in E'.
    - assert (E1 : (canvasW / canvasH * (canvasH * size_y b) == size_y b * canvasW)%Q)
        by (field; exact Nh).
      assert (E2 : (size_x b / size_y b * (canvasH * size_y b) == size_x b * canvasH)%Q)
        by (field; exact Nc).
      now rewrite E1, E2 in E'.
    - rewrite <- (Qmult_0_l (size_y b)). now apply Qmult_lt_compat_r. }
  repeat split.
  + field. repeat split; assumption.
  + field. repeat split; assumption.
  + field. exact Ns.
  + assert (E1 : (size_y b * (canvasW / canvasH) / scale * scale
                  == size_y b * canvasW / canvasH)%Q) by (field; repeat split; assumption).
    rewrite E1. apply Qle_shift_div_l; [assumption|]. now apply Qlt_le_weak.
  + assert (E1 : (size_y b / scale * scale == size_y b)%Q) by (field; exact Ns).
    rewrite E1. apply Qle_refl.
  + right. field. exact Ns.
Qed.

(** A content without height has no finite aspect ratio: the view is as wide
    as the content and as high as the canvas makes it. *)
Lemma view_of_flat_content :
exists v, view {| offset_x := 0; offset_y := 0; size_x := 100; size_y := 0 |} 200 100 1 = Some v
          /\ (size_x v == 100)%Q /\ (size_y v == 50)%Q /\ (offset_y v == -25)%Q.
Proof. eexists. split; [reflexivity|]. repeat split. Qed.

Lemma centre_doubled (a b c d : Q) :
(a + b / 2 == c + d / 2)%Q -> (2 * a + b == 2 * c + d)%Q.
Proof.
intros H.
assert (E1 : (2 * a + b == 2 * (a + b / 2))%Q) by field.
assert (E2 : (2 * c + d == 2 * (c + d / 2))%Q) by field.
now rewrite E1, E2, H.
Qed.



(** X18: every pose that the scan of an asset measured with a positive
    extent is shown whole in every frame: at the zoom 1, which an export
    never changes, its box lies inside the view of the global bounds on
    every canvas of positive size. *)
Theorem every_sampled_pose_fits_the_frame (getBounds : Runtime) (animations : list Animation)
  (b : Box) (canvasW canvasH : Q) :
b ∈ measured getBounds animations -> (0 < size_x b)%Q -> (0 < size_y b)%Q ->
(0 < canvasW)%Q -> (0 < canvasH)%Q ->
exists bounds v, computeGlobalBounds getBounds animations = Some bounds
                 /\ view bounds canvasW canvasH 1 = Some v
                 /\ inside v b.
Proof.
intros Hb Hw Hh Hcw Hch.
destruct (computeGlobalBounds_inside getBounds animations b Hb) as (bounds & Hbounds & Hin);
  [lra|lra|].
destruct Hin as (I1 & I2 & I3 & I4).
destruct (view_spec bounds canvasW canvasH 1) as (v & Hv & _ & Cx & Cy & Fx & Fy & _);
  try lra.
exists bounds, v. split; [exact Hbounds|]. split; [exact Hv|].
apply centre_doubled in Cx, Cy.
unfold inside. repeat split; lra.
Qed.

Lemma every_sampled_pose_fits_the_frame_witness :
let getBounds : Runtime := fun k a t => {| offset_x := - inject_Z (Z.of_nat k); offset_y := 0;
                                           size_x := 10; size_y := 20 |} in
let animations := Fixtures.anims [("idle", 1 # 1); ("pose", 0 # 1)] in
exists bounds v, computeGlobalBounds getBounds animations = Some bounds
                 /\ view bounds 720 720 1 = Some v
                 /\ inside v {| offset_x := -7; offset_y := 0; size_x := 10; size_y := 20 |}.
Proof.
cbv zeta.
refine (every_sampled_pose_fits_the_frame _ (Fixtures.anims [("idle", 1 # 1); ("pose", 0 # 1)])
          {| offset_x := -7; offset_y := 0; size_x := 10; size_y := 20 |} 720 720 _ _ _ _ _);
  try reflexivity.
apply list_elem_of_In. vm_compute. do 7 right. left. reflexivity.
Defined.

End FramingProperties.

(** ** Playback and the preview loop *)

Section PlaybackProperties.

Import SpineRenderer Playback.

Lemma renderFrames_cons (d : jsnum) (ds : list jsnum) (r : t) :
renderFrames (d :: ds) r = renderFrames ds (updateAndRender d r).
Proof. reflexivity. Qed.

Lemma renderFrames_paused (ds : list jsnum) (r : t) (anims : list Animation) (tr : Track) :
data r = Some anims -> bounds r = true -> isPlaying r = false -> track r = Some tr ->
ds ≠ [] ->
picture (renderFrames ds r)
= Some {| cleared := bgColor r; posedAt := Some (trackTime tr) |}
/\ track (renderFrames ds r) = Some tr.
Proof.
intros Hd Hb Hp Htr Hne. destruct ds as [|d ds]; [contradiction|]. clear Hne.
revert d r Hd Hb Hp Htr. induction ds as [|d' ds IH]; intros d r Hd Hb Hp Htr.
- unfold renderFrames. cbn [fold_left]. unfold updateAndRender. rewrite Hd, Hb, Hp, Htr.
  split; reflexivity.
- rewrite renderFrames_cons.
  assert (Hstep : updateAndRender d r
                  = mk (canvas_width r) (canvas_height r)
                       (Some {| cleared := bgColor r; posedAt := Some (trackTime tr) |})
                       (data r) (bounds r) (Some tr) (bgColor r) (isPlaying r) (timeScale r)
                       (isRunning r) (targetFPS r) (anim_duration (track_animation tr))).
  { unfold updateAndRender. now rewrite Hd, Hb, Hp, Htr. }
  rewrite Hstep.
  match goal with |- context [renderFrames _ ?x] => set (r1 := x) end.
  change (bgColor r) with (bgColor r1). apply IH; subst r1; cbn; first [assumption|reflexivity].
Qed.

(** X19: a renderer that is paused and sought to a time holds that pose: the
    frames rendered afterwards, whatever their deltas, all show the asset at
    the time sought, and the track does not move. *)
Theorem paused_renderer_holds_the_sought_pose (time : jsnum) (ds : list jsnum) (r : t)
  (anims : list Animation) (tr : Track) :
data r = Some anims -> bounds r = true -> track r = Some tr -> ds ≠ [] ->
let r' := renderFrames ds (seek time (setPaused true r)) in
picture r' = Some {| cleared := bgColor r; posedAt := Some time |}
/\ (trackTime <$> track r') = Some time.
Proof.
intros Hd Hb Htr Hne r'. subst r'.
assert (E : seek time (setPaused true r)
            = mk (canvas_width r) (canvas_height r) (picture r) (data r) (bounds r)
                 (Some {| track_animation := track_animation tr; trackTime := time;
                          track_loop := track_loop tr |})
                 (bgColor r) false (timeScale r) (isRunning r) (targetFPS r) (totalTime r)).
{ unfold seek, setPaused. cbn. now rewrite Hd, Htr. }
rewrite E.
match goal with |- context [renderFrames ds ?x] => set (r1 := x) end.
destruct (renderFrames_paused ds r1 anims
            {| track_animation := track_animation tr; trackTime := time;
               track_loop := track_loop tr |} Hd Hb eq_refl eq_refl Hne) as [Hpic Htrack].
rewrite Hpic, Htrack. split; reflexivity.
Qed.

Lemma paused_renderer_holds_the_sought_pose_witness :
let r := ready (Fixtures.taskOf png_sequence None Fixtures.itemA "walk") in
picture (renderFrames [Num (1 # 60); Num (1 # 60)] (seek (Num (1 # 2)) (setPaused true r)))
= Some {| cleared := bgColor r; posedAt := Some (Num (1 # 2)) |}.
Proof.
cbv zeta.
refine (proj1 (paused_renderer_holds_the_sought_pose (Num (1 # 2)) [Num (1 # 60); Num (1 # 60)]
                 (ready (Fixtures.taskOf png_sequence None Fixtures.itemA "walk"))
                 (Fixtures.anims [("idle", 1 # 1); ("walk", 3 # 2)])
                 {| track_animation := {| anim_name := "walk"; anim_duration := Num (3 # 2) |};
                    trackTime := ofZ 0; track_loop := false |} _ _ _ _));
  try reflexivity; discriminate.
Defined.




End PlaybackProperties.

(** ** The preview loop *)

Section PreviewProperties.

Import PreviewLoop.







Lemma renderLoop_frozen (now l : Q) (p : t) :
frameInterval p = Infinite -> lastFrameTime p = Num l ->
snd (renderLoop now p) = None
/\ frameInterval (fst (renderLoop now p)) = Infinite
/\ lastFrameTime (fst (renderLoop now p)) = Num l.
Proof.
intros Hint Hl. unfold renderLoop. rewrite Hint, Hl.
destruct (SpineRenderer.isRunning (renderer p)); cbn; repeat split; reflexivity.
Qed.

Lemma frames_frozen (times : list Q) (l : Q) (p : t) :
frameInterval p = Infinite -> lastFrameTime p = Num l -> snd (frames times p) = [].
Proof.
revert p; induction times as [|now rest IH]; intros p Hint Hl; [reflexivity|].
cbn [frames]. destruct (pending p); [|now apply IH].
destruct (renderLoop_frozen now l p Hint Hl) as (Hout & Hint' & Hl').
destruct (renderLoop now p) as [p1 out]. cbn [fst snd] in *. subst out.
specialize (IH p1 Hint' Hl'). now destruct (frames rest p1).
Qed.

(** X22: a target frame rate of 0 freezes the preview: the frame interval is
    then infinite, and however long the loop runs, no frame is rendered
    until another rate is set. *)
Theorem zero_frame_rate_freezes_the_preview (times : list Q) (l : Q) (p : t) :
lastFrameTime p = Num l ->
snd (frames times (setTargetFPS (ofZ 0) p)) = [].
Proof. intros Hl. now apply (frames_frozen times l). Qed.

Lemma zero_frame_rate_freezes_the_preview_witness :
snd (frames [16%Q; 33%Q; 50%Q; 1000%Q]
       (setTargetFPS (ofZ 0) (fst (start 0%Q 0%Q 0%Q (create (ofZ 300) (ofZ 150)))))) = [].
Proof.
apply (zero_frame_rate_freezes_the_preview [16%Q; 33%Q; 50%Q; 1000%Q] 0%Q
         (fst (start 0%Q 0%Q 0%Q (create (ofZ 300) (ofZ 150))))).
reflexivity.
Defined.

End PreviewProperties.

(** ** The object URLs of an asset *)

Section UrlProperties.

Import AssetUrls.

Lemma live_revokeAll (us : list nat) (s : Store) :
live (foldr revokeObjectURL s us) = live s ∖ list_to_set us
/\ next (foldr revokeObjectURL s us) = next s.
Proof.
induction us as [|u us [IH1 IH2]]; cbn [foldr].
- split; [|reflexivity]. rewrite list_to_set_nil. set_solver.
- unfold revokeObjectURL at 1 3. cbn [live next]. rewrite IH1, IH2, list_to_set_cons.
  split; [|reflexivity]. set_solver.
Qed.

Lemma revokeAssetUrls_spec (urls : gmap string nat) (s : Store) :
live (revokeAssetUrls urls s) = live s ∖ map_img urls
/\ next (revokeAssetUrls urls s) = next s.
Proof.
unfold revokeAssetUrls. destruct (live_revokeAll (snd <$> map_to_list urls) s) as [-> ->].
split; [|reflexivity]. f_equal.
Qed.

Lemma map_img_insert_held (urls : gmap string nat) (name : string) (u v : nat) :
(forall i j w, urls !! i = Some w -> urls !! j = Some w -> i = j) ->
urls !! name = Some v -> u ∉ map_img (SA := gset nat) urls ->
map_img (SA := gset nat) (<[name := u]> urls) = {[u]} ∪ (map_img urls ∖ {[v]}).
Proof.
intros Hinj Hv Hu. apply set_eq. intros w.
rewrite elem_of_union, elem_of_singleton, elem_of_difference, !elem_of_map_img,
  not_elem_of_singleton.
split.
- intros [i Hi]. destruct (decide (i = name)) as [->|Hne].
  + rewrite lookup_insert_eq in Hi. injection Hi as <-. now left.
  + rewrite lookup_insert_ne in Hi by congruence. right. split; [now exists i|].
    intros ->. apply Hne. now apply (Hinj i name v).
- intros [->|[[i Hi] Hne]].
  + exists name. apply lookup_insert_eq.
  + exists i. rewrite lookup_insert_ne; [exact Hi|]. intros <-. congruence.
Qed.

Lemma map_img_insert_new (urls : gmap string nat) (name : string) (u : nat) :
urls !! name = None ->
map_img (SA := gset nat) (<[name := u]> urls) = {[u]} ∪ map_img urls.
Proof. intros H. now apply map_img_insert_notin_L. Qed.

(** One assignment: the map stays injective and live, and the URL that the
    name held before, if any, is no longer held. *)
Lemma assign_spec (urls : gmap string nat) (s : Store) (name : string) :
Mapped urls s -> numbered s ->
let urls' := fst (assign (urls, s) name) in
let s' := snd (assign (urls, s) name) in
Mapped urls' s' /\ numbered s' /\ next s' = S (next s)
/\ live s' = {[next s]} ∪ live s
/\ dom urls' = {[name]} ∪ dom urls
/\ size (unheld urls' s') + size (dom urls') = S (size (unheld urls s) + size (dom urls))
/\ forall i u, urls' !! i = Some u -> urls !! i = Some u \/ next s <= u.
Proof.
intros [Hinj Hlive] Hnum. cbv zeta. unfold assign, createObjectURL. cbn [fst snd next live].
assert (Hfresh : next s ∉ live s).
{ intros H. apply Hnum in H. lia. }
assert (Hnew : next s ∉ map_img (SA := gset nat) urls).
{ intros H. apply elem_of_map_img in H as [i Hi]. apply Hlive in Hi. contradiction. }
split; [split|split; [|split; [|split; [|split; [|split]]]]].
8:{ intros i u Hi. destruct (decide (i = name)) as [->|Hi'].
    - rewrite lookup_insert_eq in Hi. injection Hi as <-. now right.
    - rewrite lookup_insert_ne in Hi by congruence. now left. }
- intros i j u Hi Hj.
  destruct (decide (i = name)) as [->|Hi']; destruct (decide (j = name)) as [->|Hj'];
    [reflexivity| | |].
  + rewrite lookup_insert_eq in Hi. injection Hi as <-.
    rewrite lookup_insert_ne in Hj by congruence. apply Hlive in Hj. contradiction.
  + rewrite lookup_insert_eq in Hj. injection Hj as <-.
    rewrite lookup_insert_ne in Hi by congruence. apply Hlive in Hi. contradiction.
  + rewrite lookup_insert_ne in Hi, Hj by congruence. now apply (Hinj i j u).
- intros i u Hi. cbn [live]. destruct (decide (i = name)) as [->|Hi'].
  + rewrite lookup_insert_eq in Hi. injection Hi as <-. set_solver.
  + rewrite lookup_insert_ne in Hi by congruence. apply Hlive in Hi. set_solver.
- intros u Hu. cbn [live next] in *. apply elem_of_union in Hu as [Hu|Hu].
  + apply elem_of_singleton in Hu as ->. lia.
  + apply Hnum in Hu. lia.
- reflexivity.
- reflexivity.
- apply dom_insert_L.
- unfold unheld. cbn [live]. rewrite dom_insert_L.
  destruct (urls !! name) as [v|] eqn:Hv.
  + rewrite (map_img_insert_held urls name (next s) v Hinj Hv Hnew).
    assert (Hdom : {[name]} ∪ dom urls = dom urls).
    { apply elem_of_dom_2 in Hv. set_solver. }
    rewrite Hdom.
    assert (Hset : ({[next s]} ∪ live s) ∖ ({[next s]} ∪ map_img urls ∖ {[v]})
                   = {[v]} ∪ (live s ∖ map_img (SA := gset nat) urls)).
    { apply set_eq. intros w. pose proof (Hlive name v Hv) as Hvl.
      rewrite elem_of_difference, !elem_of_union, !elem_of_singleton, !elem_of_difference,
        !elem_of_singleton.
      split.
      - intros [[->|Hw] Hn].
        + exfalso. apply Hn. now left.
        + destruct (decide (w = v)) as [->|Hwv]; [now left|right].
          split; [exact Hw|]. intros Hin. apply Hn. right. now split.
      - intros [->|[Hw Hn]].
        + split; [now right|]. intros [->|[_ Hne]]; [contradiction|now apply Hne].
        + split; [now right|]. intros [->|[Hin _]]; contradiction. }
    rewrite Hset, size_union.
    * rewrite size_singleton. lia.
    * apply disjoint_singleton_l. rewrite elem_of_difference. intros [_ Hn]. apply Hn.
      apply elem_of_map_img. now exists name.
  + rewrite (map_img_insert_new urls name (next s) Hv).
    assert (Hset : ({[next s]} ∪ live s) ∖ ({[next s]} ∪ map_img urls)
                   = live s ∖ map_img (SA := gset nat) urls).
    { apply set_eq. intros w.
      rewrite !elem_of_difference, !elem_of_union, !elem_of_singleton.
      split.
      - intros [[->|Hw] Hn]; [exfalso; apply Hn; now left|].
        split; [exact Hw|]. intros Hin. apply Hn. now right.
      - intros [Hw Hn]. split; [now right|]. intros [->|Hin]; contradiction. }
    rewrite Hset, (size_union (C := gset string) {[name]} (dom urls)).
    * rewrite size_singleton. lia.
    * apply disjoint_singleton_l. now apply not_elem_of_dom.
Qed.

Lemma assignAll_spec (names : list string) (urls : gmap string nat) (s : Store) :
Mapped urls s -> numbered s ->
let urls' := fst (fold_left assign names (urls, s)) in
let s' := snd (fold_left assign names (urls, s)) in
Mapped urls' s' /\ numbered s' /\ next s' = next s + length names
/\ live s ⊆ live s'
/\ dom urls' = list_to_set names ∪ dom urls
/\ size (unheld urls' s') + size (dom urls')
   = size (unheld urls s) + size (dom urls) + length names
/\ forall i u, urls' !! i = Some u -> urls !! i = Some u \/ next s <= u.
Proof.
revert urls s; induction names as [|name names IH]; intros urls s Hm Hn; cbv zeta.
- cbn [fold_left fst snd length]. rewrite list_to_set_nil.
  split; [exact Hm|]. split; [exact Hn|]. split; [lia|]. split; [reflexivity|].
  split; [now rewrite union_empty_l_L|]. split; [lia|]. intros i u Hi. now left.
- cbn [fold_left].
  destruct (assign_spec urls s name Hm Hn) as (Hm1 & Hn1 & Hx1 & Hl1 & Hd1 & Hc1 & Ho1).
  destruct (assign (urls, s) name) as [urls1 s1]. cbn [fst snd] in *.
  destruct (IH urls1 s1 Hm1 Hn1) as (Hm2 & Hn2 & Hx2 & Hl2 & Hd2 & Hc2 & Ho2).
  split; [exact Hm2|]. split; [exact Hn2|]. split; [cbn [length]; lia|].
  split; [rewrite Hl1 in Hl2; intros u Hu; apply Hl2, elem_of_union; now right|].
  split; [rewrite Hd2, Hd1, list_to_set_cons;
          now rewrite (comm_L (∪) {[name]} (list_to_set names)), <- (assoc_L (∪))|].
  split; [cbn [length]; lia|].
  intros i u Hi. destruct (Ho2 i u Hi) as [H|H]; [|right; lia].
  destruct (Ho1 i u H) as [H'|H']; [now left|now right].
Qed.

Lemma createAssetUrls_fold (files : SpineFiles) (images : list string) (s : Store) :
createAssetUrls files images s = fold_left assign (fileNames files images) (∅, s).
Proof.
unfold createAssetUrls, fileNames.
destruct (skeleton files), (atlas files); reflexivity.
Qed.

Lemma Mapped_empty (s : Store) : Mapped ∅ s.
Proof. split; intros *; rewrite lookup_empty; discriminate. Qed.

Lemma unheld_empty (s : Store) : unheld ∅ s = live s.
Proof. unfold unheld. rewrite map_img_empty_L. set_solver. Qed.

(** What a complete bundle costs: after it is loaded on a renderer and the
    renderer is disposed. *)
Lemma load_dispose_count (files : SpineFiles) (images : list string) (s : Store) :
numbered s -> skeleton files ≠ None -> atlas files ≠ None ->
let s' := revokeAssetUrls (fst (createAssetUrls files images s))
                          (snd (createAssetUrls files images s)) in
live s ⊆ live s' /\ numbered s' /\ next s <= next s'
/\ size (live s') + size (list_to_set (C := gset string) (fileNames files images))
   = size (live s) + length (fileNames files images).
Proof.
intros Hn Hs Ha. cbv zeta. rewrite createAssetUrls_fold.
destruct (assignAll_spec (fileNames files images) ∅ s (Mapped_empty s) Hn)
  as (Hm & Hn' & Hx & Hl & Hd & Hc & Ho).
destruct (fold_left assign (fileNames files images) (∅, s)) as [urls' s'].
cbn [fst snd] in *.
destruct (revokeAssetUrls_spec urls' s') as [Hl' Hx']. rewrite Hl', Hx'.
fold (unheld urls' s'). rewrite unheld_empty, dom_empty_L, size_empty in Hc.
rewrite dom_empty_L, union_empty_r_L in Hd. rewrite Hd in Hc.
split; [|split; [|split; [lia|lia]]].
- intros u Hu. unfold unheld. apply elem_of_difference. split; [now apply Hl|].
  intros Hin. apply elem_of_map_img in Hin as [i Hi].
  destruct (Ho i u Hi) as [H|H]; [now rewrite lookup_empty in H|].
  apply Hn in Hu. lia.
- intros u Hu. rewrite Hl' in Hu. apply elem_of_difference in Hu as [Hu _].
  rewrite Hx'. now apply Hn'.
Qed.

Lemma revoke_new (s : Store) : revokeAssetUrls ∅ s = s.
Proof.
destruct (revokeAssetUrls_spec ∅ s) as [Hl Hx].
destruct s as [n l], (revokeAssetUrls ∅ {| next := n; live := l |}) as [n' l'].
cbn in *. subst. f_equal. rewrite map_img_empty_L. apply difference_empty_L.
Qed.

(** X23: the object URLs of a bundle loaded on a new renderer are all revoked
    by [dispose] exactly when the files of the bundle have different names.
    Where two files share a name the later URL replaces the earlier one in
    the map, and the earlier one is never revoked: after the disposal the
    document holds one URL more than before for each file beyond the first
    of its name. *)
Theorem shared_file_names_leak_urls (files : SpineFiles) (images : list string) (s : Store) :
numbered s -> skeleton files ≠ None -> atlas files ≠ None ->
let loaded := load files images ∅ s in
let s' := snd (dispose (fst loaded) (snd loaded)) in
live s ⊆ live s'
/\ size (live s') + size (list_to_set (C := gset string) (fileNames files images))
   = size (live s) + length (fileNames files images)
/\ (live s' = live s <-> NoDup (fileNames files images)).
Proof.
intros Hn Hs Ha. cbv zeta. unfold load, dispose. cbn [snd]. rewrite revoke_new.
destruct (skeleton files) eqn:Es; [|contradiction].
destruct (atlas files) eqn:Ea; [|contradiction].
assert (Hs' : skeleton files ≠ None) by now rewrite Es.
assert (Ha' : atlas files ≠ None) by now rewrite Ea.
destruct (load_dispose_count files images s Hn Hs' Ha') as (Hsub & _ & _ & Hcount).
split; [exact Hsub|]. split; [exact Hcount|].
pose proof (size_list_to_set_le (fileNames files images)) as Hle.
rewrite <- size_list_to_set_NoDup. split.
- intros E. rewrite E in Hcount. lia.
- intros E. symmetry. apply set_subseteq_size_eq; [exact Hsub|]. lia.
Qed.

Lemma shared_file_names_leak_urls_witness :
let files := Fixtures.filesA in
let s := {| next := 3; live := {[0; 2]} |} in
let loaded := load files ["body.png"; "body.png"] ∅ s in
size (live (snd (dispose (fst loaded) (snd loaded))))
+ size (list_to_set (C := gset string) (fileNames files ["body.png"; "body.png"]))
= size (live s) + 4.
Proof.
cbv zeta.
refine (proj1 (proj2 (shared_file_names_leak_urls Fixtures.filesA ["body.png"; "body.png"]
                        {| next := 3; live := {[0; 2]} |} _ _ _))); try discriminate.
intros u Hu. cbn [live next] in *.
apply elem_of_union in Hu as [Hu|Hu]; apply elem_of_singleton in Hu as ->; lia.
Defined.

(** *** The life of a renderer *)

Lemma loads_kept (bundles : list (SpineFiles * list string)) (urls : gmap string nat)
  (s : Store) (base : gset nat) :
Forall (fun b => NoDup (fileNames (fst b) (snd b))) bundles ->
numbered s -> live s ∖ map_img urls = base ->
let urls' := fst (loads bundles urls s) in
let s' := snd (loads bundles urls s) in
numbered s' /\ live s' ∖ map_img urls' = base.
Proof.
intros Hall. revert urls s. induction Hall as [|[files images] bundles Hnd _ IH];
  intros urls s Hn Hbase; cbv zeta; cbn [loads].
- now split.
- cbn [fst snd] in Hnd. unfold load.
  destruct (revokeAssetUrls_spec urls s) as [Hl1 Hx1].
  assert (Hn1 : numbered (revokeAssetUrls urls s)).
  { intros u Hu. rewrite Hl1 in Hu. rewrite Hx1. apply elem_of_difference in Hu as [Hu _].
    now apply Hn. }
  destruct (skeleton files) eqn:Es; [destruct (atlas files) eqn:Ea|].
  + assert (Hs' : skeleton files ≠ None) by now rewrite Es.
    assert (Ha' : atlas files ≠ None) by now rewrite Ea.
    destruct (load_dispose_count files images _ Hn1 Hs' Ha') as (Hsub & Hn2 & Hx2 & Hcount).
    pose proof (proj2 (size_list_to_set_NoDup (fileNames files images)) Hnd) as Hsize.
    destruct (revokeAssetUrls_spec (fst (createAssetUrls files images (revokeAssetUrls urls s)))
                (snd (createAssetUrls files images (revokeAssetUrls urls s)))) as [Hl3 Hx3].
    assert (Hn3 : numbered (snd (createAssetUrls files images (revokeAssetUrls urls s)))).
    { rewrite createAssetUrls_fold.
      now destruct (assignAll_spec (fileNames files images) ∅ _ (Mapped_empty _) Hn1)
        as (_ & H & _). }
    destruct (createAssetUrls files images (revokeAssetUrls urls s)) as [urls2 s2].
    cbn [fst snd] in *. apply IH; [exact Hn3|].
    rewrite <- Hl3. symmetry. rewrite <- Hbase, <- Hl1.
    apply set_subseteq_size_eq; [exact Hsub|]. lia.
  + apply IH; [exact Hn1|]. rewrite Hl1, Hbase.
    apply set_eq. intros u. rewrite elem_of_difference, <- Hbase, elem_of_difference. tauto.
  + apply IH; [exact Hn1|]. rewrite Hl1, Hbase.
    apply set_eq. intros u. rewrite elem_of_difference, <- Hbase, elem_of_difference. tauto.
Qed.

(** X24: a renderer that only ever loads bundles whose files have different
    names leaves no object URL behind: after any number of loads, failed
    ones among them, [dispose] leaves the document with exactly the URLs it
    held before the renderer was made. *)
Theorem disposed_renderer_leaves_no_url (bundles : list (SpineFiles * list string))
  (s : Store) :
numbered s ->
Forall (fun b => NoDup (fileNames (fst b) (snd b))) bundles ->
let used := loads bundles ∅ s in
live (snd (dispose (fst used) (snd used))) = live s.
Proof.
intros Hn Hall. cbv zeta. unfold dispose. cbn [snd].
destruct (loads_kept bundles ∅ s (live s) Hall Hn) as [_ Hbase].
{ rewrite map_img_empty_L. apply difference_empty_L. }
destruct (revokeAssetUrls_spec (fst (loads bundles ∅ s)) (snd (loads bundles ∅ s))) as [-> _].
exact Hbase.
Qed.

Lemma disposed_renderer_leaves_no_url_witness :
let s := {| next := 3; live := {[0; 2]} |} in
let used := loads [(Fixtures.filesA, ["body.png"; "head.png"]); (Fixtures.filesB, []);
                   (Fixtures.filesC, ["npc.png"])] ∅ s in
live (snd (dispose (fst used) (snd used))) = {[0; 2]}.
Proof.
cbv zeta.
refine (disposed_renderer_leaves_no_url
          [(Fixtures.filesA, ["body.png"; "head.png"]); (Fixtures.filesB, []);
           (Fixtures.filesC, ["npc.png"])] {| next := 3; live := {[0; 2]} |} _ _).
- intros u Hu. cbn [live next] in *.
  apply elem_of_union in Hu as [Hu|Hu]; apply elem_of_singleton in Hu as ->; lia.
- repeat constructor; cbn; rewrite ?elem_of_cons, ?elem_of_nil; intuition discriminate.
Defined.

End UrlProperties.

(** ** The items and the selection *)

Section AppProperties.

Import App.

Lemma selected_upload (newItems : list AnimationItem) (sel : gset string) (i : string) :
i ∈ foldl (fun next it => {[id it]} ∪ next) sel newItems <-> i ∈ sel \/ i ∈ map id newItems.
Proof.
revert sel; induction newItems as [|it rest IH]; intros sel; cbn [foldl map].
- rewrite elem_of_nil. tauto.
- rewrite IH, elem_of_union, elem_of_singleton, elem_of_cons. tauto.
Qed.

Lemma ids_delete (i : string) (st : t) :
ids (handleDelete i st) = List.filter (fun j => negb (String.eqb j i)) (ids st).
Proof.
unfold ids, handleDelete. cbn [items]. induction (items st) as [|e l IH]; [reflexivity|].
cbn [List.filter map]. destruct (String.eqb (idOf e) i); cbn [negb map]; now rewrite IH.
Qed.

Lemma Tidy_step (st : t) (a : Action) : Tidy st -> offered st a -> Tidy (step st a).
Proof.
intros [Hnd Hsel Hact] Hoff. destruct a as [newItems|i multi| |i]; cbn [step].
- destruct Hoff as [Hnew Hfresh].
  assert (Hids : ids (handleFilesUpload newItems st) = ids st ++ map id newItems).
  { unfold ids, handleFilesUpload. cbn [items]. rewrite map_app, map_map. reflexivity. }
  split; rewrite ?Hids.
  + apply NoDup_app. split; [exact Hnd|]. split; [|exact Hnew].
    intros x Hx Hx'. now apply (Hfresh x).
  + intros x Hx. cbn [handleFilesUpload selectedIds] in Hx. apply selected_upload in Hx.
    apply elem_of_app. destruct Hx as [Hx|Hx]; [left; now apply Hsel|now right].
  + intros x Hx. apply elem_of_app. left. now apply Hact.
- cbn [offered] in Hoff. split; cbn [handleSelect items selectedIds activeItemId];
    try exact Hnd.
  + intros x Hx. change (ids (handleSelect i multi st)) with (ids st).
    destruct multi; cbn [andb] in Hx.
    * destruct (bool_decide (i ∈ selectedIds st)); cbn [andb] in Hx.
      -- apply elem_of_difference in Hx as [Hx _]. now apply Hsel.
      -- apply elem_of_union in Hx as [Hx|Hx]; [|now apply Hsel].
         apply elem_of_singleton in Hx as ->. exact Hoff.
    * rewrite andb_false_r in Hx. apply elem_of_union in Hx as [Hx|Hx].
      -- apply elem_of_singleton in Hx as ->. exact Hoff.
      -- now apply elem_of_empty in Hx.
  + intros x [= <-]. exact Hoff.
- split; cbn [handleSelectAll items selectedIds activeItemId]; try assumption.
  intros x Hx. change (ids (handleSelectAll st)) with (ids st).
  destruct (size (selectedIds st) =? length (items st)).
  + now apply elem_of_empty in Hx.
  + now apply elem_of_list_to_set in Hx.
- split; rewrite ?ids_delete.
  + apply NoDup_ListNoDup, List.NoDup_filter, NoDup_ListNoDup, Hnd.
  + intros x Hx. cbn [handleDelete selectedIds] in Hx.
    apply elem_of_difference in Hx as [Hx Hne]. apply list_elem_of_In, filter_In.
    split; [apply list_elem_of_In; now apply Hsel|].
    apply negb_true_iff, String.eqb_neq. intros ->. apply Hne. now apply elem_of_singleton.
  + intros x Hx. cbn [handleDelete activeItemId] in Hx.
    destruct (bool_decide (activeItemId st = Some i)) eqn:E; [discriminate|].
    apply bool_decide_eq_false_1 in E. apply list_elem_of_In, filter_In.
    split; [apply list_elem_of_In; now apply Hact|].
    apply negb_true_iff, String.eqb_neq. intros ->. now apply E.
Qed.

Lemma Tidy_run (actions : list Action) (st : t) :
Tidy st -> offeredAll st actions -> Tidy (run actions st).
Proof.
revert st; induction actions as [|a rest IH]; intros st Ht Hoff; [exact Ht|].
destruct Hoff as [Ha Hrest]. cbn [run fold_left]. apply IH; [|exact Hrest].
now apply Tidy_step.
Qed.

Lemma Tidy_initial : Tidy initial.
Proof.
split; cbn.
- constructor.
- intros i Hi. now apply elem_of_empty in Hi.
- discriminate.
Qed.

Lemma selection_full (st : t) :
Tidy st ->
size (selectedIds st) = length (items st) <-> selectedIds st = list_to_set (ids st).
Proof.
intros [Hnd Hsel _].
assert (Hsub : selectedIds st ⊆ list_to_set (ids st)).
{ intros i Hi. apply elem_of_list_to_set. now apply Hsel. }
assert (Hsize : size (list_to_set (C := gset string) (ids st)) = length (items st)).
{ rewrite size_list_to_set by exact Hnd. unfold ids. now rewrite length_map. }
split.
- intros E. apply set_subseteq_size_eq; [exact Hsub|]. lia.
- intros E. now rewrite E.
Qed.

(** X25: in every state that the user can reach from the empty list (by
    imports, by selecting and deleting items of the list, by "select all"),
    the items have different identifiers and only items of the list are
    selected or active.  So "select all", which only compares the size of
    the selection with the length of the list, does what it says: it clears
    the selection when every item is selected, and selects every item
    otherwise; and the items handed to an export are exactly the selected
    ones, in the order of the list. *)
Theorem selection_stays_within_the_list (actions : list Action) :
offeredAll initial actions ->
let st := run actions initial in
NoDup (ids st)
/\ (forall i, i ∈ selectedIds st -> i ∈ ids st)
/\ (forall i, activeItemId st = Some i -> i ∈ ids st)
/\ selectedIds (handleSelectAll st)
   = (if bool_decide (selectedIds st = list_to_set (ids st)) then ∅ else list_to_set (ids st))
/\ (forall it, it ∈ selectedItems st <-> exists s, (it, s) ∈ items st /\ id it ∈ selectedIds st).
Proof.
intros Hoff st. pose proof (Tidy_run actions initial Tidy_initial Hoff) as Ht. fold st in Ht.
destruct Ht as [Hnd Hsel Hact] eqn:E. clear E.
split; [exact Hnd|]. split; [exact Hsel|]. split; [exact Hact|]. split.
- cbn [handleSelectAll selectedIds].
  pose proof (selection_full st (Build_Tidy st Hnd Hsel Hact)) as Hfull.
  destruct (size (selectedIds st) =? length (items st)) eqn:E.
  + apply Nat.eqb_eq in E. now rewrite bool_decide_eq_true_2 by now apply Hfull.
  + apply Nat.eqb_neq in E. rewrite bool_decide_eq_false_2; [reflexivity|].
    intros H. apply E. now apply Hfull.
- intros it. unfold selectedItems. rewrite list_elem_of_fmap. split.
  + intros ([it' s] & -> & H). apply list_elem_of_In, filter_In in H as [Hin Hb].
    apply bool_decide_eq_true_1 in Hb. exists s. split; [now apply list_elem_of_In|exact Hb].
  + intros (s & Hin & Hb). exists (it, s). split; [reflexivity|].
    apply list_elem_of_In, filter_In. split; [now apply list_elem_of_In|].
    now apply bool_decide_eq_true_2.
Qed.

Lemma selection_stays_within_the_list_witness :
let st := run [Upload [Fixtures.itemA; Fixtures.itemB; Fixtures.itemC]; Select "B" true;
               Delete "A"; SelectAll] initial in
selectedIds (handleSelectAll st)
= (if bool_decide (selectedIds st = list_to_set (ids st)) then ∅ else list_to_set (ids st)).
Proof.
cbv zeta.
refine (proj1 (proj2 (proj2 (proj2 (selection_stays_within_the_list
          [Upload [Fixtures.itemA; Fixtures.itemB; Fixtures.itemC]; Select "B" true;
           Delete "A"; SelectAll] _))))).
cbn [offeredAll offered]. repeat split.
- repeat constructor; cbn; rewrite ?elem_of_cons, ?elem_of_nil; intuition discriminate.
- intros i _ H. now apply elem_of_nil in H.
- apply list_elem_of_In. vm_compute. tauto.
Defined.

(** *** The status of the items *)

Lemma report_items (evs : list Event) (st : t) :
items (fold_left report evs st)
= map (fun e => (fst e, match last (statuses (idOf e) evs) with
                        | Some s => reported s
                        | None => snd e
                        end)) (items st).
Proof.
revert st; induction evs as [|ev evs IH]; intros st; cbn [fold_left].
- cbn. induction (items st) as [|[it s] l IHl]; [reflexivity|]. cbn. now rewrite <- IHl.
- rewrite IH. unfold report.
  destruct ev as [j s|c tot n|k|k r|r c|tk blob|tk e|r|f b|n]; try reflexivity.
  cbn [onItemStatusChange items]. rewrite map_map. apply map_ext. intros [it old].
  unfold statuses. cbn [flat_map]. change (idOf (it, old)) with (id it).
  destruct (String.eqb (id it) j) eqn:E; cbn [fst snd app idOf]; [|reflexivity].
  change (idOf (it, reported s)) with (id it). fold (statuses (id it) evs).
  rewrite last_cons. now destruct (last (statuses (id it) evs)).
Qed.

(** X26: the status that each item of the list shows after an export is the
    last status that the export reported for its identifier, and its old
    status when nothing was reported for it: the callback of [App] and the
    status board agree. *)
Theorem reports_reach_the_items (evs : list Event) (st : t) :
items (fold_left report evs st)
= map (fun e => (fst e, match ExportProcessor.statusBoard evs !! idOf e with
                        | Some s => reported s
                        | None => snd e
                        end)) (items st).
Proof.
rewrite report_items. apply map_ext. intros e. now rewrite statusBoard_last.
Qed.

End AppProperties.

(** ** The import of a folder *)

Section LoaderProperties.

Import Text SpineLoader.

(** *** The type of a file *)

Lemma append_cons (x : ascii) (a b : string) : (String x a ++ b = String x (a ++ b))%string.
Proof. reflexivity. Qed.

Lemma append_assoc (a b c : string) : ((a ++ b) ++ c = a ++ (b ++ c))%string.
Proof. induction a as [|x a IH]; [reflexivity|]. rewrite !append_cons. now rewrite IH. Qed.

Lemma append_nil_r (a : string) : (a ++ "")%string = a.
Proof. induction a as [|x a IH]; [reflexivity|]. rewrite append_cons. now rewrite IH. Qed.

Lemma rev_app_spec (s acc : string) : String.rev_app s acc = (String.rev s ++ acc)%string.
Proof.
unfold String.rev. revert acc; induction s as [|c s IH]; intros acc; cbn [String.rev_app].
- reflexivity.
- rewrite IH, (IH (String c "")). now rewrite append_assoc.
Qed.

Lemma rev_append (a b : string) :
String.rev (a ++ b) = (String.rev b ++ String.rev a)%string.
Proof.
induction a as [|c a IH].
- change (String.rev "") with "". now rewrite append_nil_r.
- rewrite append_cons. unfold String.rev at 1 3. cbn [String.rev_app].
  rewrite !rev_app_spec, IH. now rewrite append_assoc.
Qed.

Lemma toLowerCase_append (a b : string) :
toLowerCase (a ++ b) = (toLowerCase a ++ toLowerCase b)%string.
Proof.
induction a as [|c a IH]; [reflexivity|]. rewrite append_cons. cbn [toLowerCase].
now rewrite IH, append_cons.
Qed.

(** X27: the type of a file is read from the end of its name alone, whatever
    the case of the letters: a name that ends in one of the eight extensions,
    spelled in any case, has the type of that extension, whatever comes
    before. *)
Theorem getFileType_reads_the_extension (stem spelled ext : string) (ty : FileType) :
(ext, ty) ∈ extensions -> toLowerCase spelled = ext ->
getFileType (stem ++ spelled) = ty.
Proof.
intros Hext Hlow. unfold getFileType. rewrite toLowerCase_append, Hlow.
unfold endsWith. rewrite rev_append.
unfold extensions in Hext.
repeat (apply elem_of_cons in Hext as [Hext|Hext];
        [injection Hext as -> ->; clear Hlow;
         generalize (String.rev (toLowerCase stem)); intros [|? ?]; reflexivity|]).
now apply elem_of_nil in Hext.
Qed.

Lemma getFileType_reads_the_extension_witness :
getFileType "Hero/skeleton.JSON" = type_json.
Proof.
apply (getFileType_reads_the_extension "Hero/skeleton" ".JSON" ".json" type_json).
- apply elem_of_cons. now left.
- reflexivity.
Defined.

End LoaderProperties.

(** *** The entry of a folder *)

Section FolderEntries.

Import Text SpineLoader.

Lemma lookup_addFile (m : gmap string Entry) (f : File) (d : string) :
addFile m f !! d
= if negb (hidden f) && String.eqb (dirPath f) d
  then Some (classify (default newEntry (m !! d)) f)
  else m !! d.
Proof.
unfold addFile. destruct (hidden f); simpl; [reflexivity|].
destruct (String.eqb_spec (dirPath f) d) as [->|Hne].
- now rewrite lookup_insert_eq.
- now rewrite lookup_insert_ne.
Qed.

Lemma filesIn_cons (d : string) (f : File) (fs : list File) :
filesIn d (f :: fs)
= if negb (hidden f) && String.eqb (dirPath f) d then f :: filesIn d fs else filesIn d fs.
Proof. reflexivity. Qed.

Lemma lookup_fold (fs : list File) (m : gmap string Entry) (d : string) :
fold_left addFile fs m !! d = entryOf (m !! d) (filesIn d fs).
Proof.
revert m. induction fs as [|f fs IH]; intros m; [reflexivity|].
simpl fold_left. rewrite IH, lookup_addFile, filesIn_cons.
destruct (negb (hidden f) && String.eqb (dirPath f) d); [|reflexivity].
now destruct (filesIn d fs).
Qed.

Lemma Summary_new : Summary [] newEntry.
Proof.
split; simpl; try easy.
Qed.

Lemma existsb_snoc {A} (p : A -> bool) (l : list A) (x : A) :
existsb p (l ++ [x]) = existsb p l || p x.
Proof. rewrite existsb_app. simpl. now rewrite orb_false_r. Qed.

Lemma filter_snoc {A} (p : A -> bool) (l : list A) (x : A) :
List.filter p (l ++ [x]) = List.filter p l ++ (if p x then [x] else []).
Proof. rewrite List.filter_app. reflexivity. Qed.

Lemma no_skeleton_ranks (seen : list File) :
existsb isSkeleton seen = false -> forall f, f ∈ seen -> rank (typeOf f) = 0.
Proof.
intros Hno f Hf. apply list_elem_of_In in Hf.
destruct (isSkeleton f) eqn:Hsk.
- assert (existsb isSkeleton seen = true) by (apply existsb_exists; eauto). congruence.
- unfold isSkeleton in Hsk. apply Nat.ltb_ge in Hsk. lia.
Qed.

Lemma FirstOfTheBest_only (seen : list File) (f : File) :
existsb isSkeleton seen = false -> isSkeleton f = true -> FirstOfTheBest f (seen ++ [f]).
Proof.
intros Hno Hf. exists seen, []. split; [reflexivity|]. split.
- intros g Hg. rewrite (no_skeleton_ranks _ Hno g Hg).
  unfold isSkeleton in Hf. now apply Nat.ltb_lt in Hf.
- intros g Hg. now apply elem_of_nil in Hg.
Qed.

Lemma FirstOfTheBest_better (seen : list File) (sk f : File) :
FirstOfTheBest sk seen -> rank (typeOf sk) < rank (typeOf f) -> FirstOfTheBest f (seen ++ [f]).
Proof.
intros (before & after & -> & Hb & Ha) Hlt. exists (before ++ sk :: after), [].
split; [reflexivity|]. split.
- intros g Hg. apply elem_of_app in Hg as [Hg|Hg].
  + specialize (Hb g Hg). lia.
  + apply elem_of_cons in Hg as [->|Hg]; [lia|]. specialize (Ha g Hg). lia.
- intros g Hg. now apply elem_of_nil in Hg.
Qed.

Lemma FirstOfTheBest_kept (seen : list File) (sk f : File) :
FirstOfTheBest sk seen -> rank (typeOf f) <= rank (typeOf sk) -> FirstOfTheBest sk (seen ++ [f]).
Proof.
intros (before & after & -> & Hb & Ha) Hle. exists before, (after ++ [f]).
split; [now rewrite <- app_assoc|]. split; [exact Hb|].
intros g Hg. apply elem_of_app in Hg as [Hg|Hg]; [now apply Ha|].
apply list_elem_of_singleton in Hg as ->. exact Hle.
Qed.

Lemma Summary_classify (seen : list File) (e : Entry) (f : File) :
Summary seen e -> Summary (seen ++ [f]) (classify e f).
Proof.
intros [Hnone Hsk Hnoatlas Hatlas Himages].
assert (Hskel : forall ty, typeOf f = ty -> 0 < rank ty ->
          Summary (seen ++ [f])
            (if match entry_skeleton e with
                | None => true
                | Some _ => match skeletonType e with
                            | Some cur => rank cur <? rank ty
                            | None => false
                            end
                end
             then {| entry_skeleton := Some f; entry_atlas := entry_atlas e;
                     entry_images := entry_images e; skeletonType := Some ty |}
             else e)).
{ intros ty Hty Hrank.
  assert (Hf : isSkeleton f = true) by (unfold isSkeleton; rewrite Hty; now apply Nat.ltb_lt).
  assert (Hfa : isAtlas f = false) by (unfold isAtlas; rewrite Hty; now destruct ty).
  assert (Hfi : isImage f = false) by (unfold isImage; rewrite Hty; now destruct ty).
  destruct (entry_skeleton e) as [sk|] eqn:Hes.
  - destruct (Hsk sk eq_refl) as (Hst & Hsksk & Hfirst). rewrite Hst.
    destruct (rank (typeOf sk) <? rank ty) eqn:Hcmp.
    + apply Nat.ltb_lt in Hcmp. split; simpl.
      * rewrite existsb_snoc, Hf, orb_true_r. easy.
      * intros ? [= <-]. rewrite Hty. split; [reflexivity|]. split; [exact Hf|].
        apply (FirstOfTheBest_better seen sk f Hfirst). now rewrite Hty.
      * now rewrite existsb_snoc, Hfa, orb_false_r.
      * intros a Ha. destruct (Hatlas a Ha). split; [|easy]. apply elem_of_app. now left.
      * now rewrite filter_snoc, Hfi, app_nil_r.
    + apply Nat.ltb_ge in Hcmp. split.
      * rewrite existsb_snoc, Hf, orb_true_r, Hes. easy.
      * rewrite Hes. intros ? [= <-]. split; [exact Hst|]. split; [exact Hsksk|].
        apply FirstOfTheBest_kept; [exact Hfirst|]. now rewrite Hty.
      * now rewrite existsb_snoc, Hfa, orb_false_r.
      * intros a Ha. destruct (Hatlas a Ha). split; [|easy]. apply elem_of_app. now left.
      * now rewrite filter_snoc, Hfi, app_nil_r.
  - split; simpl.
    + rewrite existsb_snoc, Hf, orb_true_r. easy.
    + intros ? [= <-]. rewrite Hty. split; [reflexivity|]. split; [exact Hf|].
      apply FirstOfTheBest_only; [|exact Hf]. now apply Hnone.
    + now rewrite existsb_snoc, Hfa, orb_false_r.
    + intros a Ha. destruct (Hatlas a Ha). split; [|easy]. apply elem_of_app. now left.
    + now rewrite filter_snoc, Hfi, app_nil_r. }
assert (Hkeep : typeOf f = type_unknown -> Summary (seen ++ [f]) e).
{ intros Hty.
  assert (Hf : isSkeleton f = false) by (unfold isSkeleton; now rewrite Hty).
  assert (Hfa : isAtlas f = false) by (unfold isAtlas; now rewrite Hty).
  assert (Hfi : isImage f = false) by (unfold isImage; now rewrite Hty).
  split.
  - now rewrite existsb_snoc, Hf, orb_false_r.
  - intros sk Hs. destruct (Hsk sk Hs) as (Hst & Hsksk & Hfirst).
    split; [exact Hst|]. split; [exact Hsksk|].
    apply FirstOfTheBest_kept; [exact Hfirst|]. rewrite Hty. simpl. lia.
  - now rewrite existsb_snoc, Hfa, orb_false_r.
  - intros a Ha. destruct (Hatlas a Ha). split; [|easy]. apply elem_of_app. now left.
  - now rewrite filter_snoc, Hfi, app_nil_r. }
unfold classify. fold (typeOf f). destruct (typeOf f) eqn:Hty.
- specialize (Hskel type_json eq_refl ltac:(simpl; lia)).
  destruct (entry_skeleton e) as [sk|] eqn:Hes; [|exact Hskel].
  destruct (Hsk sk eq_refl) as (Hst & Hsksk & _). rewrite Hst in Hskel |- *.
  unfold isSkeleton in Hsksk. destruct (typeOf sk); try discriminate Hsksk; exact Hskel.
- specialize (Hskel type_skel eq_refl ltac:(simpl; lia)).
  destruct (entry_skeleton e) as [sk|] eqn:Hes; [|exact Hskel].
  destruct (Hsk sk eq_refl) as (Hst & Hsksk & _). rewrite Hst in Hskel |- *.
  unfold isSkeleton in Hsksk. destruct (typeOf sk); try discriminate Hsksk; exact Hskel.
- specialize (Hskel type_spine eq_refl ltac:(simpl; lia)).
  destruct (entry_skeleton e) as [sk|] eqn:Hes; [|exact Hskel].
  destruct (Hsk sk eq_refl) as (Hst & Hsksk & _). rewrite Hst in Hskel |- *.
  unfold isSkeleton in Hsksk. destruct (typeOf sk); try discriminate Hsksk; exact Hskel.
- assert (Hf : isSkeleton f = false) by (unfold isSkeleton; now rewrite Hty).
  assert (Hfa : isAtlas f = true) by (unfold isAtlas; now rewrite Hty).
  assert (Hfi : isImage f = false) by (unfold isImage; now rewrite Hty).
  assert (Hrep : Summary (seen ++ [f])
            {| entry_skeleton := entry_skeleton e; entry_atlas := Some f;
               entry_images := entry_images e; skeletonType := skeletonType e |}).
  { split; simpl.
    - now rewrite existsb_snoc, Hf, orb_false_r.
    - intros sk Hs. destruct (Hsk sk Hs) as (Hst & Hsksk & Hfirst).
      split; [exact Hst|]. split; [exact Hsksk|].
      apply FirstOfTheBest_kept; [exact Hfirst|]. rewrite Hty. simpl. lia.
    - rewrite existsb_snoc, Hfa, orb_true_r. easy.
    - intros ? [= <-]. split; [|exact Hfa]. apply elem_of_app. right. now left.
    - now rewrite filter_snoc, Hfi, app_nil_r. }
  assert (Hold : is_Some (entry_atlas e) -> Summary (seen ++ [f]) e).
  { intros [a0 Ha0]. split.
    - now rewrite existsb_snoc, Hf, orb_false_r.
    - intros sk Hs. destruct (Hsk sk Hs) as (Hst & Hsksk & Hfirst).
      split; [exact Hst|]. split; [exact Hsksk|].
      apply FirstOfTheBest_kept; [exact Hfirst|]. rewrite Hty. simpl. lia.
    - rewrite existsb_snoc, Hfa, orb_true_r, Ha0. easy.
    - intros a Ha. destruct (Hatlas a Ha). split; [|easy]. apply elem_of_app. now left.
    - now rewrite filter_snoc, Hfi, app_nil_r. }
  destruct (entry_atlas e) as [a0|] eqn:Ha0; [|exact Hrep].
  destruct (entry_skeleton e) as [sk|]; [|now apply Hold].
  destruct (includes _ _); [exact Hrep|now apply Hold].
- assert (Hf : isSkeleton f = false) by (unfold isSkeleton; now rewrite Hty).
  assert (Hfa : isAtlas f = false) by (unfold isAtlas; now rewrite Hty).
  assert (Hfi : isImage f = true) by (unfold isImage; now rewrite Hty).
  split; simpl.
  + now rewrite existsb_snoc, Hf, orb_false_r.
  + intros sk Hs. destruct (Hsk sk Hs) as (Hst & Hsksk & Hfirst).
    split; [exact Hst|]. split; [exact Hsksk|].
    apply FirstOfTheBest_kept; [exact Hfirst|]. rewrite Hty. simpl. lia.
  + now rewrite existsb_snoc, Hfa, orb_false_r.
  + intros a Ha. destruct (Hatlas a Ha). split; [|easy]. apply elem_of_app. now left.
  + now rewrite filter_snoc, Hfi, Himages.
- now apply Hkeep.
Qed.

Lemma Summary_fold (l seen : list File) (e : Entry) :
Summary seen e -> Summary (seen ++ l) (fold_left classify l e).
Proof.
revert seen e. induction l as [|f l IH]; intros seen e Hsum; simpl.
- now rewrite app_nil_r.
- replace (seen ++ f :: l) with ((seen ++ [f]) ++ l) by now rewrite <- app_assoc.
  apply IH. now apply Summary_classify.
Qed.

Lemma lookup_pathMap (fs : list File) (d : string) :
fold_left addFile fs ∅ !! d
= match filesIn d fs with
  | [] => None
  | seen => Some (fold_left classify seen newEntry)
  end.
Proof. rewrite lookup_fold, lookup_empty. unfold entryOf. now destruct (filesIn d fs). Qed.

Lemma entry_summary (fs : list File) (d : string) (e : Entry) :
fold_left addFile fs ∅ !! d = Some e -> Summary (filesIn d fs) e.
Proof.
rewrite lookup_pathMap. destruct (filesIn d fs) as [|f seen] eqn:Hseen; [discriminate|].
intros [= <-]. apply (Summary_fold (f :: seen) [] newEntry Summary_new).
Qed.

Lemma entry_of_a_file (fs : list File) (f : File) :
f ∈ fs -> hidden f = false -> is_Some (fold_left addFile fs ∅ !! dirPath f).
Proof.
intros Hf Hvis. rewrite lookup_pathMap.
assert (Hin : In f (filesIn (dirPath f) fs)).
{ apply filter_In. split; [now apply list_elem_of_In|].
  now rewrite Hvis, String.eqb_refl. }
destruct (filesIn (dirPath f) fs); [destruct Hin|eauto].
Qed.

Lemma elem_of_filesIn (fs : list File) (d : string) (f : File) :
f ∈ filesIn d fs <-> f ∈ fs /\ hidden f = false /\ dirPath f = d.
Proof.
unfold filesIn. rewrite !list_elem_of_In, filter_In, andb_true_iff, negb_true_iff.
now rewrite String.eqb_eq.
Qed.

Lemma isAssetRoot_holdsAsset (fs : list File) (d : string) :
isAssetRoot (fold_left addFile fs ∅) d = holdsAsset d fs.
Proof.
unfold isAssetRoot, holdsAsset.
destruct (fold_left addFile fs ∅ !! d) as [e|] eqn:He.
- destruct (entry_summary fs d e He) as [Hnone _ Hnoatlas _ _]. f_equal.
  + destruct (entry_skeleton e) as [sk|].
    * destruct (existsb isSkeleton (filesIn d fs)); [reflexivity|].
      discriminate (proj2 Hnone eq_refl).
    * now rewrite (proj1 Hnone eq_refl).
  + destruct (entry_atlas e) as [a|].
    * destruct (existsb isAtlas (filesIn d fs)); [reflexivity|].
      discriminate (proj2 Hnoatlas eq_refl).
    * now rewrite (proj1 Hnoatlas eq_refl).
- rewrite lookup_pathMap in He. now destruct (filesIn d fs).
Qed.

(** The paths of the map, and the roots among them. *)
Lemma elem_of_allPaths (pathMap : gmap string Entry) (d : string) :
d ∈ merge_sort String.le (map fst (map_to_list pathMap)) <-> is_Some (pathMap !! d).
Proof.
rewrite merge_sort_Permutation. rewrite list_elem_of_In, in_map_iff. split.
- intros ([k e] & <- & Hin). apply list_elem_of_In, elem_of_map_to_list in Hin. eauto.
- intros [e He]. exists (d, e). split; [reflexivity|].
  now apply list_elem_of_In, elem_of_map_to_list.
Qed.

Lemma NoDup_allPaths (pathMap : gmap string Entry) :
NoDup (merge_sort String.le (map fst (map_to_list pathMap))).
Proof. rewrite merge_sort_Permutation. apply (NoDup_fst_map_to_list pathMap). Qed.

Lemma elem_of_assetRoots (pathMap : gmap string Entry) (d : string) :
d ∈ List.filter (isAssetRoot pathMap) (merge_sort String.le (map fst (map_to_list pathMap)))
<-> isAssetRoot pathMap d = true.
Proof.
rewrite list_elem_of_In, filter_In, <- list_elem_of_In, elem_of_allPaths. split; [tauto|].
intros Hroot. split; [|exact Hroot]. unfold isAssetRoot in Hroot.
destruct (pathMap !! d); [eauto|discriminate].
Qed.

Lemma build_spec (uuid : nat -> string) (pathMap : gmap string Entry)
  (allPaths assetRoots roots : list string) (k : nat) :
(forall r, r ∈ roots -> isAssetRoot pathMap r = true) ->
map basePath (build uuid pathMap allPaths assetRoots roots k) = roots
/\ map item_id (build uuid pathMap allPaths assetRoots roots k)
   = map uuid (seq k (length roots))
/\ Forall (Made pathMap allPaths assetRoots) (build uuid pathMap allPaths assetRoots roots k).
Proof.
revert k. induction roots as [|r roots IH]; intros k Hroots; [now repeat split|].
assert (Hr : isAssetRoot pathMap r = true) by (apply Hroots; now left).
destruct (IH (S k)) as (Hpaths & Hids & Hmade).
{ intros r' Hr'. apply Hroots. now right. }
unfold isAssetRoot in Hr. cbn [build].
destruct (pathMap !! r) as [e|] eqn:He; [|discriminate].
destruct (entry_skeleton e) as [sk|] eqn:Hsk; [|discriminate].
destruct (entry_atlas e) as [a|] eqn:Ha; [|discriminate].
cbn [map length seq basePath item_id]. rewrite Hpaths, Hids.
split; [reflexivity|]. split; [reflexivity|].
constructor; [|exact Hmade]. exists e. now cbn.
Qed.

End FolderEntries.

(** *** The items of a folder *)

Section LoaderItems.

Import Text SpineLoader.

Variable uuid : nat -> string.
Variable collate : list Item -> list Item.
Hypothesis collate_permutes : forall l, collate l ≡ₚ l.

Lemma group_spec (fs : list File) (items : list Item) :
groupFilesByDirectory uuid collate fs = Some items ->
let pathMap := fold_left addFile fs ∅ in
let allPaths := merge_sort String.le (map fst (map_to_list pathMap)) in
let assetRoots := List.filter (isAssetRoot pathMap) allPaths in
map basePath items ≡ₚ assetRoots
/\ map item_id items ≡ₚ map uuid (seq 0 (length items))
/\ forall it, it ∈ items -> Made pathMap allPaths assetRoots it.
Proof.
intros Hgroup pathMap allPaths assetRoots. revert Hgroup.
unfold groupFilesByDirectory. destruct (plain fs); [|discriminate].
intros [= <-].
destruct (build_spec uuid pathMap allPaths assetRoots assetRoots 0) as (Hpaths & Hids & Hmade).
{ intros r Hr. now apply elem_of_assetRoots in Hr. }
fold pathMap allPaths assetRoots.
set (built := build uuid pathMap allPaths assetRoots assetRoots 0) in *.
assert (Hlen : length (collate built) = length assetRoots).
{ rewrite (Permutation_length (collate_permutes built)).
  now rewrite <- Hpaths, length_map. }
split; [|split].
- rewrite <- Hpaths. apply Permutation_map, collate_permutes.
- rewrite Hlen, <- Hids. apply Permutation_map, collate_permutes.
- intros it Hit. rewrite collate_permutes in Hit.
  now apply (proj1 (Forall_forall _ _) Hmade).
Qed.

Lemma group_roots (fs : list File) (items : list Item) (d : string) :
groupFilesByDirectory uuid collate fs = Some items ->
d ∈ map basePath items <-> holdsAsset d fs = true.
Proof.
intros Hgroup. destruct (group_spec fs items Hgroup) as (Hpaths & _ & _).
cbv zeta in Hpaths. rewrite Hpaths, elem_of_assetRoots. now rewrite isAssetRoot_holdsAsset.
Qed.

(** X28: an item takes the best skeleton of its folder: its skeleton is
    the first of the files of the folder with the highest rank, [.skel]
    before [.json] before [.spine], among the files that are not hidden, and
    its atlas is an [.atlas] file of the same folder. *)
Theorem item_takes_the_best_skeleton (fs : list File) (items : list Item) (it : Item) :
groupFilesByDirectory uuid collate fs = Some items -> it ∈ items ->
isSkeleton (item_skeleton it) = true
/\ FirstOfTheBest (item_skeleton it) (filesIn (basePath it) fs)
/\ item_atlas it ∈ filesIn (basePath it) fs
/\ isAtlas (item_atlas it) = true.
Proof.
intros Hgroup Hit. destruct (group_spec fs items Hgroup) as (_ & _ & Hmade).
destruct (Hmade it Hit) as (e & He & Hsk & Ha & _).
destruct (entry_summary fs (basePath it) e He) as [_ Hskeleton _ Hatlas _].
destruct (Hskeleton _ Hsk) as (_ & Hrank & Hfirst). destruct (Hatlas _ Ha) as (Hin & Hty).
now repeat split.
Qed.

(** X29: when no file that is read lies in a folder whose path names a
    property of [Object.prototype], the import gives one item for each
    folder that holds a skeleton and an atlas among its files that are not
    hidden, and none for any other folder; the item is named after the last
    segment of the path of its folder, and the identifiers of the items are
    the results of as many calls of [crypto.randomUUID]. *)
Theorem one_item_per_asset_folder (fs : list File) (items : list Item) :
groupFilesByDirectory uuid collate fs = Some items ->
NoDup (map basePath items)
/\ (forall d, d ∈ map basePath items <-> holdsAsset d fs = true)
/\ map item_id items ≡ₚ map uuid (seq 0 (length items))
/\ (forall it, it ∈ items -> item_name it = nameOf (basePath it)).
Proof.
intros Hgroup. destruct (group_spec fs items Hgroup) as (Hpaths & Hids & Hmade).
cbv zeta in Hpaths. split; [|split; [|split]].
- rewrite Hpaths. apply NoDup_ListNoDup, List.NoDup_filter, NoDup_ListNoDup, NoDup_allPaths.
- intros d. now apply group_roots.
- exact Hids.
- intros it Hit. now destruct (Hmade it Hit) as (e & _ & _ & _ & _ & Hname).
Qed.

(** X30: when no file that is read lies in a folder whose path names a
    property of [Object.prototype], the images of an item are the images
    that are not hidden and lie in the folder of the item, or in a folder
    below it that holds no asset of its own.  So an image in a folder
    without an asset goes to every asset folder above it, not only to the
    nearest. *)
Theorem item_images_come_from_below (fs : list File) (items : list Item) (it : Item)
  (f : File) :
groupFilesByDirectory uuid collate fs = Some items -> it ∈ items ->
f ∈ item_images it
<-> f ∈ fs /\ hidden f = false /\ isImage f = true
    /\ (dirPath f = basePath it
        \/ (startsWith (dirPath f) (basePath it ++ "/") = true
            /\ holdsAsset (dirPath f) fs = false)).
Proof.
intros Hgroup Hit. destruct (group_spec fs items Hgroup) as (_ & _ & Hmade).
destruct (Hmade it Hit) as (e & He & _ & _ & Himg & _). rewrite Himg. clear Himg.
assert (Himages : forall d e', fold_left addFile fs ∅ !! d = Some e' ->
          f ∈ entry_images e'
          <-> f ∈ fs /\ hidden f = false /\ isImage f = true /\ dirPath f = d).
{ intros d e' He'. rewrite (sum_images _ _ (entry_summary fs d e' He')).
  rewrite list_elem_of_In, filter_In, <- list_elem_of_In, elem_of_filesIn. tauto. }
unfold allImages. rewrite elem_of_app, (Himages _ _ He).
rewrite (list_elem_of_In (flat_map _ _) f), in_flat_map. split.
- intros [H|(other & Hother & Hin)]; [tauto|].
  destruct (startsWith other (basePath it ++ "/")) eqn:Hbelow; [|destruct Hin].
  cbn [andb] in Hin.
  destruct (bool_decide (other ∈ _)) eqn:Hroot; [destruct Hin|]. cbn [negb] in Hin.
  apply bool_decide_eq_false_1 in Hroot.
  rewrite elem_of_assetRoots, isAssetRoot_holdsAsset in Hroot.
  destruct (fold_left addFile fs ∅ !! other) as [e'|] eqn:He'; [|destruct Hin].
  apply list_elem_of_In, (Himages _ _ He') in Hin as (Hf & Hvis & Hty & <-).
  repeat split; try assumption. right. split; [exact Hbelow|].
  now destruct (holdsAsset (dirPath f) fs).
- intros (Hf & Hvis & Hty & [Hdir|[Hbelow Hplain]]); [tauto|]. right.
  exists (dirPath f). destruct (entry_of_a_file fs f Hf Hvis) as [e' He']. split.
  + apply list_elem_of_In, elem_of_allPaths. eauto.
  + rewrite Hbelow, bool_decide_eq_false_2, He'.
    * cbn [andb negb]. apply list_elem_of_In, (Himages _ _ He'). tauto.
    * rewrite elem_of_assetRoots, isAssetRoot_holdsAsset. now rewrite Hplain.
Qed.

End LoaderItems.

Section LoaderSample.

Import Text SpineLoader.

Lemma item_takes_the_best_skeleton_witness :
isSkeleton (item_skeleton heroItem) = true
/\ FirstOfTheBest (item_skeleton heroItem) (filesIn (basePath heroItem) sampleFolder)
/\ item_atlas heroItem ∈ filesIn (basePath heroItem) sampleFolder
/\ isAtlas (item_atlas heroItem) = true.
Proof.
apply (item_takes_the_best_skeleton sampleUuid (fun l => l) (fun l => reflexivity l)
         sampleFolder [heroItem; petItem]).
- vm_compute. reflexivity.
- apply elem_of_cons. now left.
Defined.

Lemma one_item_per_asset_folder_witness :
NoDup (map basePath [heroItem; petItem])
/\ (forall d, d ∈ map basePath [heroItem; petItem] <-> holdsAsset d sampleFolder = true)
/\ map item_id [heroItem; petItem] ≡ₚ map sampleUuid (seq 0 (length [heroItem; petItem]))
/\ (forall it, it ∈ [heroItem; petItem] -> item_name it = nameOf (basePath it)).
Proof.
apply (one_item_per_asset_folder sampleUuid (fun l => l) (fun l => reflexivity l) sampleFolder).
vm_compute. reflexivity.
Defined.

Lemma item_images_come_from_below_witness :
fileAt "Pack/Hero/Pet/skins" "red.webp" ∈ item_images heroItem
/\ fileAt "Pack/Hero/Pet/skins" "red.webp" ∈ item_images petItem.
Proof.
split.
- apply (item_images_come_from_below sampleUuid (fun l => l) (fun l => reflexivity l)
           sampleFolder [heroItem; petItem] heroItem).
  + vm_compute. reflexivity.
  + apply elem_of_cons. now left.
  + split; [apply list_elem_of_In; vm_compute; tauto|]. split; [reflexivity|].
    split; [reflexivity|]. right. split; reflexivity.
- apply (item_images_come_from_below sampleUuid (fun l => l) (fun l => reflexivity l)
           sampleFolder [heroItem; petItem] petItem).
  + vm_compute. reflexivity.
  + apply elem_of_cons. right. now left.
  + split; [apply list_elem_of_In; vm_compute; tauto|]. split; [reflexivity|].
    split; [reflexivity|]. right. split; reflexivity.
Defined.

End LoaderSample.
